(** * Virtual desktops extension: desktop switcher, wakeup queue, barrier
      closure and window-geometry reconciliation.

    A shallow embedding of the JavaScript sources.  JavaScript numbers that
    hold desktop indices, window ids and pixel bounds are integers and are
    modelled as [Z]; the [%] operator is truncated remainder, [Z.rem];
    objects used as dictionaries are [gmap]s; strings are [string]. *)

From Stdlib Require Import ZArith Lia.
From stdpp Require Import base option list gmap strings fin_maps.

Local Open Scope Z_scope.

(** ** Settings (virtualdesktops.settings) *)

Module settings.

(** [clampDefault_(value, min, max, def)].  The argument is the result of
    [parseInt(value, 10)]: [None] stands for NaN. *)
Definition clampDefault_ (value : option Z) (min max def : Z) : Z :=
  match value with
  | None => def
  | Some v => Z.min (Z.max v min) max
  end.

(** [getDesktops()], reading the parsed [localStorage['desktops']]. *)
Definition getDesktops (stored : option Z) : Z :=
  clampDefault_ stored 1 10 4.

End settings.

(** ** Global defines (goog.provide('virtualdesktops')) *)

Definition WINDOW_MANAGER_ATTEMPTS : nat := 5.
Definition WINDOW_MANAGER_TOLERANCE : Z := 64.

(** ** Data model *)

(** The part of a [ChromeWindow] the extension reads. *)
Record ChromeWindow := mkChromeWindow {
  cw_id : Z;
  cw_left : Z;
  cw_top : Z;
  cw_width : Z;
  cw_height : Z;
  cw_state : string;
  cw_focused : bool
}.

(** [virtualdesktops.WindowState]: the object literal
    [{desktop, state, x, y, w, h}] built by [updateWindowStates_]. *)
Record WindowState := mkWindowState {
  desktop : Z;
  state : string;
  x : Z;
  y : Z;
  w : Z;
  h : Z
}.

(** [ChromeWindowUpdateInfo]: every member is optional. *)
Record ChromeWindowUpdateInfo := mkUpdateInfo {
  ui_state : option string;
  ui_focused : option bool;
  ui_left : option Z;
  ui_top : option Z;
  ui_width : option Z;
  ui_height : option Z
}.

(** The fields of a [VirtualDesktopManager] that change over time. *)
Record VirtualDesktopManager := mkManager {
  currentDesktop_ : Z;
  windowStates_ : gmap Z WindowState
}.

(** What an operation reads from outside the manager: the value
    [virtualdesktops.settings.getDesktops()] returns while it runs, and the
    compile-time define [virtualdesktops.DISALLOW_EMPTY_DESKTOPS]. *)
Record Config := mkConfig {
  desktops : Z;
  DISALLOW_EMPTY_DESKTOPS : bool
}.

Definition MINIMIZED_STATE_ : string := "minimized".

(** [a != b] on strings. *)
Definition string_neqb (a b : string) : bool := negb (bool_decide (a = b)).

(** ** numberToDesktopId_ *)

(** The first half of [numberToDesktopId_]: clamp the current desktop and
    shift or collapse the request when the desktop count shrank.  Returns
    [(clampedCurrentDesktop, reqDesktop)]. *)
Definition clampAndShift (n cur reqDesktop : Z) : Z * Z :=
  if cur >? n - 1 then
    (n - 1,
     if reqDesktop >? cur then reqDesktop - (cur - (n - 1))
     else if reqDesktop >? n - 1 then n - 1
     else reqDesktop)
  else (cur, reqDesktop).

(** [((reqDesktop + n) % n + n) % n]. *)
Definition wrapDesktop (n reqDesktop : Z) : Z :=
  Z.rem (Z.rem (reqDesktop + n) n + n) n.

(** The loop [for (var wStr in this.windowStates_)] that fills
    [nWindowsOnDesktop]. *)
Definition countWindow (_ : Z) (s : WindowState) (acc : gmap Z nat) : gmap Z nat :=
  if string_neqb (state s) MINIMIZED_STATE_ then
    <[desktop s := S (default 0%nat (acc !! desktop s))]> acc
  else acc.

Definition nWindowsOnDesktop (ws : gmap Z WindowState) : gmap Z nat :=
  map_fold countWindow ∅ ws.

(** [nWindowsOnDesktop[d] > 0]; a missing entry is [undefined], and
    [undefined > 0] is false. *)
Definition hasWindows (counts : gmap Z nat) (d : Z) : bool :=
  match counts !! d with
  | Some c => bool_decide (0 < c)%nat
  | None => false
  end.

(** [Math.round(direction / n)] for integers [direction] and [n > 0]:
    [Math.round] rounds halves towards plus infinity, that is
    [floor(direction / n + 1/2)]. *)
Definition roundDiv (direction n : Z) : Z := (2 * direction + n) / (2 * n).

(** [direction -= n * Math.round(direction / n)]. *)
Definition mapDirection (n direction : Z) : Z :=
  direction - n * roundDiv direction n.

(** The sign that is retained. *)
Definition directionSign (direction : Z) : Z :=
  if direction <=? 0 then -1 else 1.

(** One pass of the loop body: [reqDesktop = (reqDesktop + direction + n) % n]. *)
Definition stepDesktop (n direction reqDesktop : Z) : Z :=
  Z.rem (reqDesktop + direction + n) n.

(** The [while (!(nWindowsOnDesktop[reqDesktop] > 0))] loop.  [fuel] bounds
    the number of passes; [None] is returned when it is used up. *)
Fixpoint adjustLoop (fuel : nat) (n clamped direction : Z)
    (counts : gmap Z nat) (reqDesktop : Z) : option Z :=
  if hasWindows counts reqDesktop then Some reqDesktop
  else
    match fuel with
    | O => None
    | S fuel' =>
        let reqDesktop' := stepDesktop n direction reqDesktop in
        if reqDesktop' =? clamped then Some reqDesktop'
        else adjustLoop fuel' n clamped direction counts reqDesktop'
    end.

(** [numberToDesktopId_(reqDesktop, disallowEmpty)] with [n] the desktop
    count read from the settings.  The loop walks a cycle of length [n], so
    [n] passes are given to it; [None] means it did not leave the loop. *)
Definition numberToDesktopId_ (n : Z) (this : VirtualDesktopManager)
    (reqDesktop : Z) (disallowEmpty : bool) : option Z :=
  let '(clampedCurrentDesktop, reqDesktop) :=
    clampAndShift n (currentDesktop_ this) reqDesktop in
  let reqDesktop := wrapDesktop n reqDesktop in
  if disallowEmpty then
    let counts := nWindowsOnDesktop (windowStates_ this) in
    let direction := reqDesktop - clampedCurrentDesktop in
    let direction := mapDirection n direction in
    let direction := directionSign direction in
    adjustLoop (Z.to_nat n) n clampedCurrentDesktop direction counts reqDesktop
  else Some reqDesktop.

(** A window state as [updateWindowStates_] writes it for a window that is
    shown on desktop [d]. *)
Definition normalOn (d : Z) : WindowState :=
  mkWindowState d "normal" 0 0 800 600.

(** ** The spec's reading of the direction rule, for comparison *)

(** Follows the spec's words: "map the raw difference into (-N/2, N/2]". *)
Definition spec_mapDirection (n direction : Z) : Z :=
  direction + n * ((n - 2 * direction) / (2 * n)).

(** Follows the spec's words: [normalizeDesktopIndex] with the direction
    taken from [spec_mapDirection]; everything else as in the code. *)
Definition spec_normalizeDesktopIndex (n : Z) (this : VirtualDesktopManager)
    (reqDesktop : Z) (disallowEmpty : bool) : option Z :=
  let '(clampedCurrentDesktop, reqDesktop) :=
    clampAndShift n (currentDesktop_ this) reqDesktop in
  let reqDesktop := wrapDesktop n reqDesktop in
  if disallowEmpty then
    let counts := nWindowsOnDesktop (windowStates_ this) in
    let direction := spec_mapDirection n (reqDesktop - clampedCurrentDesktop) in
    adjustLoop (Z.to_nat n) n clampedCurrentDesktop (directionSign direction)
               counts reqDesktop
  else Some reqDesktop.

(** A desktop holds a remembered window that is not minimized. *)
Definition nonEmptyDesktop (ws : gmap Z WindowState) (d : Z) : Prop :=
  ∃ id s, ws !! id = Some s ∧ state s ≠ MINIMIZED_STATE_ ∧ desktop s = d.

(** The desktop reached from [reqDesktop] after [k] passes of the loop. *)
Definition walk (n direction reqDesktop : Z) (k : nat) : Z :=
  Nat.iter k (stepDesktop n direction) reqDesktop.

(** ** updateWindowStates_ *)

(** The object literal written for a window that is unknown, on the current
    desktop or visible. *)
Definition freshState (cur : Z) (win : ChromeWindow) : WindowState :=
  mkWindowState cur (cw_state win) (cw_left win) (cw_top win)
                (cw_width win) (cw_height win).

(** The body of the [for] loop; [old] is [this.windowStates_] and [acc] the
    new dictionary [windowStates]. *)
Definition refreshWindow (cur : Z) (old : gmap Z WindowState)
    (acc : gmap Z WindowState) (win : ChromeWindow) : gmap Z WindowState :=
  match old !! cw_id win with
  | None => <[cw_id win := freshState cur win]> acc
  | Some s =>
      if (desktop s =? cur) || string_neqb (cw_state win) MINIMIZED_STATE_
      then <[cw_id win := freshState cur win]> acc
      else <[cw_id win := s]> acc
  end.

Definition updateWindowStates_ (this : VirtualDesktopManager)
    (windows : list ChromeWindow) : VirtualDesktopManager :=
  mkManager (currentDesktop_ this)
    (fold_left (refreshWindow (currentDesktop_ this) (windowStates_ this))
               windows ∅).

(** ** Calls the manager makes, in the order it makes them *)

(** The value passed as [focusedWinId].  The message handlers pass a number;
    [forgetWindow] passes what [getLastFocused] delivered. *)
Inductive JsValue :=
  | JsNumber (z : Z)
  | JsNull
  | JsWindow (win : ChromeWindow).

(** [this.windowStates_[v]]: only a number names a window id. *)
Definition lookupState (ws : gmap Z WindowState) (v : JsValue) : option WindowState :=
  match v with
  | JsNumber z => ws !! z
  | _ => None
  end.

(** [id == v] for a number [id]: [null] and objects never equal a number. *)
Definition looseEq (id : Z) (v : JsValue) : bool :=
  match v with
  | JsNumber z => id =? z
  | _ => false
  end.

Inductive Event :=
  | GetAll
  | GetLastFocused
  | OnChange (d : Z)
  | SaveState (cur : Z) (ws : gmap Z WindowState)
  | Update (winId : Z) (info : ChromeWindowUpdateInfo)
  | Callback.

Definition isUpdate (e : Event) : bool :=
  match e with Update _ _ => true | _ => false end.

Definition isCallback (e : Event) : bool :=
  match e with Callback => true | _ => false end.

(** ** applyWindowStates_ *)

(** First loop: restore or minimize.  [None] is the TypeError of reading
    [.desktop] of [undefined]. *)
Definition restoreState (this : VirtualDesktopManager) (win : ChromeWindow)
    : option (list Event) :=
  s ← windowStates_ this !! cw_id win;
  if desktop s =? currentDesktop_ this then
    Some [Update (cw_id win)
            (mkUpdateInfo (Some (state s))
                          (Some (string_neqb (state s) MINIMIZED_STATE_))
                          None None None None)]
  else if bool_decide (cw_state win = MINIMIZED_STATE_) then Some []
  else Some [Update (cw_id win)
               (mkUpdateInfo (Some MINIMIZED_STATE_) None None None None None)].

(** Second loop: restore position and size. *)
Definition restoreBounds (this : VirtualDesktopManager) (focusedWinId : JsValue)
    (win : ChromeWindow) : option (list Event) :=
  s ← windowStates_ this !! cw_id win;
  if (desktop s =? currentDesktop_ this)
     && string_neqb (state s) MINIMIZED_STATE_ then
    Some [Update (cw_id win)
            (mkUpdateInfo None
                          (if looseEq (cw_id win) focusedWinId
                           then Some true else None)
                          (Some (x s)) (Some (y s)) (Some (w s)) (Some (h s)))]
  else Some [].

(** All calls of one loop over [windows]. *)
Fixpoint forEachWindow (body : ChromeWindow → option (list Event))
    (windows : list ChromeWindow) : option (list Event) :=
  match windows with
  | [] => Some []
  | win :: rest =>
      evs ← body win;
      more ← forEachWindow body rest;
      Some (evs ++ more)
  end.

(** [applyWindowStates_] as the sequence of calls it issues when the window
    provider acknowledges every update: the second round starts when the
    first barrier fires, the callback when the second one does. *)
Definition applyWindowStates_ (this : VirtualDesktopManager)
    (windows : list ChromeWindow) (focusedWinId : JsValue)
    : option (list Event) :=
  phase1 ← forEachWindow (restoreState this) windows;
  phase2 ← forEachWindow (restoreBounds this focusedWinId) windows;
  Some (phase1 ++ phase2 ++ [Callback]).

(** ** switchToDesktop *)

(** [if (this.windowStates_[focusedWinId] != null)
       this.windowStates_[focusedWinId].desktop = desktop]. *)
Definition sendWindow (ws : gmap Z WindowState) (focusedWinId : JsValue)
    (target : Z) : gmap Z WindowState :=
  match focusedWinId, lookupState ws focusedWinId with
  | JsNumber z, Some s =>
      <[z := mkWindowState target (state s) (x s) (y s) (w s) (h s)]> ws
  | _, _ => ws
  end.

(** [windows] is the list [getAll] delivers. *)
Definition switchToDesktop (cfg : Config) (this : VirtualDesktopManager)
    (windows : list ChromeWindow) (target : Z) (focusedWinId : JsValue)
    (sendToDesktop : bool)
    : option (VirtualDesktopManager * list Event) :=
  let this := updateWindowStates_ this windows in
  target ← numberToDesktopId_ (desktops cfg) this target false;
  let this :=
    if sendToDesktop
    then mkManager (currentDesktop_ this)
                   (sendWindow (windowStates_ this) focusedWinId target)
    else this in
  let prevDesktop := currentDesktop_ this in
  newDesktop ← numberToDesktopId_ (desktops cfg) this target
                  (DISALLOW_EMPTY_DESKTOPS cfg);
  let this := mkManager newDesktop (windowStates_ this) in
  let notify := [GetAll; OnChange newDesktop;
                 SaveState newDesktop (windowStates_ this)] in
  if negb (newDesktop =? prevDesktop) then
    applied ← applyWindowStates_ this windows focusedWinId;
    Some (this, notify ++ applied)
  else Some (this, notify ++ [Callback]).

(** [switchToDesktop] read as: refresh, normalize, send, normalize again. *)
Definition switchedStates (cfg : Config) (this : VirtualDesktopManager)
    (windows : list ChromeWindow) (target : Z) (focusedWinId : JsValue)
    (sendToDesktop : bool) : gmap Z WindowState :=
  let refreshed := updateWindowStates_ this windows in
  if sendToDesktop then
    sendWindow (windowStates_ refreshed) focusedWinId
      (wrapDesktop (desktops cfg)
         (snd (clampAndShift (desktops cfg) (currentDesktop_ this) target)))
  else windowStates_ refreshed.

(** ** forgetWindow *)

(** [lastFocused] is what [getLastFocused] delivers, [windows] what the
    nested [getAll] delivers. *)
Definition forgetWindow (cfg : Config) (this : VirtualDesktopManager)
    (winId : Z) (lastFocused : option ChromeWindow)
    (windows : list ChromeWindow)
    : option (VirtualDesktopManager * list Event) :=
  let this := mkManager (currentDesktop_ this)
                        (delete winId (windowStates_ this)) in
  let saved := SaveState (currentDesktop_ this) (windowStates_ this) in
  if DISALLOW_EMPTY_DESKTOPS cfg then
    let win := match lastFocused with
               | Some cw => JsWindow cw
               | None => JsNull
               end in
    '(this', evs) ← switchToDesktop cfg this windows (currentDesktop_ this)
                      win false;
    Some (this', saved :: GetLastFocused :: evs)
  else Some (this, [saved; Callback]).

(** ** The constructor *)

(** [storedDesktop] is [parseInt(localStorage['currentDesktop'], 10)], with
    [None] for NaN; [storedStates] is the parsed [localStorage['windowStates']]
    or the empty object. *)
Definition newVirtualDesktopManager (storedDesktop : option Z)
    (storedStates : gmap Z WindowState) : VirtualDesktopManager * list Event :=
  let cur := match storedDesktop with
             | Some d => if d <? 0 then 0 else d
             | None => 0
             end in
  (mkManager cur storedStates, [OnChange cur]).

Definition liveWindow (id : Z) (st : string) : ChromeWindow :=
  mkChromeWindow id 0 0 800 600 st false.

(** ** WindowProvider: update with geometry reconciliation *)

Module WindowProvider.

(** The result object [{newUpdateInfo, distance}] of [fixUpdateInfo]. *)
Record Fixes := mkFixes {
  newUpdateInfo : ChromeWindowUpdateInfo;
  distance : Z
}.

(** [dx] and [dy] of [fixUpdateInfo]. *)
Definition farEdgeOffset (winNear winSize reqNear reqSize : Z) : Z :=
  (winNear + winSize) - (reqNear + reqSize).

Definition fixUpdateInfo (win : ChromeWindow)
    (updateInfo : ChromeWindowUpdateInfo) : Fixes :=
  let '(width', distance) :=
    match ui_width updateInfo, ui_left updateInfo with
    | Some width, Some lft =>
        let dx := farEdgeOffset (cw_left win) (cw_width win) lft width in
        (Some (width - dx), 0 + Z.abs dx)
    | _, _ => (None, 0)
    end in
  let '(height', distance) :=
    match ui_height updateInfo, ui_top updateInfo with
    | Some height, Some top =>
        let dy := farEdgeOffset (cw_top win) (cw_height win) top height in
        (Some (height - dy), distance + Z.abs dy)
    | _, _ => (None, distance)
    end in
  mkFixes (mkUpdateInfo None None None None width' height') distance.

(** Calls made on the outside world. *)
Inductive Call :=
  | ChromeWindowsUpdate (winId : Z) (info : ChromeWindowUpdateInfo)
  | SetTimeout
  | ChromeWindowsGet (winId : Z)
  | CallCallback.

(** [checkWindowUpdated_(winId, updateInfo, callback, i)], by recursion on
    the attempts left, [WINDOW_MANAGER_ATTEMPTS - i].  [reads i] is what
    [get] delivers at attempt [i]; [None] is a window that disappeared. *)
Fixpoint checkLoop (remaining : nat) (winId : Z)
    (updateInfo : ChromeWindowUpdateInfo)
    (reads : nat → option ChromeWindow) (i : nat) : list Call :=
  match remaining with
  | O => [CallCallback]
  | S remaining' =>
      SetTimeout :: ChromeWindowsGet winId ::
      match reads i with
      | None => [CallCallback]
      | Some win =>
          let fixes := fixUpdateInfo win updateInfo in
          if distance fixes =? 0 then [CallCallback]
          else if distance fixes >? WINDOW_MANAGER_TOLERANCE then
            checkLoop remaining' winId updateInfo reads (S i)
          else [ChromeWindowsUpdate winId (newUpdateInfo fixes); CallCallback]
      end
  end.

Definition checkWindowUpdated_ (winId : Z)
    (updateInfo : ChromeWindowUpdateInfo)
    (reads : nat → option ChromeWindow) (i : nat) : list Call :=
  checkLoop (WINDOW_MANAGER_ATTEMPTS - i) winId updateInfo reads i.

Definition update (winId : Z) (updateInfo : ChromeWindowUpdateInfo)
    (reads : nat → option ChromeWindow) : list Call :=
  ChromeWindowsUpdate winId updateInfo
    :: checkWindowUpdated_ winId updateInfo reads 0.

(** [k] rounds of waiting and reading back. *)
Fixpoint polls (k : nat) (winId : Z) : list Call :=
  match k with
  | O => []
  | S k' => SetTimeout :: ChromeWindowsGet winId :: polls k' winId
  end.

(** The distance found at attempt [i]. *)
Definition distanceAt (updateInfo : ChromeWindowUpdateInfo)
    (reads : nat → option ChromeWindow) (i : nat) : option Z :=
  (fun win => distance (fixUpdateInfo win updateInfo)) <$> reads i.

(** At attempt [i] the window is there and further than the tolerance
    from what was requested. *)
Definition tooFar (updateInfo : ChromeWindowUpdateInfo)
    (reads : nat → option ChromeWindow) (i : nat) : Prop :=
  ∃ win, reads i = Some win
         ∧ distance (fixUpdateInfo win updateInfo) > WINDOW_MANAGER_TOLERANCE.

(** The offset of the far edge in one dimension, if both the position and
    the size were requested in it. *)
Definition requestedOffset (reqNear reqSize : option Z)
    (winNear winSize : Z) : option Z :=
  match reqSize, reqNear with
  | Some size, Some near => Some (farEdgeOffset winNear winSize near size)
  | _, _ => None
  end.

(** What is read back from a window manager that adds a border of 3 and
    a title bar of 10 to a window requested at (100, 100), 300 by 200. *)
Definition reads_decorated (_ : nat) : option ChromeWindow :=
  Some (mkChromeWindow 1 103 113 300 200 "normal" true).

End WindowProvider.

(** ** WakeupQueue *)

Module WakeupQueue.

(** What a queued closure does with the [finished] callback it is given:
    call it before returning, hand it to an asynchronous operation that
    calls it later, or drop it. *)
Inductive Conduct := CallsFinished | HandsOver | Drops.

(** A closure starts; the [finished] given to a closure is called.  A
    closure is named by its ticket, the number of [add] calls before
    its own. *)
Inductive LogEntry :=
  | Started (ticket : nat)
  | Finished (ticket : nat).

Section Queue.
Context {Task : Type}.
Variable conduct : Task → Conduct.

(** [queue_] holds the closures, each with its ticket; [pending] holds
    the tickets whose [finished] is in the hands of an asynchronous
    operation; [log] and [added] (every closure ever added, in the
    order of the [add] calls) are kept for specification only. *)
Record State := mkState {
  queue_ : list (nat * Task);
  pending : list nat;
  log : list LogEntry;
  added : list Task
}.

Definition empty : State := mkState [] [] [] [].

(** [wakeupFirst_], with [wakeupNext_] unfolded where the closure calls
    [finished] before it returns. *)
Fixpoint wakeupFirst_ (q : list (nat * Task)) (pend : list nat)
    (lg : list LogEntry) : list (nat * Task) * list nat * list LogEntry :=
  match q with
  | [] => (q, pend, lg)
  | (i, t) :: rest =>
      match conduct t with
      | CallsFinished => wakeupFirst_ rest pend (lg ++ [Started i; Finished i])
      | HandsOver => (q, i :: pend, lg ++ [Started i])
      | Drops => (q, pend, lg ++ [Started i])
      end
  end.

Definition add (func : Task) (s : State) : State :=
  let q := queue_ s ++ [(length (added s), func)] in
  if (length q =? 1)%nat then
    let '(q', pend, lg) := wakeupFirst_ q (pending s) (log s) in
    mkState q' pend lg (added s ++ [func])
  else mkState q (pending s) (log s) (added s ++ [func]).

(** [wakeupNext_], called through the [finished] that closure [i] was
    given: the head of the queue is shifted out, whichever closure it is,
    and the next one is woken up.  The ticket only goes into the log and
    out of [pending]. *)
Definition wakeupNext_ (i : nat) (s : State) : State :=
  let '(q', pend, lg) :=
    wakeupFirst_ (tail (queue_ s))
                 (filter (fun j => j ≠ i) (pending s))
                 (log s ++ [Finished i]) in
  mkState q' pend lg (added s).

Definition isIdle (s : State) : bool := (length (queue_ s) =? 0)%nat.

(** What can happen to a queue: a closure is added, or the [finished]
    that a closure was given is called. *)
Inductive Input :=
  | Add (func : Task)
  | Complete (ticket : nat).

(** The queue as the source has it.  [finished] is [wakeupNext_] bound to
    the queue, the same function for every closure, and nothing checks who
    calls it or how often: [Complete i] is a call of the [finished] that
    closure [i] was given, whoever makes it and whenever. *)
Definition call (s : State) (e : Input) : State :=
  match e with
  | Add func => add func s
  | Complete i => wakeupNext_ i s
  end.

Definition calls (s : State) (es : list Input) : State :=
  fold_left call es s.

(** The contract of [add] (its argument "must call its argument when
    finished"): a [finished] is called only by an operation that holds it,
    which holds it no longer afterwards, so that no [finished] is called
    twice. *)
Fixpoint contract (s : State) (es : list Input) : bool :=
  match es with
  | [] => true
  | e :: rest =>
      match e with
      | Add _ => true
      | Complete i => bool_decide (i ∈ pending s)
      end && contract (call s e) rest
  end.

(** The queue with the contract kept: as [call], but a [finished] that no
    operation holds is not called. *)
Definition step (s : State) (e : Input) : State :=
  match e with
  | Add func => add func s
  | Complete i =>
      if bool_decide (i ∈ pending s) then wakeupNext_ i s else s
  end.

Definition run (s : State) (es : list Input) : State :=
  fold_left step es s.

(** The closures passed to [add], in order. *)
Definition addedBy (es : list Input) : list Task :=
  omap (fun e => match e with Add func => Some func | _ => None end) es.

(** Tickets of the [Started] entries, in log order. *)
Definition started (lg : list LogEntry) : list nat :=
  omap (fun e => match e with Started i => Some i | _ => None end) lg.

(** The log of the first [m] closures run one after the other, each to
    its end. *)
Definition completed (m : nat) : list LogEntry :=
  flat_map (fun i => [Started i; Finished i]) (seq 0 m).

(** Closures with consecutive tickets from [i] on. *)
Fixpoint ticketedFrom (i : nat) (l : list Task) : list (nat * Task) :=
  match l with
  | [] => []
  | t :: rest => (i, t) :: ticketedFrom (S i) rest
  end.

(** The tickets that are pending when [q] is the queue. *)
Definition headPending (q : list (nat * Task)) : list nat :=
  match q with
  | (i, t) :: _ =>
      match conduct t with HandsOver => [i] | _ => [] end
  | [] => []
  end.

(** The log when [a] closures have finished and [q] is the queue. *)
Definition runningLog (a : nat) (q : list (nat * Task)) : list LogEntry :=
  completed a ++ match q with [] => [] | _ :: _ => [Started a] end.

(** The closure at the head of the queue has not called [finished]. *)
Definition headWaits (q : list (nat * Task)) : Prop :=
  match q with
  | (_, t) :: _ => conduct t ≠ CallsFinished
  | [] => True
  end.

(** What holds of every state that [calls] reaches from the empty queue,
    whatever is called: the closures before ticket [a] have left the queue,
    the others are queued in the order of their [add] calls, and the
    closures started so far are those up to the head of the queue, in that
    order. *)
Record Fifo (a : nat) (s : State) : Prop := mkFifo {
  fifo_queue : queue_ s = ticketedFrom a (drop a (added s));
  fifo_bound : (a ≤ length (added s))%nat;
  fifo_started :
    started (log s) = seq 0 (match queue_ s with [] => a | _ :: _ => S a end)
}.

(** The shape of every state that is reached from the empty queue with the
    contract kept: the first [a] closures added have run to their end, the
    others are queued in the order of their [add] calls, and the first of
    them is running. *)
Record Shape (a : nat) (s : State) : Prop := mkShape {
  shape_queue : queue_ s = ticketedFrom a (drop a (added s));
  shape_bound : (a ≤ length (added s))%nat;
  shape_log : log s = runningLog a (queue_ s);
  shape_pending : pending s = headPending (queue_ s);
  shape_head : headWaits (queue_ s)
}.

End Queue.

End WakeupQueue.

(** ** BarrierClosure *)

Module BarrierClosure.

(** Modelled from the spec: [virtualdesktops.BarrierClosure] is required by
    virtual_desktop_manager.js and exercised by barrier_closure_test.js, but
    its own file is not among the sources.  The state is the pending-signal
    count, whether [finalize()] was called, whether a continuation is
    registered, and how often the continuation ran. *)
Record State := mkState {
  count_ : nat;
  finalized_ : bool;
  then_ : bool;
  fired : nat
}.

Definition new : State := mkState 0 false false 0.

(** Modelled from the spec: the condition "all obtained signals have fired
    and [finalize()] has been called". *)
Definition ready (s : State) : bool :=
  finalized_ s && (count_ s =? 0)%nat.

(** Modelled from the spec: run the continuation when one is registered and
    the condition holds. *)
Definition fireIfReady (s : State) : State :=
  if ready s && then_ s
  then mkState (count_ s) (finalized_ s) (then_ s) (S (fired s))
  else s.

(** Modelled from the spec: [get()] increments the pending-signal count and
    must be called only before [finalize()]; [None] is the programming
    error. *)
Definition get (s : State) : option State :=
  if finalized_ s then None
  else Some (mkState (S (count_ s)) (finalized_ s) (then_ s) (fired s)).

(** Modelled from the spec: invoking a signal returned by [get()]. *)
Definition signal (s : State) : option State :=
  match count_ s with
  | O => None
  | S c => Some (fireIfReady (mkState c (finalized_ s) (then_ s) (fired s)))
  end.

(** Modelled from the spec: [finalize()] freezes the set of expected
    signals; a second call is a programming error. *)
Definition finalize (s : State) : option State :=
  if finalized_ s then None
  else Some (fireIfReady (mkState (count_ s) true (then_ s) (fired s))).

(** Modelled from the spec: [then(continuation)] registers the
    continuation and fires at once if the condition already holds. *)
Definition then' (s : State) : option State :=
  Some (fireIfReady (mkState (count_ s) (finalized_ s) true (fired s))).

(** The calls a client makes.  [Signal i] invokes the closure that the
    [i]-th call of [get()] returned. *)
Inductive Call :=
  | Get
  | Signal (i : nat)
  | Finalize
  | Then.

Definition step (s : State) (c : Call) : option State :=
  match c with
  | Get => get s
  | Signal _ => signal s
  | Finalize => finalize s
  | Then => then' s
  end.

Fixpoint run (s : State) (cs : list Call) : option State :=
  match cs with
  | [] => Some s
  | c :: rest => s' ← step s c; run s' rest
  end.

Definition isGet (c : Call) : bool := match c with Get => true | _ => false end.
Definition isSignal (c : Call) : bool := match c with Signal _ => true | _ => false end.
Definition isFinalize (c : Call) : bool := match c with Finalize => true | _ => false end.
Definition isThen (c : Call) : bool := match c with Then => true | _ => false end.

Definition countb (p : Call → bool) (cs : list Call) : nat :=
  length (List.filter p cs).

(** What has happened to a barrier so far: how many signals were obtained,
    which of them were invoked, and whether [finalize()] and [then()] were
    called. *)
Record View := mkView {
  gets : nat;
  invoked : list nat;
  finalized : bool;
  registered : bool
}.

Definition advance (v : View) (c : Call) : View :=
  match c with
  | Get => mkView (S (gets v)) (invoked v) (finalized v) (registered v)
  | Signal i => mkView (gets v) (i :: invoked v) (finalized v) (registered v)
  | Finalize => mkView (gets v) (invoked v) true (registered v)
  | Then => mkView (gets v) (invoked v) (finalized v) true
  end.

(** A use of the barrier according to its contract, continued from the
    point [v]: every [get()] comes before [finalize()], a signal is invoked
    after the [get()] that returned it and only once, [finalize()] and
    [then()] are called once, and in the end every signal was invoked. *)
Fixpoint contractFrom (v : View) (cs : list Call) : bool :=
  match cs with
  | [] =>
      finalized v && registered v && (length (invoked v) =? gets v)%nat
  | c :: rest =>
      match c with
      | Get => negb (finalized v)
      | Signal i => (i <? gets v)%nat && negb (bool_decide (i ∈ invoked v))
      | Finalize => negb (finalized v)
      | Then => negb (registered v)
      end && contractFrom (advance v c) rest
  end.

Definition contract (cs : list Call) : bool :=
  contractFrom (mkView 0 [] false false) cs.

(** The barrier state [s] agrees with what has happened. *)
Record Agrees (v : View) (s : State) : Prop := mkAgrees {
  agrees_nodup : NoDup (invoked v);
  agrees_obtained : ∀ i, i ∈ invoked v → (i < gets v)%nat;
  agrees_count : count_ s = (gets v - length (invoked v))%nat;
  agrees_finalized : finalized_ s = finalized v;
  agrees_then : then_ s = registered v;
  agrees_fired :
    fired s = if finalized v && registered v
                 && (length (invoked v) =? gets v)%nat
              then 1%nat else 0%nat
}.

(** After the calls [done] of a use with [k] signals in all: has
    [finalize()] been called, has [then()] been called, and has every
    signal been invoked? *)
Definition conditionHolds (k : nat) (done : list Call) : bool :=
  (0 <? countb isFinalize done)%nat && (0 <? countb isThen done)%nat
  && (countb isSignal done =? k)%nat.

End BarrierClosure.

(** ** WindowManagerService: the message handler *)

Module RequestType.
Definition MOVE_WINDOW : string := "moveWindow".
Definition EXTRACT_TAB : string := "extractTab".
Definition SWITCH_TO_NEXT_DESKTOP : string := "switchToNextDesktop".
Definition SWITCH_TO_PREVIOUS_DESKTOP : string := "switchToPreviousDesktop".
Definition CURRENT_TO_NEXT_DESKTOP : string := "currentToNextDesktop".
Definition CURRENT_TO_PREVIOUS_DESKTOP : string := "currentToPreviousDesktop".

Definition all : list string :=
  [MOVE_WINDOW; EXTRACT_TAB; SWITCH_TO_NEXT_DESKTOP;
   SWITCH_TO_PREVIOUS_DESKTOP; CURRENT_TO_NEXT_DESKTOP;
   CURRENT_TO_PREVIOUS_DESKTOP].
End RequestType.

Module WindowManagerService.

(** The members of a message the handler reads. *)
Record Message := mkMessage {
  request : string;
  fullscreen : bool;
  winId : Z;
  tabId : Z;
  extractTab : string;
  incognito : bool;
  msg_x : Z;
  msg_y : Z;
  msg_w : Z;
  msg_h : Z
}.

(** The operation a message closure starts and hands [callback] to.
    [SwitchBy delta] is
    [switchToDesktop(currentDesktop() + delta, winId, send, callback)]. *)
Inductive Operation :=
  | MaximizeWindow (winId : Z)
  | PositionWindow (winId x y w h : Z)
  | MaximizeTab (tabId : Z) (type : string) (incognito : bool)
  | PositionTab (tabId : Z) (type : string) (incognito : bool) (x y w h : Z)
  | SwitchBy (delta : Z) (winId : Z) (sendToDesktop : bool).

(** The [switch (message['request'])] of the closure [messageHandler_]
    enqueues.  [callback] (send the response, then call [finished]) is
    only ever passed to the operation returned here; with [None] no case
    matched and the closure returns without having used it. *)
Definition messageSwitch (message : Message) : option Operation :=
  let r := request message in
  if bool_decide (r = RequestType.MOVE_WINDOW) then
    if fullscreen message then Some (MaximizeWindow (winId message))
    else Some (PositionWindow (winId message) (msg_x message)
                 (msg_y message) (msg_w message) (msg_h message))
  else if bool_decide (r = RequestType.EXTRACT_TAB) then
    if fullscreen message
    then Some (MaximizeTab (tabId message) (extractTab message)
                 (incognito message))
    else Some (PositionTab (tabId message) (extractTab message)
                 (incognito message) (msg_x message) (msg_y message)
                 (msg_w message) (msg_h message))
  else if bool_decide (r = RequestType.SWITCH_TO_NEXT_DESKTOP) then
    Some (SwitchBy 1 (winId message) false)
  else if bool_decide (r = RequestType.SWITCH_TO_PREVIOUS_DESKTOP) then
    Some (SwitchBy (-1) (winId message) false)
  else if bool_decide (r = RequestType.CURRENT_TO_NEXT_DESKTOP) then
    Some (SwitchBy 1 (winId message) true)
  else if bool_decide (r = RequestType.CURRENT_TO_PREVIOUS_DESKTOP) then
    Some (SwitchBy (-1) (winId message) true)
  else None.

(** The closures the service puts on its wakeup queue. *)
Inductive Task :=
  | MessageTask (message : Message)
  | FocusChangedTask (target winId : Z)
  | RemovedTask (winId : Z).

(** What each closure does with [finished]: every operation is
    asynchronous and is handed the callback. *)
Definition conduct (t : Task) : WakeupQueue.Conduct :=
  match t with
  | MessageTask message =>
      match messageSwitch message with
      | Some _ => WakeupQueue.HandsOver
      | None => WakeupQueue.Drops
      end
  | FocusChangedTask _ _ => WakeupQueue.HandsOver
  | RemovedTask _ => WakeupQueue.HandsOver
  end.

(** [messageHandler_(message, sender, sendResponse)]. *)
Definition messageHandler_ (message : Message)
    (q : @WakeupQueue.State Task) : @WakeupQueue.State Task :=
  WakeupQueue.add conduct (MessageTask message) q.

End WindowManagerService.

(** ** States used in examples *)

(** Current desktop 1 holding window 1, and window 2 remembered on desktop 0. *)
Definition twoDesktopManager : VirtualDesktopManager :=
  mkManager 1 (<[1 := normalOn 1]> (<[2 := normalOn 0]> ∅)).

(** A message whose request is none of the request types. *)
Definition unknownMessage : WindowManagerService.Message :=
  WindowManagerService.mkMessage "ping" false 0 0 "" false 0 0 0 0.

(** Four desktops, current desktop 0, one visible window on each of the
    desktops 0, 1 and 3, none on desktop 2. *)
Definition halfwayManager : VirtualDesktopManager :=
  mkManager 0 (<[10 := normalOn 0]> (<[11 := normalOn 1]> (<[13 := normalOn 3]> ∅))).

(** Current desktop 0, one visible window on desktop 0, one on desktop 2. *)
Definition gapManager : VirtualDesktopManager :=
  mkManager 0 (<[7 := normalOn 0]> (<[9 := normalOn 2]> ∅)).

(** The closures of the unit test of the queue: [true] calls [finished]
    before it returns, [false] hands it to a timer. *)
Definition testConduct (t : bool) : WakeupQueue.Conduct :=
  if t then WakeupQueue.CallsFinished else WakeupQueue.HandsOver.

(** Current desktop 0 with a single remembered window, number 1. *)
Definition lastWindowManager : VirtualDesktopManager :=
  mkManager 0 (<[1 := normalOn 0]> ∅).

(** ** The settings store *)

Module storedSettings.

(** The members of [window.localStorage] the settings use, each as what
    [parseInt(., 10)] makes of it ([None] for NaN or a missing member); the
    grouping mode is kept as the stored string. *)
Record Stored := mkStored {
  rows : option Z;
  columns : option Z;
  desktopCount : option Z;
  groupBy : option string
}.

(** A JavaScript number as [String] sees it: not a number, infinite, zero,
    or a sign with digits [s] and an exponent [n], the magnitude being [s]
    times ten to the power [n] minus the number of digits of [s].  So 123
    is [Finite false 123 3], ten to the power 21 is [Finite false 1 22],
    and 2.5 is [Finite false 25 1].  [String] takes the shortest [s] that
    gives the number; zeros at the end of [s] change nothing of what is
    read back. *)
Inductive Number :=
  | NaN
  | Infinity (negative : bool)
  | Zero
  | Finite (negative : bool) (s : positive) (n : Z).

Fixpoint digitsFrom (fuel : nat) (s : Z) : Z :=
  match fuel with
  | O => 1
  | S fuel => if s <? 10 then 1 else 1 + digitsFrom fuel (s / 10)
  end.

(** The number of decimal digits of [s]; it has no more digits than
    bits. *)
Definition digitCount (s : positive) : Z :=
  digitsFrom (Pos.size_nat s) (Z.pos s).

(** The first decimal digit of [s]. *)
Definition leadingDigit (s : positive) : Z :=
  Z.pos s / 10 ^ (digitCount s - 1).

(** An integer as a [Number]. *)
Definition ofInteger (z : Z) : Number :=
  match z with
  | Z0 => Zero
  | Zpos s => Finite false s (digitCount s)
  | Zneg s => Finite true s (digitCount s)
  end.

(** [parseInt(String(x), 10)]: what is read of a number that was stored,
    [localStorage] keeping strings.  [String] writes "NaN", "Infinity" and
    "-Infinity", of which [parseInt] makes NaN, and "0".  For the others it
    writes, after the sign and with [k] the number of digits of [s]: the
    digits and [n - k] zeros if [k <= n <= 21]; the first [n] digits, a
    point and the other digits if [0 < n <= 21]; "0.", zeros and the
    digits if [-6 < n <= 0]; and else the first digit, a point and the
    other digits if there are any, and the exponent, as in "1e+21", of
    which [parseInt] reads the sign and the digits before the first
    character that is no digit.  (A number of more than 53 bits is read as
    the nearest double, which lies on the same side of every bound of a
    setting.) *)
Definition parsedString (x : Number) : option Z :=
  match x with
  | NaN => None
  | Infinity _ => None
  | Zero => Some 0
  | Finite negative s n =>
      let k := digitCount s in
      let magnitude :=
        if (k <=? n) && (n <=? 21) then Z.pos s * 10 ^ (n - k)
        else if (0 <? n) && (n <=? 21) then Z.pos s / 10 ^ (k - n)
        else if (-6 <? n) && (n <=? 0) then 0
        else leadingDigit s in
      Some (if negative then - magnitude else magnitude)
  end.

(** The setters: [window.localStorage[key] = n]. *)
Definition setRows (n : Number) (st : Stored) : Stored :=
  mkStored (parsedString n) (columns st) (desktopCount st) (groupBy st).

Definition setColumns (n : Number) (st : Stored) : Stored :=
  mkStored (rows st) (parsedString n) (desktopCount st) (groupBy st).

Definition setDesktops (n : Number) (st : Stored) : Stored :=
  mkStored (rows st) (columns st) (parsedString n) (groupBy st).

Definition setGroupBy (g : string) (st : Stored) : Stored :=
  mkStored (rows st) (columns st) (desktopCount st) (Some g).

Definition getRows (st : Stored) : Z := settings.clampDefault_ (rows st) 1 2 2.

Definition getColumns (st : Stored) : Z :=
  settings.clampDefault_ (columns st) 1 4 3.

Definition getDesktops (st : Stored) : Z :=
  settings.getDesktops (desktopCount st).

Definition getGroupBy (st : Stored) : string :=
  match groupBy st with
  | Some g =>
      if string_neqb g "size" && string_neqb g "origin" then "size" else g
  | None => "size"
  end.

End storedSettings.

(** ** The manager's accessors and its use over time *)

(** [getDesktopOfWindow(winId)]: [None] is the [undefined] of an unknown
    window. *)
Definition getDesktopOfWindow (this : VirtualDesktopManager) (winId : Z)
    : option Z :=
  desktop <$> windowStates_ this !! winId.

Definition currentDesktop (this : VirtualDesktopManager) : Z :=
  currentDesktop_ this.

(** A call of one of the two operations that change a manager, with what
    the settings and the window provider deliver during the call. *)
Inductive ManagerCall :=
  | CallSwitchToDesktop (cfg : Config) (windows : list ChromeWindow)
      (target : Z) (focusedWinId : JsValue) (sendToDesktop : bool)
  | CallForgetWindow (cfg : Config) (winId : Z)
      (lastFocused : option ChromeWindow) (windows : list ChromeWindow).

Definition callConfig (c : ManagerCall) : Config :=
  match c with
  | CallSwitchToDesktop cfg _ _ _ _ => cfg
  | CallForgetWindow cfg _ _ _ => cfg
  end.

Definition callManager (this : VirtualDesktopManager) (c : ManagerCall)
    : option (VirtualDesktopManager * list Event) :=
  match c with
  | CallSwitchToDesktop cfg windows target focusedWinId sendToDesktop =>
      switchToDesktop cfg this windows target focusedWinId sendToDesktop
  | CallForgetWindow cfg winId lastFocused windows =>
      forgetWindow cfg this winId lastFocused windows
  end.

(** Calls made one after the other, each when the one before has called
    back. *)
Fixpoint callsManager (this : VirtualDesktopManager) (cs : list ManagerCall)
    : option (VirtualDesktopManager * list Event) :=
  match cs with
  | [] => Some (this, [])
  | c :: rest =>
      '(this1, evs1) ← callManager this c;
      '(this2, evs2) ← callsManager this1 rest;
      Some (this2, evs1 ++ evs2)
  end.

(** The state [updateWindowStates_] writes for one window of the list, given
    the states [old] remembered before. *)
Definition refreshedState (cur : Z) (old : gmap Z WindowState)
    (win : ChromeWindow) : WindowState :=
  match old !! cw_id win with
  | None => freshState cur win
  | Some s =>
      if (desktop s =? cur) || string_neqb (cw_state win) MINIMIZED_STATE_
      then freshState cur win
      else s
  end.

(** What [saveState_] wrote last. *)
Definition lastSaved (evs : list Event)
    : option (Z * gmap Z WindowState) :=
  fold_left (fun acc e =>
               match e with
               | SaveState cur ws => Some (cur, ws)
               | _ => acc
               end) evs None.

(** The manager a reload of the extension constructs from what was saved:
    the saved desktop number is read back by [parseInt], the saved states by
    [JSON.parse]. *)
Definition reloaded (saved : Z * gmap Z WindowState) : VirtualDesktopManager :=
  fst (newVirtualDesktopManager (Some (fst saved)) (snd saved)).

(** The three shapes of an update [applyWindowStates_] issues. *)
Definition restoreStateInfo (s : WindowState) : ChromeWindowUpdateInfo :=
  mkUpdateInfo (Some (state s))
               (Some (string_neqb (state s) MINIMIZED_STATE_))
               None None None None.

Definition minimizeInfo : ChromeWindowUpdateInfo :=
  mkUpdateInfo (Some MINIMIZED_STATE_) None None None None None.

Definition restoreBoundsInfo (s : WindowState) (focus : bool)
    : ChromeWindowUpdateInfo :=
  mkUpdateInfo None (if focus then Some true else None)
               (Some (x s)) (Some (y s)) (Some (w s)) (Some (h s)).

(** ** WindowProvider.create and the X11 simulation of its unit test *)

Module WindowProviderCreate.

(** [ChromeWindowCreateInfo], as far as the extension fills it. *)
Record ChromeWindowCreateInfo := mkCreateInfo {
  ci_type : string;
  ci_incognito : bool;
  ci_tabId : Z;
  ci_focused : bool;
  ci_left : option Z;
  ci_top : option Z;
  ci_width : option Z;
  ci_height : option Z
}.

Inductive CreateCall :=
  | ChromeWindowsCreate (info : ChromeWindowCreateInfo)
  | SetTimeoutCreate
  | Updating (c : WindowProvider.Call).

(** [create(createInfo, callback)]; [win] is the window
    [chrome.windows.create] delivers, [reads] what is read back while the
    bounds are reconciled.  The last call of the update, [CallCallback], is
    [callback] bound to [win]. *)
Definition create (createInfo : ChromeWindowCreateInfo) (win : ChromeWindow)
    (reads : nat → option ChromeWindow) : list CreateCall :=
  let updateInfo :=
    mkUpdateInfo None None (ci_left createInfo) (ci_top createInfo)
                 (ci_width createInfo) (ci_height createInfo) in
  ChromeWindowsCreate createInfo :: SetTimeoutCreate
    :: (Updating <$> WindowProvider.update (cw_id win) updateInfo reads).

(** [simulateX11UpdateInfo(win, titleBarSize, borderSize, updateInfo)] of the
    unit test: what an X11 window manager makes of an update. *)
Definition simulateX11UpdateInfo (win : ChromeWindow)
    (titleBarSize borderSize : Z) (updateInfo : ChromeWindowUpdateInfo)
    : ChromeWindow :=
  mkChromeWindow (cw_id win)
    (match ui_left updateInfo with
     | Some l => l + borderSize
     | None => cw_left win
     end)
    (match ui_top updateInfo with
     | Some t => t + borderSize + titleBarSize
     | None => cw_top win
     end)
    (match ui_width updateInfo with
     | Some wd => wd
     | None => cw_width win
     end)
    (match ui_height updateInfo with
     | Some ht => ht
     | None => cw_height win
     end)
    (cw_state win) (cw_focused win).

Definition isWrite (c : WindowProvider.Call) : bool :=
  match c with WindowProvider.ChromeWindowsUpdate _ _ => true | _ => false end.

Definition isRead (c : WindowProvider.Call) : bool :=
  match c with WindowProvider.ChromeWindowsGet _ => true | _ => false end.

Definition isCall (c : WindowProvider.Call) : bool :=
  match c with WindowProvider.CallCallback => true | _ => false end.

End WindowProviderCreate.

(** ** The client: from grid cells to messages *)

Module client.

(** The members of [screen] that are read. *)
Record Screen := mkScreen {
  availLeft : Z;
  availTop : Z;
  availWidth : Z;
  availHeight : Z
}.

(** [Math.round(base + i * avail / count)] for integers and [count > 0]:
    the floor of the sum plus one half.  The settings deliver at most four
    columns and two rows; for such counts the fraction is either a multiple
    of a quarter, which is computed without error, or a third away from
    every half, so that the rounded number is the exact one. *)
Definition gridLine (base avail count i : Z) : Z :=
  (2 * (base * count + i * avail) + count) / (2 * count).

(** What [writePositionToMessage_] writes into the message. *)
Inductive Position :=
  | Fullscreen
  | Pixels (x y w h : Z).

Definition writePositionToMessage_ (scr : Screen) (columns rows : Z)
    (x y w h : Z) : Position :=
  if (x =? 0) && (y =? 0) && (w =? columns) && (h =? rows) then Fullscreen
  else
    let xmin := gridLine (availLeft scr) (availWidth scr) columns x in
    let xmax := gridLine (availLeft scr) (availWidth scr) columns (x + w) in
    let ymin := gridLine (availTop scr) (availHeight scr) rows y in
    let ymax := gridLine (availTop scr) (availHeight scr) rows (y + h) in
    Pixels xmin ymin (xmax - xmin) (ymax - ymin).

(** A message with the given request and ids and [position] written into
    it.  Members that the client does not set are absent in JavaScript; the
    record holds [false], [0] and the empty string for them. *)
Definition messageWith (request : string) (winId tabId : Z)
    (incognito : bool) (position : option Position)
    : WindowManagerService.Message :=
  match position with
  | Some (Pixels x y w h) =>
      WindowManagerService.mkMessage request false winId tabId "" incognito
        x y w h
  | Some Fullscreen =>
      WindowManagerService.mkMessage request true winId tabId "" incognito
        0 0 0 0
  | None =>
      WindowManagerService.mkMessage request false winId tabId "" incognito
        0 0 0 0
  end.

(** The functions of the client, each as the message it sends; [None] when
    the window or tab query delivered nothing and no message is sent.
    [win] is what [getCurrent] or [getLastFocused] delivers. *)
Definition moveCurrentWindowToGrid (scr : Screen) (columns rows : Z)
    (x y w h : Z) (win : option ChromeWindow)
    : option WindowManagerService.Message :=
  cw ← win;
  Some (messageWith RequestType.MOVE_WINDOW (cw_id cw) 0 false
          (Some (writePositionToMessage_ scr columns rows x y w h))).

(** [tabs] is the answer of [chrome.tabs.query], each tab with its id and
    whether it is incognito. *)
Definition extractCurrentTabToGrid (scr : Screen) (columns rows : Z)
    (x y w h : Z) (tabs : option (list (Z * bool)))
    : option WindowManagerService.Message :=
  match tabs with
  | Some [(tabId, incognito)] =>
      Some (messageWith RequestType.EXTRACT_TAB 0 tabId incognito
              (Some (writePositionToMessage_ scr columns rows x y w h)))
  | _ => None
  end.

Definition switchToNextDesktop (win : option ChromeWindow)
    : option WindowManagerService.Message :=
  cw ← win;
  Some (messageWith RequestType.SWITCH_TO_NEXT_DESKTOP (cw_id cw) 0 false None).

Definition switchToPreviousDesktop (win : option ChromeWindow)
    : option WindowManagerService.Message :=
  cw ← win;
  Some (messageWith RequestType.SWITCH_TO_PREVIOUS_DESKTOP (cw_id cw) 0 false
          None).

Definition currentToNextDesktop (win : option ChromeWindow)
    : option WindowManagerService.Message :=
  cw ← win;
  Some (messageWith RequestType.CURRENT_TO_NEXT_DESKTOP (cw_id cw) 0 false None).

Definition currentToPreviousDesktop (win : option ChromeWindow)
    : option WindowManagerService.Message :=
  cw ← win;
  Some (messageWith RequestType.CURRENT_TO_PREVIOUS_DESKTOP (cw_id cw) 0 false
          None).

(** One of the client's functions at one use. *)
Inductive ClientCall :=
  | MoveCurrentWindowToGrid (scr : Screen) (columns rows x y w h : Z)
      (win : option ChromeWindow)
  | ExtractCurrentTabToGrid (scr : Screen) (columns rows x y w h : Z)
      (tabs : option (list (Z * bool)))
  | SwitchToNextDesktop (win : option ChromeWindow)
  | SwitchToPreviousDesktop (win : option ChromeWindow)
  | CurrentToNextDesktop (win : option ChromeWindow)
  | CurrentToPreviousDesktop (win : option ChromeWindow).

Definition sends (c : ClientCall) : option WindowManagerService.Message :=
  match c with
  | MoveCurrentWindowToGrid scr columns rows x y w h win =>
      moveCurrentWindowToGrid scr columns rows x y w h win
  | ExtractCurrentTabToGrid scr columns rows x y w h tabs =>
      extractCurrentTabToGrid scr columns rows x y w h tabs
  | SwitchToNextDesktop win => switchToNextDesktop win
  | SwitchToPreviousDesktop win => switchToPreviousDesktop win
  | CurrentToNextDesktop win => currentToNextDesktop win
  | CurrentToPreviousDesktop win => currentToPreviousDesktop win
  end.

End client.

(** ** The wakeup queue: tickets that called [finished] *)

Definition finishedTickets (lg : list WakeupQueue.LogEntry) : list nat :=
  omap (fun e => match e with
                 | WakeupQueue.Finished i => Some i
                 | _ => None
                 end) lg.

(** * Properties *)

(** ** numberToDesktopId_ without the empty-desktop rule *)

Section Wrap.
Variable n : Z.
Hypothesis n_pos : 1 ≤ n.

Lemma rem_magnitude a : - n < Z.rem a n < n.
Proof using n_pos.
  destruct (Z_le_gt_dec 0 a) as [Ha | Ha].
  - pose proof (Z.rem_bound_pos a n Ha ltac:(lia)). lia.
  - pose proof (Z.rem_bound_pos_neg a n ltac:(lia) ltac:(lia)). lia.
Qed.

Lemma wrapDesktop_mod r : wrapDesktop n r = r mod n.
Proof using n_pos.
  unfold wrapDesktop.
  pose proof (rem_magnitude (r + n)) as Hm.
  pose proof (Z.quot_rem' (r + n) n) as Hq.
  rewrite Z.rem_mod_nonneg by lia.
  replace (Z.rem (r + n) n + n) with (r + (2 - (r + n) ÷ n) * n) by lia.
  apply Z_mod_plus_full.
Qed.

Lemma wrapDesktop_range r : 0 ≤ wrapDesktop n r < n.
Proof using n_pos. rewrite wrapDesktop_mod. apply Z.mod_pos_bound. lia. Qed.

Lemma wrapDesktop_id r : 0 ≤ r < n → wrapDesktop n r = r.
Proof using n_pos. intros. rewrite wrapDesktop_mod. apply Z.mod_small. lia. Qed.

Lemma clampAndShift_clamped cur r :
  fst (clampAndShift n cur r) = Z.min cur (n - 1).
Proof. unfold clampAndShift. destruct (Z.gtb_spec cur (n - 1)); simpl; lia. Qed.

End Wrap.

Lemma getDesktops_range stored : 1 ≤ settings.getDesktops stored ≤ 10.
Proof. unfold settings.getDesktops, settings.clampDefault_. destruct stored; lia. Qed.

Lemma numberToDesktopId_allowEmpty n this r :
  numberToDesktopId_ n this r false
  = Some (wrapDesktop n (snd (clampAndShift n (currentDesktop_ this) r))).
Proof.
  unfold numberToDesktopId_.
  destruct (clampAndShift n (currentDesktop_ this) r); reflexivity.
Qed.

(** C1: for every desktop count [n >= 1], every manager state (whatever its
    stored current desktop) and every integer request,
    [numberToDesktopId_(req, false)] returns an index in the range [0, n). *)
Theorem numberToDesktopId_in_range (n : Z) (this : VirtualDesktopManager) (req : Z) :
  1 ≤ n →
  ∃ r, numberToDesktopId_ n this req false = Some r ∧ 0 ≤ r < n.
Proof.
  intros Hn. rewrite numberToDesktopId_allowEmpty.
  eexists; split; [reflexivity|]. by apply wrapDesktop_range.
Qed.

Lemma numberToDesktopId_in_range_witness :
  1 ≤ 3 ∧ ∃ r, numberToDesktopId_ 3 (mkManager 7 ∅) (-5) false = Some r ∧ 0 ≤ r < 3.
Proof.
  split; [lia|]. apply (numberToDesktopId_in_range 3 (mkManager 7 ∅) (-5)). lia.
Defined.

(** The same with the count as the settings deliver it. *)
Lemma numberToDesktopId_in_range_settings stored this req :
  ∃ r, numberToDesktopId_ (settings.getDesktops stored) this req false = Some r
       ∧ 0 ≤ r < settings.getDesktops stored.
Proof.
  rewrite numberToDesktopId_allowEmpty. eexists; split; [reflexivity|].
  apply wrapDesktop_range. apply getDesktops_range.
Qed.

(** The table in the comment of [numberToDesktopId_]. *)
Example shrink_table ws :
  map (fun r => numberToDesktopId_ 3 (mkManager 4 ws) r false)
      [-1; 0; 1; 2; 3; 4; 5; 6; 7]
  = map Some [2; 0; 1; 2; 2; 2; 0; 1; 2].
Proof. reflexivity. Qed.

(** C2, as the spec states it, fails: with current desktop 4 and three
    desktops, request 5 is not normalized to 2. *)
Lemma shrink_remap_counterexample :
  ¬ (numberToDesktopId_ 3 (mkManager 4 ∅) 5 false = Some 2
     ∧ numberToDesktopId_ 3 (mkManager 4 ∅) 3 false = Some 2).
Proof. intros [H _]. vm_compute in H. discriminate H. Qed.

(** C2, amended: with current desktop 4 and three desktops, request 5 is
    shifted left by the clamping amount 2 to 3 and then wrapped, giving 0;
    request 3 collapses to 2.  For every request: one above the current
    desktop is shifted left by the clamping amount, otherwise one above
    [n - 1] collapses to [n - 1], and the result is wrapped. *)
Theorem shrink_remap (ws : gmap Z WindowState) :
  numberToDesktopId_ 3 (mkManager 4 ws) 5 false = Some 0
  ∧ numberToDesktopId_ 3 (mkManager 4 ws) 3 false = Some 2
  ∧ ∀ req,
      numberToDesktopId_ 3 (mkManager 4 ws) req false
      = Some (wrapDesktop 3 (if req >? 4 then req - (4 - (3 - 1))
                             else if req >? 3 - 1 then 3 - 1 else req)).
Proof.
  split; [reflexivity|]. split; [reflexivity|].
  intros req. rewrite numberToDesktopId_allowEmpty. reflexivity.
Qed.

(** ** Counting remembered windows *)

Lemma string_neqb_true a b : string_neqb a b = true ↔ a ≠ b.
Proof.
  unfold string_neqb. rewrite negb_true_iff, bool_decide_eq_false. tauto.
Qed.

Lemma hasWindows_lookup counts d :
  hasWindows counts d = true ↔ ∃ c, counts !! d = Some c ∧ (0 < c)%nat.
Proof.
  unfold hasWindows. destruct (counts !! d) as [c|]; split.
  - intros H%bool_decide_eq_true. eauto.
  - intros (c' & [= <-] & Hc). by apply bool_decide_eq_true.
  - discriminate.
  - intros (c' & [=] & _).
  Qed.

Lemma hasWindows_nonEmpty ws d :
  hasWindows (nWindowsOnDesktop ws) d = true ↔ nonEmptyDesktop ws d.
Proof.
  rewrite hasWindows_lookup. unfold nWindowsOnDesktop, nonEmptyDesktop.
  revert d.
  apply (map_fold_weak_ind
           (fun r m => ∀ d, (∃ c, r !! d = Some c ∧ (0 < c)%nat)
                            ↔ ∃ id s, m !! id = Some s
                                      ∧ state s ≠ MINIMIZED_STATE_ ∧ desktop s = d)).
  - intros d. split.
    + intros (c & Hc & _). by rewrite lookup_empty in Hc.
    + intros (id & s & Hs & _). by rewrite lookup_empty in Hs.
  - intros i s m r Hi IH d. unfold countWindow.
    destruct (string_neqb (state s) MINIMIZED_STATE_) eqn:Hvis.
    + apply string_neqb_true in Hvis.
      destruct (decide (desktop s = d)) as [<- | Hne].
      * split.
        -- intros _. exists i, s. by rewrite lookup_insert_eq.
        -- intros _. eexists. rewrite lookup_insert_eq. split; [done | lia].
      * rewrite lookup_insert_ne by done. rewrite IH. split.
        -- intros (id & s' & Hs' & ? & ?). exists id, s'.
           rewrite lookup_insert_ne; [done | congruence].
        -- intros (id & s' & Hs' & ? & ?).
           destruct (decide (i = id)) as [-> | Hid].
           ++ rewrite lookup_insert_eq in Hs'. congruence.
           ++ rewrite lookup_insert_ne in Hs' by done. eauto.
    + assert (state s = MINIMIZED_STATE_) as Hmin.
      { destruct (decide (state s = MINIMIZED_STATE_)) as [|Hn]; [done|].
        apply string_neqb_true in Hn. congruence. }
      rewrite IH. split.
      * intros (id & s' & Hs' & ? & ?). exists id, s'.
        rewrite lookup_insert_ne; [done | congruence].
      * intros (id & s' & Hs' & ? & ?).
        destruct (decide (i = id)) as [-> | Hid].
        -- rewrite lookup_insert_eq in Hs'. congruence.
        -- rewrite lookup_insert_ne in Hs' by done. eauto.
Qed.

Lemma hasWindows_empty ws d :
  hasWindows (nWindowsOnDesktop ws) d = false ↔ ¬ nonEmptyDesktop ws d.
Proof. rewrite <- hasWindows_nonEmpty. destruct (hasWindows _ _); naive_solver. Qed.

(** ** The loop that skips empty desktops *)

Section Loop.
Variables (n clamped direction : Z) (counts : gmap Z nat).

Lemma walk_succ_r r k :
  walk n direction (stepDesktop n direction r) k = walk n direction r (S k).
Proof. unfold walk. symmetry. apply Nat.iter_succ_r. Qed.

(** What the loop returns is the first desktop on its walk that holds a
    window, or the clamped current desktop if the walk reaches it first. *)
Lemma adjustLoop_sound fuel r res :
  adjustLoop fuel n clamped direction counts r = Some res →
  ∃ k, (k ≤ fuel)%nat
       ∧ res = walk n direction r k
       ∧ (∀ j, (j < k)%nat → hasWindows counts (walk n direction r j) = false)
       ∧ (∀ j, (0 < j < k)%nat → walk n direction r j ≠ clamped)
       ∧ (hasWindows counts res = true ∨ ((0 < k)%nat ∧ res = clamped)).
Proof.
  assert (Hstay : ∀ r, hasWindows counts r = true →
            ∃ k, (k ≤ 0)%nat
                 ∧ r = walk n direction r k
                 ∧ (∀ j, (j < k)%nat → hasWindows counts (walk n direction r j) = false)
                 ∧ (∀ j, (0 < j < k)%nat → walk n direction r j ≠ clamped)
                 ∧ (hasWindows counts r = true ∨ ((0 < k)%nat ∧ r = clamped))).
  { intros r' Hr'. exists 0%nat.
    split; [lia|]. split; [done|]. split; [intros; lia|].
    split; [intros; lia|]. by left. }
  revert r. induction fuel as [|fuel IH]; intros r; simpl;
    destruct (hasWindows counts r) eqn:Hr.
  - intros [= <-]. by apply Hstay.
  - discriminate.
  - intros [= <-]. destruct (Hstay r Hr) as (k & ? & ?). exists k.
    split; [lia | done].
  - destruct (Z.eqb_spec (stepDesktop n direction r) clamped) as [Heq | Hne].
    + intros [= <-]. exists 1%nat.
      split; [lia|]. split; [done|]. split; [|split].
      * intros j Hj. by replace j with 0%nat by lia.
      * intros j Hj. lia.
      * right. split; [lia | done].
    + intros (k & Hk & Hres & Hempty & Haway & Hend)%IH.
      exists (S k). split; [lia|]. split; [by rewrite <- walk_succ_r|].
      split; [|split].
      * intros [|j] Hj; [done|]. rewrite <- walk_succ_r. apply Hempty. lia.
      * intros [|[|j]] Hj; [lia | done |].
        rewrite <- walk_succ_r. apply Haway. lia.
      * destruct Hend as [|[? ?]]; [by left | right; split; [lia | done]].
Qed.

(** The loop is left as soon as the walk reaches the clamped current
    desktop, if not earlier. *)
Lemma adjustLoop_total fuel r :
  (∃ k, (0 < k ≤ fuel)%nat ∧ walk n direction r k = clamped) →
  is_Some (adjustLoop fuel n clamped direction counts r).
Proof.
  revert r. induction fuel as [|fuel IH]; intros r (k & Hk & Hwalk); simpl;
    destruct (hasWindows counts r); try done; try lia.
  destruct (Z.eqb_spec (stepDesktop n direction r) clamped) as [Heq | Hne];
    [done|].
  apply IH. destruct k as [|[|k]]; [lia | done |].
  exists (S k). split; [lia|]. by rewrite walk_succ_r.
Qed.

End Loop.

Section Cycle.
Variable n : Z.
Hypothesis n_pos : 1 ≤ n.
Variable direction : Z.
Hypothesis unit_step : direction = -1 ∨ direction = 1.

Lemma stepDesktop_mod r : 0 ≤ r < n → stepDesktop n direction r = (r + direction) mod n.
Proof using n_pos unit_step.
  intros Hr. unfold stepDesktop. rewrite Z.rem_mod_nonneg by lia.
  replace (r + direction + n) with (r + direction + 1 * n) by lia.
  apply Z_mod_plus_full.
Qed.

Lemma walk_mod r k :
  0 ≤ r < n → walk n direction r k = (r + Z.of_nat k * direction) mod n.
Proof using n_pos unit_step.
  intros Hr. induction k as [|k IH].
  - simpl. rewrite Z.add_0_r. symmetry. apply Z.mod_small. lia.
  - unfold walk in *. simpl Nat.iter. rewrite IH.
    rewrite stepDesktop_mod by (apply Z.mod_pos_bound; lia).
    rewrite Zplus_mod_idemp_l. f_equal. lia.
Qed.

Lemma walk_range r k : 0 ≤ r < n → 0 ≤ walk n direction r k < n.
Proof using n_pos unit_step.
  intros. rewrite walk_mod by done. apply Z.mod_pos_bound. lia.
Qed.

(** Every desktop is reached within [n] passes. *)
Lemma walk_reaches r c :
  0 ≤ r < n → 0 ≤ c < n →
  ∃ k, (0 < k ≤ Z.to_nat n)%nat ∧ walk n direction r k = c.
Proof using n_pos unit_step.
  intros Hr Hc.
  set (k := (direction * (c - r) - 1) mod n + 1).
  assert (Hk : 1 ≤ k ≤ n).
  { pose proof (Z.mod_pos_bound (direction * (c - r) - 1) n ltac:(lia)). lia. }
  exists (Z.to_nat k). split; [lia|].
  rewrite walk_mod by done. rewrite Z2Nat.id by lia.
  transitivity (c mod n); [|apply Z.mod_small; lia].
  pose proof (Z.div_mod (direction * (c - r) - 1) n ltac:(lia)) as Hdm.
  set (q := (direction * (c - r) - 1) / n) in *.
  replace (r + k * direction) with (c + (- q * direction) * n).
  { apply Z_mod_plus_full. }
  subst k. destruct unit_step as [-> | ->]; lia.
Qed.

(** ... and not before [n] passes does the walk return to its start. *)
Lemma walk_returns_late r (k : nat) :
  0 ≤ r < n → (0 < k)%nat → Z.of_nat k < n → walk n direction r k ≠ r.
Proof using n_pos unit_step.
  intros Hr Hk Hkn. rewrite walk_mod by done. intros Heq.
  destruct unit_step as [-> | ->].
  - destruct (Z_lt_le_dec (r + Z.of_nat k * -1) 0) as [Hneg | Hpos].
    + replace (r + Z.of_nat k * -1)
        with ((r - Z.of_nat k + n) + (-1) * n) in Heq by lia.
      rewrite Z_mod_plus_full, Z.mod_small in Heq; lia.
    + rewrite Z.mod_small in Heq; lia.
  - destruct (Z_lt_le_dec (r + Z.of_nat k * 1) n) as [Hlt | Hge].
    + rewrite Z.mod_small in Heq; lia.
    + replace (r + Z.of_nat k * 1)
        with ((r + Z.of_nat k - n) + 1 * n) in Heq by lia.
      rewrite Z_mod_plus_full, Z.mod_small in Heq; lia.
Qed.

(** Every desktop lies on the first [n] positions of the walk. *)
Lemma walk_covers r d :
  0 ≤ r < n → 0 ≤ d < n →
  ∃ j, (j < Z.to_nat n)%nat ∧ walk n direction r j = d.
Proof using n_pos unit_step.
  intros Hr Hd.
  set (j := (direction * (d - r)) mod n).
  assert (Hj : 0 ≤ j < n) by (apply Z.mod_pos_bound; lia).
  exists (Z.to_nat j). split; [lia|].
  rewrite walk_mod by done. rewrite Z2Nat.id by lia.
  transitivity (d mod n); [|apply Z.mod_small; lia].
  pose proof (Z.div_mod (direction * (d - r)) n ltac:(lia)) as Hdm.
  set (q := (direction * (d - r)) / n) in *.
  replace (r + j * direction) with (d + (- q * direction) * n).
  { apply Z_mod_plus_full. }
  subst j. destruct unit_step as [-> | ->]; lia.
Qed.

End Cycle.

Lemma directionSign_unit d : directionSign d = -1 ∨ directionSign d = 1.
Proof. unfold directionSign. destruct (d <=? 0); auto. Qed.

Lemma mapDirection_range n d : 1 ≤ n → - n ≤ 2 * mapDirection n d < n.
Proof.
  intros Hn. unfold mapDirection, roundDiv.
  pose proof (Z.div_mod (2 * d + n) (2 * n) ltac:(lia)) as Hdm.
  pose proof (Z.mod_pos_bound (2 * d + n) (2 * n) ltac:(lia)) as Hb.
  nia.
Qed.

Lemma mapDirection_congruent n d : 1 ≤ n → (mapDirection n d - d) mod n = 0.
Proof.
  intros Hn. unfold mapDirection.
  replace (d - n * roundDiv d n - d) with (- roundDiv d n * n) by lia.
  apply Z_mod_mult.
Qed.

(** ** numberToDesktopId_ with the empty-desktop rule *)

Section DisallowEmpty.
Variable n : Z.
Hypothesis n_pos : 1 ≤ n.
Variable this : VirtualDesktopManager.
Hypothesis current_nonneg : 0 ≤ currentDesktop_ this.

Let clampedOf : Z := Z.min (currentDesktop_ this) (n - 1).
Let wrappedOf (req : Z) : Z :=
  wrapDesktop n (snd (clampAndShift n (currentDesktop_ this) req)).
Let directionOf (req : Z) : Z :=
  directionSign (mapDirection n (wrappedOf req - clampedOf)).

Lemma numberToDesktopId_loop req :
  numberToDesktopId_ n this req true
  = adjustLoop (Z.to_nat n) n clampedOf (directionOf req)
      (nWindowsOnDesktop (windowStates_ this)) (wrappedOf req).
Proof using Type.
  unfold numberToDesktopId_, directionOf, wrappedOf, clampedOf.
  rewrite <- (clampAndShift_clamped n (currentDesktop_ this) req).
  by destruct (clampAndShift n (currentDesktop_ this) req).
Qed.

Lemma numberToDesktopId_total req :
  is_Some (numberToDesktopId_ n this req true).
Proof using n_pos current_nonneg.
  rewrite numberToDesktopId_loop. apply adjustLoop_total.
  apply walk_reaches; [done | apply directionSign_unit | |].
  - by apply wrapDesktop_range.
  - unfold clampedOf. lia.
Qed.

Lemma numberToDesktopId_walk req r :
  numberToDesktopId_ n this req true = Some r →
  ∃ k : nat,
    (k ≤ Z.to_nat n)%nat
    ∧ r = (wrappedOf req + Z.of_nat k * directionOf req) mod n
    ∧ (∀ j : nat, (j < k)%nat →
         ¬ nonEmptyDesktop (windowStates_ this)
             ((wrappedOf req + Z.of_nat j * directionOf req) mod n))
    ∧ (∀ j : nat, (0 < j < k)%nat →
         (wrappedOf req + Z.of_nat j * directionOf req) mod n ≠ clampedOf)
    ∧ (nonEmptyDesktop (windowStates_ this) r ∨ ((0 < k)%nat ∧ r = clampedOf)).
Proof using n_pos.
  rewrite numberToDesktopId_loop.
  intros (k & Hk & Hres & Hempty & Haway & Hend)%adjustLoop_sound.
  assert (Hw : 0 ≤ wrappedOf req < n) by by apply wrapDesktop_range.
  assert (Hu := directionSign_unit (mapDirection n (wrappedOf req - clampedOf))).
  exists k. split; [done|]. split; [|split; [|split]].
  - rewrite Hres. by apply walk_mod.
  - intros j Hj. rewrite <- (walk_mod n n_pos _ Hu) by done.
    apply hasWindows_empty. by apply Hempty.
  - intros j Hj. rewrite <- (walk_mod n n_pos _ Hu) by done. by apply Haway.
  - destruct Hend as [Hhas | Hback]; [left | by right].
    by apply hasWindows_nonEmpty.
Qed.

Lemma numberToDesktopId_range req r :
  numberToDesktopId_ n this req true = Some r → 0 ≤ r < n.
Proof using n_pos.
  intros (k & _ & -> & _)%numberToDesktopId_walk. apply Z.mod_pos_bound. lia.
Qed.

(** Asking for the clamped current desktop itself: the walk goes backwards
    once around, so the result holds a window whenever any desktop does. *)
Lemma numberToDesktopId_stay r :
  numberToDesktopId_ n this clampedOf true = Some r →
  (nonEmptyDesktop (windowStates_ this) r
   ∨ (r = clampedOf
      ∧ ∀ d, 0 ≤ d < n → ¬ nonEmptyDesktop (windowStates_ this) d)).
Proof using n_pos current_nonneg.
  intros Hr.
  assert (Hc : 0 ≤ clampedOf < n) by (unfold clampedOf; lia).
  assert (Hwrap : wrappedOf clampedOf = clampedOf).
  { unfold wrappedOf, clampAndShift, clampedOf.
    destruct (Z.gtb_spec (currentDesktop_ this) (n - 1)); simpl.
    - rewrite Z.min_r by lia.
      destruct (Z.gtb_spec (n - 1) (currentDesktop_ this)); [lia|].
      destruct (Z.gtb_spec (n - 1) (n - 1)); [lia|].
      apply wrapDesktop_id; lia.
    - rewrite Z.min_l by lia. apply wrapDesktop_id; lia. }
  rewrite numberToDesktopId_loop in Hr. rewrite Hwrap in Hr.
  set (dir := directionOf clampedOf) in *.
  assert (Hu : dir = -1 ∨ dir = 1) by apply directionSign_unit.
  apply adjustLoop_sound in Hr as (k & Hk & Hres & Hempty & Haway & Hend).
  destruct Hend as [Hhas | [Hpos Hback]]; [left; by apply hasWindows_nonEmpty|].
  right. split; [done|]. intros d Hd.
  destruct (Z_lt_le_dec (Z.of_nat k) n) as [Hshort | Hfull].
  { exfalso. apply (walk_returns_late n n_pos dir Hu clampedOf k); try done.
    congruence. }
  destruct (walk_covers n n_pos dir Hu clampedOf d Hc Hd) as (j & Hj & <-).
  apply hasWindows_empty, Hempty. lia.
Qed.

End DisallowEmpty.

(** The loop never gets more passes than it can use: if [n] passes do not
    end it, no number of passes does. *)
Lemma adjustLoop_none fuel n clamped direction counts r :
  adjustLoop fuel n clamped direction counts r = None ↔
  (∀ j, (j ≤ fuel)%nat → hasWindows counts (walk n direction r j) = false)
  ∧ (∀ j, (0 < j ≤ fuel)%nat → walk n direction r j ≠ clamped).
Proof.
  revert r. induction fuel as [|fuel IH]; intros r; simpl.
  - destruct (hasWindows counts r) eqn:Hr; split.
    + discriminate.
    + intros [H _]. specialize (H 0%nat ltac:(lia)). simpl in H. congruence.
    + intros _. split; [|intros; lia].
      intros j Hj. by replace j with 0%nat by lia.
    + done.
  - destruct (hasWindows counts r) eqn:Hr.
    { split; [discriminate|].
      intros [H _]. specialize (H 0%nat ltac:(lia)). simpl in H. congruence. }
    destruct (Z.eqb_spec (stepDesktop n direction r) clamped) as [Heq | Hne].
    { split; [discriminate|].
      intros [_ H]. by specialize (H 1%nat ltac:(lia)). }
    rewrite IH. split.
    + intros [Hempty Haway]. split.
      * intros [|j] Hj; [done|]. rewrite <- walk_succ_r. apply Hempty. lia.
      * intros [|[|j]] Hj; [lia | done |].
        rewrite <- walk_succ_r. apply Haway. lia.
    + intros [Hempty Haway]. split.
      * intros j Hj. rewrite walk_succ_r. apply Hempty. lia.
      * intros j Hj. rewrite walk_succ_r. apply Haway. lia.
Qed.

Lemma adjustLoop_fuel_adequate n clamped direction counts r :
  1 ≤ n → direction = -1 ∨ direction = 1 → 0 ≤ r < n →
  adjustLoop (Z.to_nat n) n clamped direction counts r = None →
  ∀ fuel, adjustLoop fuel n clamped direction counts r = None.
Proof.
  intros Hn Hu Hr [Hempty Haway]%adjustLoop_none fuel.
  apply adjustLoop_none. split.
  - intros j _.
    destruct (walk_covers n Hn direction Hu r (walk n direction r j) Hr)
      as (j' & Hj' & <-); [by apply walk_range|].
    apply Hempty. lia.
  - intros j _.
    destruct (walk_reaches n Hn direction Hu r (walk n direction r j) Hr)
      as (j' & Hj' & <-); [by apply walk_range|].
    apply Haway. lia.
Qed.

(** C3, as the spec states it, fails where the wrapped request lies exactly
    half way round: with four desktops, current desktop 0 and request 2 the
    difference 2 is mapped to -2, outside (-N/2, N/2], the walk goes
    backwards to desktop 1, and the rule as the spec words it would go
    forwards to desktop 3. *)
Lemma direction_rule_counterexample :
  ¬ (- 4 < 2 * mapDirection 4 (2 - 0) ≤ 4)
  ∧ numberToDesktopId_ 4 halfwayManager 2 true = Some 1
  ∧ spec_normalizeDesktopIndex 4 halfwayManager 2 true = Some 3
  ∧ numberToDesktopId_ 4 halfwayManager 2 true
    ≠ spec_normalizeDesktopIndex 4 halfwayManager 2 true.
Proof.
  split; [vm_compute; intros [H _]; discriminate H|].
  split; [by vm_compute|]. split; [by vm_compute|].
  vm_compute. discriminate.
Qed.

(** C3, amended: for [numberToDesktopId_(req, true)] with [n >= 1] desktops
    and a current desktop that is not negative, the difference between the
    wrapped request and the clamped current desktop is mapped into
    [-n/2, n/2) (so a request exactly half way round counts as backward);
    the direction is -1 if the mapped difference is at most 0 and +1
    otherwise; the call returns the desktop [k] steps from the wrapped
    request in that direction, wrapping, where no desktop passed on the way
    holds a remembered non-minimized window, none of them after the first
    step is the clamped current desktop, and the result holds such a window
    or is the clamped current desktop reached by a step.  In particular,
    with at least three desktops, current desktop 0, windows on desktops 0
    and 2 and none on desktop 1, requesting desktop 1 yields desktop 2. *)
Theorem numberToDesktopId_skips_empty (n : Z) (this : VirtualDesktopManager) (req : Z) :
  1 ≤ n → 0 ≤ currentDesktop_ this →
  let ws := windowStates_ this in
  let clamped := Z.min (currentDesktop_ this) (n - 1) in
  let wrapped := wrapDesktop n (snd (clampAndShift n (currentDesktop_ this) req)) in
  let difference := mapDirection n (wrapped - clamped) in
  let direction := if difference <=? 0 then -1 else 1 in
  (- n ≤ 2 * difference < n ∧ (difference - (wrapped - clamped)) mod n = 0)
  ∧ (∃ (k : nat) (r : Z),
        numberToDesktopId_ n this req true = Some r
        ∧ (k ≤ Z.to_nat n)%nat
        ∧ r = (wrapped + Z.of_nat k * direction) mod n
        ∧ (∀ j : nat, (j < k)%nat →
             ¬ nonEmptyDesktop ws ((wrapped + Z.of_nat j * direction) mod n))
        ∧ (∀ j : nat, (0 < j < k)%nat →
             (wrapped + Z.of_nat j * direction) mod n ≠ clamped)
        ∧ (nonEmptyDesktop ws r ∨ ((0 < k)%nat ∧ r = clamped)))
  ∧ (3 ≤ n → currentDesktop_ this = 0 → req = 1 →
     nonEmptyDesktop ws 0 → ¬ nonEmptyDesktop ws 1 → nonEmptyDesktop ws 2 →
     numberToDesktopId_ n this req true = Some 2).
Proof.
  intros Hn Hcur ws clamped wrapped difference direction.
  split; [|split].
  - split; [by apply mapDirection_range | by apply mapDirection_congruent].
  - destruct (numberToDesktopId_total n Hn this Hcur req) as [r Hr].
    destruct (numberToDesktopId_walk n Hn this req r Hr) as (k & Hk).
    exists k, r. split; [done|]. exact Hk.
  - intros Hn3 Hzero -> _ Hone Htwo.
    rewrite numberToDesktopId_loop. rewrite Hzero.
    assert (Hshift : clampAndShift n 0 1 = (0, 1)).
    { unfold clampAndShift. destruct (Z.gtb_spec 0 (n - 1)); [lia | done]. }
    rewrite Hshift. simpl snd.
    rewrite (wrapDesktop_id n Hn 1) by lia. rewrite Z.min_l by lia.
    assert (Hdir : directionSign (mapDirection n (1 - 0)) = 1).
    { unfold mapDirection, roundDiv. simpl.
      rewrite Z.div_small by lia. by rewrite Z.mul_0_r. }
    rewrite Hdir.
    destruct (Z.to_nat n) as [|fuel] eqn:Hfuel; [lia|]. simpl.
    apply hasWindows_empty in Hone. apply hasWindows_nonEmpty in Htwo.
    fold ws. rewrite Hone.
    assert (Hstep : stepDesktop n 1 1 = 2).
    { rewrite stepDesktop_mod; [|lia|by right|lia]. apply Z.mod_small. lia. }
    rewrite Hstep. simpl. destruct fuel; simpl; by rewrite Htwo.
Qed.

Lemma numberToDesktopId_skips_empty_witness :
  1 ≤ 3 ∧ 0 ≤ currentDesktop_ gapManager
  ∧ numberToDesktopId_ 3 gapManager 1 true = Some 2.
Proof.
  split; [lia|]. split; [by vm_compute|].
  apply (numberToDesktopId_skips_empty 3 gapManager 1);
    [lia | by vm_compute | lia | done | done | | |].
  - exists 7, (normalOn 0). by vm_compute.
  - intros (id & s & Hs & _ & Hd). unfold gapManager in Hs. simpl in Hs.
    destruct (decide (id = 7)) as [-> | H7].
    { rewrite lookup_insert_eq in Hs. by injection Hs as <-. }
    rewrite lookup_insert_ne in Hs by done.
    destruct (decide (id = 9)) as [-> | H9].
    { rewrite lookup_insert_eq in Hs. by injection Hs as <-. }
    rewrite lookup_insert_ne in Hs by done. by rewrite lookup_empty in Hs.
  - exists 9, (normalOn 2). by vm_compute.
Defined.

(** ** updateWindowStates_ *)

Lemma refreshWindow_insert cur old acc win :
  ∃ s, refreshWindow cur old acc win = <[cw_id win := s]> acc.
Proof.
  unfold refreshWindow. destruct (old !! cw_id win) as [s|]; [|eauto].
  destruct (_ || _); eauto.
Qed.

Lemma refreshWindows_lookup cur old windows acc id :
  is_Some (fold_left (refreshWindow cur old) windows acc !! id)
  ↔ is_Some (acc !! id) ∨ id ∈ cw_id <$> windows.
Proof.
  revert acc. induction windows as [|win windows IH]; intros acc; simpl.
  - rewrite elem_of_nil. tauto.
  - rewrite IH, elem_of_cons.
    destruct (refreshWindow_insert cur old acc win) as [s ->].
    destruct (decide (id = cw_id win)) as [-> | Hne].
    + rewrite lookup_insert_eq. split; [intros _ | intros _; left]; eauto.
    + rewrite lookup_insert_ne by done. tauto.
Qed.

Lemma updateWindowStates_known this windows (id : Z) :
  is_Some (windowStates_ (updateWindowStates_ this windows) !! id)
  ↔ id ∈ cw_id <$> windows.
Proof.
  simpl. rewrite refreshWindows_lookup, lookup_empty.
  split; [intros [[? [=]] | ?]; done | by right].
Qed.

(** C9: after [updateWindowStates_] the remembered states are keyed by
    exactly the ids of the windows in the freshly queried list: every live
    window id has one [WindowState], and an id that is not in the list has
    none. *)
Theorem updateWindowStates_domain (this : VirtualDesktopManager)
    (windows : list ChromeWindow) :
  dom (windowStates_ (updateWindowStates_ this windows))
  = list_to_set (cw_id <$> windows)
  ∧ ∀ id : Z,
      (id ∈ cw_id <$> windows →
         ∃ s, windowStates_ (updateWindowStates_ this windows) !! id = Some s
              ∧ ∀ s', windowStates_ (updateWindowStates_ this windows) !! id
                      = Some s' → s' = s)
      ∧ (id ∉ cw_id <$> windows →
         windowStates_ (updateWindowStates_ this windows) !! id = None).
Proof.
  pose proof (updateWindowStates_known this windows) as Hdom.
  split.
  - apply set_eq. intros id. rewrite elem_of_dom, elem_of_list_to_set. apply Hdom.
  - intros id. split.
    + intros [s Hs]%Hdom. exists s. split; [done | congruence].
    + intros Hnot. apply eq_None_not_Some. by rewrite Hdom.
Qed.

(** What the refresh remembers for a live window. *)
Lemma refreshWindows_last cur old windows acc win :
  NoDup (cw_id <$> windows) → win ∈ windows →
  fold_left (refreshWindow cur old) windows acc !! cw_id win
  = refreshWindow cur old ∅ win !! cw_id win.
Proof.
  revert acc. induction windows as [|w0 windows IH]; intros acc Hnd Hin; simpl.
  - by apply elem_of_nil in Hin.
  - rewrite fmap_cons in Hnd. apply NoDup_cons in Hnd as [Hfresh Hnd].
    apply elem_of_cons in Hin as [-> | Hin]; [|by apply IH].
    assert (Hkeep : ∀ ws acc',
              cw_id w0 ∉ cw_id <$> ws →
              fold_left (refreshWindow cur old) ws acc' !! cw_id w0
              = acc' !! cw_id w0).
    { clear. induction ws as [|w1 ws IHws]; intros acc' Hnot; simpl; [done|].
      rewrite fmap_cons in Hnot. apply not_elem_of_cons in Hnot as [Hne Hnot].
      rewrite IHws by done.
      destruct (refreshWindow_insert cur old acc' w1) as [s ->].
      by rewrite lookup_insert_ne. }
    rewrite Hkeep by done.
    destruct (refreshWindow_insert cur old acc w0) as [s Hs].
    unfold refreshWindow in *.
    destruct (old !! cw_id w0) as [s0|]; [destruct (_ || _)|];
      by rewrite !lookup_insert_eq.
Qed.

(** ** switchToDesktop *)

Lemma forEachWindow_total body windows :
  (∀ win, win ∈ windows → is_Some (body win)) →
  is_Some (forEachWindow body windows).
Proof.
  induction windows as [|win windows IH]; intros Hbody; simpl; [done|].
  destruct (Hbody win) as [evs ->]; [by left|]. simpl.
  destruct IH as [more ->]; [|done].
  intros w0 Hw0. apply Hbody. by right.
Qed.

Lemma sendWindow_lookup ws focusedWinId target id :
  is_Some (sendWindow ws focusedWinId target !! id) ↔ is_Some (ws !! id).
Proof.
  unfold sendWindow. destruct focusedWinId as [z| |]; simpl; try done.
  destruct (ws !! z) as [s|] eqn:Hz; [|done].
  destruct (decide (z = id)) as [<- | Hne].
  - rewrite lookup_insert_eq, Hz. split; eauto.
  - by rewrite lookup_insert_ne.
Qed.

Lemma applyWindowStates_total this windows focusedWinId :
  (∀ win, win ∈ windows → is_Some (windowStates_ this !! cw_id win)) →
  is_Some (applyWindowStates_ this windows focusedWinId).
Proof.
  intros Hknown. unfold applyWindowStates_.
  destruct (forEachWindow_total (restoreState this) windows) as [p1 ->].
  { intros win [s Hs]%Hknown. unfold restoreState. rewrite Hs. simpl.
    destruct (_ =? _); [done|]. by destruct (bool_decide _). }
  destruct (forEachWindow_total (restoreBounds this focusedWinId) windows)
    as [p2 ->]; [|done].
  intros win [s Hs]%Hknown. unfold restoreBounds. rewrite Hs. simpl.
  by destruct (_ && _).
Qed.

Lemma switchToDesktop_unfold cfg this windows target focusedWinId sendToDesktop :
  1 ≤ desktops cfg → 0 ≤ currentDesktop_ this →
  let ws := switchedStates cfg this windows target focusedWinId sendToDesktop in
  let wrapped := wrapDesktop (desktops cfg)
                   (snd (clampAndShift (desktops cfg) (currentDesktop_ this) target)) in
  ∃ newDesktop evs,
    numberToDesktopId_ (desktops cfg) (mkManager (currentDesktop_ this) ws)
      wrapped (DISALLOW_EMPTY_DESKTOPS cfg) = Some newDesktop
    ∧ switchToDesktop cfg this windows target focusedWinId sendToDesktop
      = Some (mkManager newDesktop ws, evs)
    ∧ (newDesktop = currentDesktop_ this →
       evs = [GetAll; OnChange newDesktop; SaveState newDesktop ws; Callback])
    ∧ (newDesktop ≠ currentDesktop_ this →
       ∃ applied,
         applyWindowStates_ (mkManager newDesktop ws) windows focusedWinId
         = Some applied
         ∧ evs = [GetAll; OnChange newDesktop; SaveState newDesktop ws] ++ applied).
Proof.
  intros Hn Hcur ws wrapped. unfold switchToDesktop.
  rewrite numberToDesktopId_allowEmpty. simpl.
  set (this1 := if sendToDesktop then _ else _).
  assert (Hthis1 : this1 = mkManager (currentDesktop_ this) ws).
  { subst this1 ws. unfold switchedStates. by destruct sendToDesktop. }
  rewrite Hthis1. simpl. fold wrapped.
  assert (Hsome : is_Some (numberToDesktopId_ (desktops cfg)
                    (mkManager (currentDesktop_ this) ws) wrapped
                    (DISALLOW_EMPTY_DESKTOPS cfg))).
  { destruct (DISALLOW_EMPTY_DESKTOPS cfg).
    - by apply numberToDesktopId_total.
    - rewrite numberToDesktopId_allowEmpty. eauto. }
  destruct Hsome as [newDesktop Hnew]. rewrite Hnew. simpl.
  destruct (Z.eqb_spec newDesktop (currentDesktop_ this)) as [Heq | Hne]; simpl.
  - eexists _, _. split; [done|]. split; [done|]. split; [done|]. done.
  - destruct (applyWindowStates_total (mkManager newDesktop ws) windows
                focusedWinId) as [applied Happ].
    { intros win Hwin. simpl. subst ws. unfold switchedStates.
      assert (is_Some (windowStates_ (updateWindowStates_ this windows)
                         !! cw_id win)) as Hknown.
      { apply updateWindowStates_known, list_elem_of_fmap. eauto. }
      destruct sendToDesktop; [by apply sendWindow_lookup | done]. }
    rewrite Happ. simpl.
    eexists _, _. split; [done|]. split; [done|]. split; [done|].
    intros _. eauto.
Qed.

(** C6: a call of [switchToDesktop] (with at least one desktop and a current
    desktop that is not negative) returns, and when the new current desktop
    equals the previous one it issues no [update] on any window and invokes
    its callback exactly once: all it does is notify, save and call back. *)
Theorem switchToDesktop_same_desktop (cfg : Config) (this : VirtualDesktopManager)
    (windows : list ChromeWindow) (target : Z) (focusedWinId : JsValue)
    (sendToDesktop : bool) :
  1 ≤ desktops cfg → 0 ≤ currentDesktop_ this →
  ∃ this' evs,
    switchToDesktop cfg this windows target focusedWinId sendToDesktop
    = Some (this', evs)
    ∧ (currentDesktop_ this' = currentDesktop_ this →
       List.filter isUpdate evs = []
       ∧ length (List.filter isCallback evs) = 1%nat
       ∧ evs = [GetAll; OnChange (currentDesktop_ this');
                SaveState (currentDesktop_ this') (windowStates_ this');
                Callback]).
Proof.
  intros Hn Hcur.
  destruct (switchToDesktop_unfold cfg this windows target focusedWinId
              sendToDesktop Hn Hcur) as (newDesktop & evs & _ & Hrun & Hsame & _).
  eexists _, _. split; [exact Hrun|]. simpl. intros Heq.
  rewrite (Hsame Heq). done.
Qed.

Lemma switchToDesktop_same_desktop_witness :
  1 ≤ desktops (mkConfig 4 true) ∧ 0 ≤ currentDesktop_ gapManager
  ∧ ∃ this' evs,
      switchToDesktop (mkConfig 4 true) gapManager
        [liveWindow 7 "normal"; liveWindow 9 "minimized"] 4 (JsNumber 7) false
      = Some (this', evs)
      ∧ currentDesktop_ this' = currentDesktop_ gapManager
      ∧ List.filter isUpdate evs = []
      ∧ length (List.filter isCallback evs) = 1%nat.
Proof.
  split; [simpl; lia|]. split; [simpl; lia|].
  destruct (switchToDesktop_same_desktop (mkConfig 4 true) gapManager
              [liveWindow 7 "normal"; liveWindow 9 "minimized"] 4 (JsNumber 7)
              false ltac:(simpl; lia) ltac:(simpl; lia))
    as (this' & evs & Hrun & Hsame).
  exists this', evs. split; [exact Hrun|].
  assert (Hcur : currentDesktop_ this' = currentDesktop_ gapManager).
  { vm_compute in Hrun. injection Hrun as <- _. reflexivity. }
  split; [exact Hcur|].
  destruct (Hsame Hcur) as (Hnone & Hone & _). split; [exact Hnone | exact Hone].
Defined.

(** ** forgetWindow *)

Lemma selfRequest_clamped n cur :
  1 ≤ n → 0 ≤ cur →
  wrapDesktop n (snd (clampAndShift n cur cur)) = Z.min cur (n - 1).
Proof.
  intros Hn Hcur. unfold clampAndShift.
  destruct (Z.gtb_spec cur (n - 1)); simpl.
  - destruct (Z.gtb_spec cur cur); [lia|].
    destruct (Z.gtb_spec cur (n - 1)); [|lia].
    rewrite wrapDesktop_id; lia.
  - rewrite wrapDesktop_id; lia.
Qed.

(** C8, as the spec states it, fails when the forgotten window was the last
    one anywhere: the current desktop is kept although it is empty. *)
Lemma forgetWindow_counterexample :
  ∃ this' evs,
    forgetWindow (mkConfig 4 true) lastWindowManager 1 None [] = Some (this', evs)
    ∧ currentDesktop_ this' = currentDesktop_ lastWindowManager
    ∧ List.filter isUpdate evs = []
    ∧ ¬ nonEmptyDesktop (windowStates_ this') (currentDesktop_ this').
Proof.
  eexists _, _. split; [by vm_compute|]. split; [done|]. split; [done|].
  simpl. intros (id & s & Hs & _). vm_compute in Hs. discriminate Hs.
Qed.

(** C8, amended: [forgetWindow(id, callback)] deletes the state of [id] and
    saves; with the empty-desktop policy off it then calls [callback]; with
    the policy on it asks for the last focused window and continues as
    [switchToDesktop(currentDesktop_, ., false, callback)], after which the
    current desktop is a valid index that holds a remembered non-minimized
    window if any desktop in range holds one after the refresh, and is the
    clamped previous desktop if none does; whenever the current desktop is
    the previous one, no window is updated and the callback is called
    once. *)
Theorem forgetWindow_switches (cfg : Config) (this : VirtualDesktopManager)
    (winId : Z) (lastFocused : option ChromeWindow)
    (windows : list ChromeWindow) :
  1 ≤ desktops cfg → 0 ≤ currentDesktop_ this →
  let n := desktops cfg in
  let forgotten :=
    mkManager (currentDesktop_ this) (delete winId (windowStates_ this)) in
  let saved :=
    SaveState (currentDesktop_ this) (delete winId (windowStates_ this)) in
  (DISALLOW_EMPTY_DESKTOPS cfg = false →
   forgetWindow cfg this winId lastFocused windows
   = Some (forgotten, [saved; Callback]))
  ∧ (DISALLOW_EMPTY_DESKTOPS cfg = true →
     ∃ this' evs focusedWinId,
       switchToDesktop cfg forgotten windows (currentDesktop_ this)
         focusedWinId false = Some (this', evs)
       ∧ forgetWindow cfg this winId lastFocused windows
         = Some (this', saved :: GetLastFocused :: evs)
       ∧ 0 ≤ currentDesktop_ this' < n
       ∧ ((∃ d, 0 ≤ d < n ∧ nonEmptyDesktop (windowStates_ this') d) →
          nonEmptyDesktop (windowStates_ this') (currentDesktop_ this'))
       ∧ ((∀ d, 0 ≤ d < n → ¬ nonEmptyDesktop (windowStates_ this') d) →
          currentDesktop_ this' = Z.min (currentDesktop_ this) (n - 1))
       ∧ (currentDesktop_ this' = currentDesktop_ this →
          evs = [GetAll; OnChange (currentDesktop_ this');
                 SaveState (currentDesktop_ this') (windowStates_ this');
                 Callback]
          ∧ List.filter isUpdate (saved :: GetLastFocused :: evs) = []
          ∧ length (List.filter isCallback (saved :: GetLastFocused :: evs))
            = 1%nat)).
Proof.
  intros Hn Hcur n forgotten saved. split.
  - intros Hoff. unfold forgetWindow. by rewrite Hoff.
  - intros Hon. unfold forgetWindow. rewrite Hon.
    set (win := match lastFocused with Some cw => JsWindow cw | None => JsNull end).
    cbn [currentDesktop_ windowStates_]. fold forgotten saved.
    destruct (switchToDesktop_unfold cfg forgotten windows
                (currentDesktop_ this) win false Hn Hcur)
      as (newDesktop & evs & Hnew & Hrun & Hsame & _).
    simpl in Hnew, Hrun, Hsame. rewrite Hon in Hnew.
    rewrite (selfRequest_clamped _ _ Hn Hcur) in Hnew.
    exists (mkManager newDesktop
              (switchedStates cfg forgotten windows (currentDesktop_ this) win false)),
           evs, win.
    split; [exact Hrun|]. split; [by rewrite Hrun|]. simpl.
    split; [by eapply numberToDesktopId_range|].
    assert (Hquiet : newDesktop = currentDesktop_ this →
              evs = [GetAll; OnChange newDesktop;
                     SaveState newDesktop
                       (switchedStates cfg forgotten windows
                          (currentDesktop_ this) win false);
                     Callback]
              ∧ List.filter isUpdate (saved :: GetLastFocused :: evs) = []
              ∧ length (List.filter isCallback (saved :: GetLastFocused :: evs))
                = 1%nat).
    { intros Heq. rewrite (Hsame Heq). done. }
    destruct (numberToDesktopId_stay (desktops cfg) Hn
                (mkManager (currentDesktop_ this)
                   (switchedStates cfg forgotten windows (currentDesktop_ this)
                      win false)) Hcur _ Hnew)
      as [Hfull | [Hkept Hnone]]; simpl in *.
    + split; [done|]. split; [|done]. intros Hnone. exfalso.
      apply (Hnone newDesktop); [by eapply numberToDesktopId_range | done].
    + split; [|done]. intros (d & Hd & Hfull). by destruct (Hnone d Hd).
Qed.

Lemma forgetWindow_switches_witness :
  1 ≤ desktops (mkConfig 4 true) ∧ 0 ≤ currentDesktop_ gapManager
  ∧ ∃ this' evs,
      forgetWindow (mkConfig 4 true) gapManager 7 None [liveWindow 9 "minimized"]
      = Some (this', evs)
      ∧ 0 ≤ currentDesktop_ this' < 4
      ∧ nonEmptyDesktop (windowStates_ this') (currentDesktop_ this').
Proof.
  split; [simpl; lia|]. split; [simpl; lia|].
  destruct (forgetWindow_switches (mkConfig 4 true) gapManager 7 None
              [liveWindow 9 "minimized"] ltac:(simpl; lia) ltac:(simpl; lia))
    as [_ Hon].
  destruct (Hon eq_refl) as (this' & evs & _ & _ & Hrun & Hrange & Hfull & _).
  exists this', (SaveState (currentDesktop_ gapManager)
                   (delete 7 (windowStates_ gapManager))
                 :: GetLastFocused :: evs).
  split; [exact Hrun|]. split; [exact Hrange|].
  apply Hfull. exists 2. split; [simpl; lia|].
  exists 9, (normalOn 2).
  assert (Hstates : windowStates_ this' !! 9 = Some (normalOn 2)).
  { vm_compute in Hrun. injection Hrun as <- _. reflexivity. }
  split; [exact Hstates|]. split; [discriminate | reflexivity].
Defined.

(** ** WindowProvider.update *)

Section Reconcile.
Import WindowProvider.
Variables (winId : Z) (updateInfo : ChromeWindowUpdateInfo).
Variable reads : nat → option ChromeWindow.

Lemma fixUpdateInfo_distance win :
  distance (fixUpdateInfo win updateInfo)
  = from_option Z.abs 0
      (requestedOffset (ui_left updateInfo) (ui_width updateInfo)
         (cw_left win) (cw_width win))
    + from_option Z.abs 0
        (requestedOffset (ui_top updateInfo) (ui_height updateInfo)
           (cw_top win) (cw_height win)).
Proof using Type.
  unfold fixUpdateInfo, requestedOffset.
  destruct (ui_width updateInfo), (ui_left updateInfo),
    (ui_height updateInfo), (ui_top updateInfo); simpl; lia.
Qed.

Lemma fixUpdateInfo_newUpdateInfo win :
  newUpdateInfo (fixUpdateInfo win updateInfo)
  = mkUpdateInfo None None None None
      (dx ← requestedOffset (ui_left updateInfo) (ui_width updateInfo)
              (cw_left win) (cw_width win);
       width ← ui_width updateInfo; Some (width - dx))
      (dy ← requestedOffset (ui_top updateInfo) (ui_height updateInfo)
              (cw_top win) (cw_height win);
       height ← ui_height updateInfo; Some (height - dy)).
Proof using Type.
  unfold fixUpdateInfo, requestedOffset.
  by destruct (ui_width updateInfo), (ui_left updateInfo),
    (ui_height updateInfo), (ui_top updateInfo).
Qed.

Lemma fixUpdateInfo_distance_nonneg win :
  0 ≤ distance (fixUpdateInfo win updateInfo).
Proof using Type.
  rewrite fixUpdateInfo_distance.
  destruct (requestedOffset _ _ (cw_left win) _),
    (requestedOffset _ _ (cw_top win) _); simpl; lia.
Qed.

(** While the window is too far off, every attempt waits, reads and goes on
    to the next attempt. *)
Lemma checkLoop_far j : ∀ remaining i,
  (j ≤ remaining)%nat →
  (∀ i', (i ≤ i' < i + j)%nat → tooFar updateInfo reads i') →
  checkLoop remaining winId updateInfo reads i
  = polls j winId ++ checkLoop (remaining - j) winId updateInfo reads (i + j).
Proof using Type.
  induction j as [|j IH]; intros remaining i Hle Hfar.
  - simpl. by rewrite Nat.sub_0_r, Nat.add_0_r.
  - destruct remaining as [|remaining]; [lia|]. simpl.
    destruct (Hfar i ltac:(lia)) as (win & -> & Hgt).
    destruct (Z.eqb_spec (distance (fixUpdateInfo win updateInfo)) 0) as [H0 | _].
    { unfold WINDOW_MANAGER_TOLERANCE in Hgt. lia. }
    destruct (Z.gtb_spec (distance (fixUpdateInfo win updateInfo))
                WINDOW_MANAGER_TOLERANCE) as [_ | Hle']; [|lia].
    rewrite (IH remaining (S i)); [|lia|].
    + by replace (S i + j)%nat with (i + S j)%nat by lia.
    + intros i' Hi'. apply Hfar. lia.
Qed.

(** C7: [update] writes the requested bounds and then checks.  The
    distance found at a check is the sum, over the dimensions in which both
    position and size were requested, of the absolute offset of the actual
    far edge from the requested one.  If the first check that is not
    further off than the tolerance of 64 is attempt [j < 5] and finds the
    distance [d]: for [d = 0] the callback follows with no further write;
    for [0 < d <= 64] one write that lowers width and height by the
    offsets follows and then the callback, with no further check.  If all
    five checks find a distance above 64, the callback follows the fifth
    check. *)
Theorem update_reconciles :
  (∀ win,
     distance (fixUpdateInfo win updateInfo)
     = from_option Z.abs 0
         (requestedOffset (ui_left updateInfo) (ui_width updateInfo)
            (cw_left win) (cw_width win))
       + from_option Z.abs 0
           (requestedOffset (ui_top updateInfo) (ui_height updateInfo)
              (cw_top win) (cw_height win)))
  ∧ (∀ (j : nat) win,
       (j < WINDOW_MANAGER_ATTEMPTS)%nat →
       (∀ i, (i < j)%nat → tooFar updateInfo reads i) →
       reads j = Some win →
       let fixes := fixUpdateInfo win updateInfo in
       (distance fixes = 0 →
        update winId updateInfo reads
        = ChromeWindowsUpdate winId updateInfo
            :: polls (S j) winId ++ [CallCallback])
       ∧ (0 < distance fixes ≤ WINDOW_MANAGER_TOLERANCE →
          update winId updateInfo reads
          = ChromeWindowsUpdate winId updateInfo
              :: polls (S j) winId
              ++ [ChromeWindowsUpdate winId (newUpdateInfo fixes); CallCallback]
          ∧ newUpdateInfo fixes
            = mkUpdateInfo None None None None
                (dx ← requestedOffset (ui_left updateInfo) (ui_width updateInfo)
                        (cw_left win) (cw_width win);
                 width ← ui_width updateInfo; Some (width - dx))
                (dy ← requestedOffset (ui_top updateInfo) (ui_height updateInfo)
                        (cw_top win) (cw_height win);
                 height ← ui_height updateInfo; Some (height - dy))))
  ∧ ((∀ i, (i < WINDOW_MANAGER_ATTEMPTS)%nat → tooFar updateInfo reads i) →
     update winId updateInfo reads
     = ChromeWindowsUpdate winId updateInfo
         :: polls WINDOW_MANAGER_ATTEMPTS winId ++ [CallCallback]).
Proof using Type.
  split; [exact fixUpdateInfo_distance|]. split.
  - intros j win Hj Hfar Hread fixes.
    assert (Hprefix : update winId updateInfo reads
              = ChromeWindowsUpdate winId updateInfo
                  :: polls j winId
                  ++ checkLoop (WINDOW_MANAGER_ATTEMPTS - j) winId
                       updateInfo reads j).
    { unfold update, checkWindowUpdated_. f_equal.
      rewrite (checkLoop_far j); [done | lia |].
      intros i' Hi'. apply Hfar. lia. }
    assert (Hpolls : ∀ tl, polls (S j) winId ++ tl
              = polls j winId ++ SetTimeout :: ChromeWindowsGet winId :: tl).
    { intros tl. clear. induction j as [|j IH]; [done|].
      simpl in *. by rewrite IH. }
    rewrite Hprefix, !Hpolls.
    destruct (WINDOW_MANAGER_ATTEMPTS - j)%nat as [|remaining] eqn:Hrem; [lia|].
    simpl. rewrite Hread. fold fixes. split.
    + intros ->. done.
    + intros [Hpos Hle]. split; [|apply fixUpdateInfo_newUpdateInfo].
      destruct (Z.eqb_spec (distance fixes) 0); [lia|].
      destruct (Z.gtb_spec (distance fixes) WINDOW_MANAGER_TOLERANCE); [lia|].
      done.
  - intros Hfar. unfold update, checkWindowUpdated_. f_equal.
    rewrite (checkLoop_far WINDOW_MANAGER_ATTEMPTS); [|lia|].
    + by rewrite Nat.sub_0_r, Nat.sub_diag.
    + intros i' Hi'. apply Hfar. lia.
Qed.

(** A window that is gone when it is read ends the checks. *)
Lemma update_window_disappeared (j : nat) :
  (j < WINDOW_MANAGER_ATTEMPTS)%nat →
  (∀ i, (i < j)%nat → tooFar updateInfo reads i) →
  reads j = None →
  update winId updateInfo reads
  = ChromeWindowsUpdate winId updateInfo :: polls (S j) winId ++ [CallCallback].
Proof using Type.
  intros Hj Hfar Hread. unfold update, checkWindowUpdated_. f_equal.
  rewrite (checkLoop_far j); [|lia|intros i' Hi'; apply Hfar; lia].
  rewrite Nat.sub_0_r.
  destruct (WINDOW_MANAGER_ATTEMPTS - j)%nat as [|remaining] eqn:Hrem; [lia|].
  simpl. rewrite Hread. clear. induction j as [|j IH]; [done|].
  simpl in *. by rewrite IH.
Qed.

End Reconcile.

(** The X11 simulation of the window provider's unit test: a window manager
    that adds a border of 3 and a title bar of 10 to the requested position. *)
Example update_decoration :
  WindowProvider.update 1
    (mkUpdateInfo None None (Some 100) (Some 100) (Some 300) (Some 200))
    WindowProvider.reads_decorated
  = [WindowProvider.ChromeWindowsUpdate 1
       (mkUpdateInfo None None (Some 100) (Some 100) (Some 300) (Some 200));
     WindowProvider.SetTimeout; WindowProvider.ChromeWindowsGet 1;
     WindowProvider.ChromeWindowsUpdate 1
       (mkUpdateInfo None None None None (Some 297) (Some 187));
     WindowProvider.CallCallback].
Proof. reflexivity. Qed.

(** ** WakeupQueue *)

Section QueueFacts.
Import WakeupQueue.
Context {Task : Type}.
Variable conduct : Task → Conduct.

Local Abbreviation wakeupFirst_ := (wakeupFirst_ conduct).
Local Abbreviation headPending := (headPending conduct).
Local Abbreviation headWaits := (headWaits conduct).
Local Abbreviation Shape := (Shape conduct).
Local Abbreviation step := (step conduct).
Local Abbreviation run := (run conduct).
Local Abbreviation add := (add conduct).

Lemma completed_S a : completed (S a) = completed a ++ [Started a; Finished a].
Proof using Type.
  unfold completed. by rewrite seq_S, flat_map_app.
Qed.

Lemma started_app l1 l2 : started (l1 ++ l2) = started l1 ++ started l2.
Proof using Type. unfold started. apply omap_app. Qed.

Lemma started_completed a : started (completed a) = seq 0 a.
Proof using Type.
  induction a as [|a IH]; [done|].
  by rewrite completed_S, started_app, IH, seq_S.
Qed.

Lemma completed_tickets a e :
  e ∈ completed a → ∃ i, (i < a)%nat ∧ (e = Started i ∨ e = Finished i).
Proof using Type.
  induction a as [|a IH]; [by intros ?%elem_of_nil|].
  rewrite completed_S, elem_of_app. intros [Hold | Hnew].
  - destruct (IH Hold) as (i & Hi & He). exists i. split; [lia | done].
  - exists a. split; [lia|].
    apply elem_of_cons in Hnew as [-> | Hnew]; [by left|].
    apply elem_of_cons in Hnew as [-> | Hnew]; [by right|].
    by apply elem_of_nil in Hnew.
Qed.

Lemma ticketedFrom_app i (l1 l2 : list Task) :
  ticketedFrom i (l1 ++ l2)
  = ticketedFrom i l1 ++ ticketedFrom (i + length l1) l2.
Proof using Type.
  revert i. induction l1 as [|t l1 IH]; intros i; simpl.
  - by rewrite Nat.add_0_r.
  - rewrite IH. by replace (S i + length l1)%nat with (i + S (length l1))%nat by lia.
Qed.

Lemma ticketedFrom_nil i (l : list Task) : ticketedFrom i l = [] → l = [].
Proof using Type. by destruct l. Qed.

(** Starting the queue: the closures that call [finished] before they
    return are run through, and the first one that does not is left
    running at the head. *)
Lemma wakeupFirst_shape (l : list Task) : ∀ a,
  ∃ k, (k ≤ length l)%nat
       ∧ Forall (fun t => conduct t = CallsFinished) (take k l)
       ∧ headWaits (ticketedFrom (a + k) (drop k l))
       ∧ wakeupFirst_ (ticketedFrom a l) [] (completed a)
         = (ticketedFrom (a + k) (drop k l),
            headPending (ticketedFrom (a + k) (drop k l)),
            runningLog (a + k) (ticketedFrom (a + k) (drop k l))).
Proof using Type.
  induction l as [|t l IH]; intros a.
  - exists 0%nat. simpl. rewrite Nat.add_0_r. unfold runningLog.
    rewrite app_nil_r. by repeat split.
  - simpl. destruct (conduct t) eqn:Ht.
    + destruct (IH (S a)) as (k & Hk & Hall & Hhead & Hrun).
      exists (S k). replace (a + S k)%nat with (S a + k)%nat by lia. simpl.
      split; [lia|]. split; [by constructor|]. split; [done|].
      by rewrite <- completed_S.
    + exists 0%nat. rewrite Nat.add_0_r. simpl. rewrite Ht.
      split; [lia|]. split; [constructor|]. split; [done|]. done.
    + exists 0%nat. rewrite Nat.add_0_r. simpl. rewrite Ht.
      split; [lia|]. split; [constructor|]. split; [done|]. done.
Qed.

Lemma step_added s e :
  added (step s e)
  = added s ++ match e with Add func => [func] | Complete _ => [] end.
Proof using Type.
  destruct e as [func | i]; simpl.
  - unfold WakeupQueue.add. destruct (_ =? _)%nat; [|done].
    by destruct (wakeupFirst_ _ _ _) as [[? ?] ?].
  - rewrite app_nil_r. destruct (bool_decide _); [|done].
    unfold wakeupNext_. by destruct (wakeupFirst_ _ _ _) as [[? ?] ?].
Qed.

Lemma run_added s es : added (run s es) = added s ++ addedBy es.
Proof using Type.
  revert s. induction es as [|e es IH]; intros s; simpl.
  - by rewrite app_nil_r.
  - rewrite IH, step_added. rewrite <- app_assoc. by destruct e.
Qed.

Lemma add_busy func s :
  queue_ s ≠ [] →
  add func s
  = mkState (queue_ s ++ [(length (added s), func)]) (pending s) (log s)
            (added s ++ [func]).
Proof using Type.
  intros Hbusy. unfold WakeupQueue.add. rewrite length_app. simpl.
  destruct (queue_ s) as [|p q0]; [done|]. simpl.
  by replace (length q0 + 1)%nat with (S (length q0)) by lia.
Qed.

Lemma add_idle func s :
  queue_ s = [] →
  add func s
  = let '(q', pend, lg) :=
      wakeupFirst_ [(length (added s), func)] (pending s) (log s) in
    mkState q' pend lg (added s ++ [func]).
Proof using Type. intros Hidle. unfold WakeupQueue.add. by rewrite Hidle. Qed.

(** One step keeps the shape; the closures that leave the queue in it are
    closures that did not drop their [finished]. *)
Lemma step_shape a s e :
  Shape a s →
  ∃ a', (a ≤ a')%nat ∧ Shape a' (step s e)
        ∧ ∀ i, (a ≤ i < a')%nat →
               ∃ t, added (step s e) !! i = Some t ∧ conduct t ≠ Drops.
Proof using Type.
  intros [Hq Hb Hlog Hpend Hhead]. destruct e as [func | i]; simpl.
  - destruct (queue_ s) as [|[i0 t0] q0] eqn:Hqueue.
    + (* the queue is idle: the closure is started at once *)
      rewrite add_idle by done.
      symmetry in Hq. apply ticketedFrom_nil in Hq.
      assert (a = length (added s)) as ->.
      { apply (f_equal length) in Hq. rewrite length_drop in Hq. simpl in Hq. lia. }
      rewrite Hpend, Hlog. unfold runningLog. rewrite app_nil_r.
      destruct (wakeupFirst_shape [func] (length (added s)))
        as (k & Hk & Hall & Hwaits & Hrun).
      change (ticketedFrom (length (added s)) [func])
        with [(length (added s), func)] in Hrun.
      simpl headPending. rewrite Hrun.
      exists (length (added s) + k)%nat. split; [lia|]. split.
      * constructor; simpl; try done.
        -- rewrite drop_app_ge by lia.
           by replace (length (added s) + k - length (added s))%nat with k by lia.
        -- rewrite length_app. simpl in *. lia.
      * intros i Hi. simpl in Hk.
        assert (k = 1%nat) as -> by lia. assert (i = length (added s)) as -> by lia.
        exists func. split.
        -- simpl. rewrite lookup_app_r by lia. by rewrite Nat.sub_diag.
        -- simpl in Hall. apply Forall_cons in Hall as [-> _]. done.
    + (* a closure is running: the new one waits *)
      rewrite add_busy by (by rewrite Hqueue). rewrite Hqueue.
      exists a. split; [lia|]. split; [|intros; lia].
      constructor; simpl; try done.
      * rewrite drop_app_le by done. rewrite ticketedFrom_app, <- Hq.
        rewrite length_drop.
        by replace (a + (length (added s) - a))%nat with (length (added s)) by lia.
      * rewrite length_app. lia.
  - destruct (bool_decide_reflect (i ∈ pending s)) as [Hin | Hnot].
    2:{ exists a. split; [lia|]. split; [done | intros; lia]. }
    rewrite Hpend in Hin.
    destruct (queue_ s) as [|[i0 t0] q0] eqn:Hqueue;
      [by apply elem_of_nil in Hin|].
    simpl in Hin, Hhead.
    destruct (conduct t0) eqn:Ht0; simpl in Hin;
      [done | | apply elem_of_nil in Hin; done].
    apply list_elem_of_singleton in Hin as ->.
    destruct (drop a (added s)) as [|t1 l1] eqn:Hdrop; [done|].
    simpl in Hq. injection Hq as -> -> ->.
    assert (Hat : added s !! a = Some t1).
    { rewrite <- (Nat.add_0_r a), <- lookup_drop. by rewrite Hdrop. }
    assert (Hl1 : l1 = drop (S a) (added s)).
    { rewrite (drop_S _ _ _ Hat) in Hdrop. by injection Hdrop. }
    unfold wakeupNext_. rewrite Hqueue, Hpend, Hlog. simpl. rewrite Ht0.
    rewrite filter_cons, decide_False, filter_nil by (intros H; by apply H).
    unfold runningLog. rewrite <- app_assoc. simpl.
    rewrite <- completed_S.
    destruct (wakeupFirst_shape l1 (S a)) as (k & Hk & Hall & Hwaits & Hrun).
    rewrite Hrun. exists (S a + k)%nat. split; [lia|]. split.
    * constructor; simpl; try done.
      -- by rewrite Hl1, drop_drop.
      -- rewrite Hl1, length_drop in Hk. apply lookup_lt_Some in Hat. lia.
    * intros i Hi. simpl.
      destruct (decide (i = a)) as [-> | Hne].
      { exists t1. split; [done | congruence]. }
      rewrite Forall_forall in Hall.
      assert (Hlook : is_Some (take k l1 !! (i - S a)%nat)).
      { apply lookup_lt_is_Some. rewrite length_take. lia. }
      destruct Hlook as [t Ht]. exists t. split.
      -- rewrite lookup_take_lt in Ht by lia. rewrite Hl1, lookup_drop in Ht.
         by replace (S a + (i - S a))%nat with i in Ht by lia.
      -- rewrite (Hall t); [done|]. by eapply list_elem_of_lookup_2.
Qed.

Lemma empty_shape : Shape 0 empty.
Proof using Type. by constructor. Qed.

Lemma run_shape es : ∀ a s,
  Shape a s → ∃ a', (a ≤ a')%nat ∧ Shape a' (run s es).
Proof using Type.
  induction es as [|e es IH]; intros a s Hs; simpl.
  - exists a. split; [lia | done].
  - destruct (step_shape a s e Hs) as (a1 & Ha1 & Hs1 & _).
    destruct (IH a1 _ Hs1) as (a' & Ha' & Hs'). exists a'. split; [lia | done].
Qed.

(** A queued closure that drops its [finished] is never passed. *)
Lemma run_stalls ticket t0 es : ∀ a s,
  Shape a s → (a ≤ ticket)%nat →
  added s !! ticket = Some t0 → conduct t0 = Drops →
  ∃ a', Shape a' (run s es) ∧ (a' ≤ ticket)%nat
        ∧ added (run s es) !! ticket = Some t0.
Proof using Type.
  induction es as [|e es IH]; intros a s Hs Ha Ht0 Hdrops; simpl.
  - by exists a.
  - destruct (step_shape a s e Hs) as (a1 & Ha1 & Hs1 & Hleft).
    assert (Hkeep : added (step s e) !! ticket = Some t0).
    { rewrite step_added. by apply lookup_app_l_Some. }
    apply (IH a1); try done.
    destruct (le_lt_dec a1 ticket) as [|Hpast]; [done|].
    destruct (Hleft ticket ltac:(lia)) as (t & Ht & Hnot). congruence.
Qed.

End QueueFacts.

Section QueueCalls.
Import WakeupQueue.
Context {Task : Type}.
Variable conduct : Task → Conduct.

Lemma call_added (s : @State Task) e :
  added (call conduct s e)
  = added s ++ match e with Add func => [func] | Complete _ => [] end.
Proof using Type.
  destruct e as [func | i]; simpl.
  - unfold add. destruct (_ =? _)%nat; [|done].
    by destruct (wakeupFirst_ _ _ _ _) as [[? ?] ?].
  - rewrite app_nil_r. unfold wakeupNext_.
    by destruct (wakeupFirst_ _ _ _ _) as [[? ?] ?].
Qed.

Lemma calls_added es : ∀ s : @State Task,
  added (calls conduct s es) = added s ++ addedBy es.
Proof using Type.
  induction es as [|e es IH]; intros s; simpl.
  - by rewrite app_nil_r.
  - rewrite IH, call_added. rewrite <- app_assoc. by destruct e.
Qed.

(** With the contract kept, the calls are the steps. *)
Lemma contract_run es : ∀ s : @State Task,
  contract conduct s es = true → calls conduct s es = run conduct s es.
Proof using Type.
  induction es as [|e es IH]; intros s; simpl; [done|].
  intros [He Hrest]%andb_true_iff.
  assert (Heq : call conduct s e = step conduct s e).
  { destruct e as [func | i]; simpl; [done|]. by rewrite He. }
  rewrite (IH _ Hrest). by rewrite Heq.
Qed.

(** Starting the queue, whatever is pending and logged: the closures
    started are the next ones, in order. *)
Lemma wakeupFirst_started (l : list Task) : ∀ a pend lg,
  ∃ k pend' lg',
    (k ≤ length l)%nat
    ∧ wakeupFirst_ conduct (ticketedFrom a l) pend lg
      = (ticketedFrom (a + k) (drop k l), pend', lg')
    ∧ started lg'
      = started lg ++ seq a (match drop k l with [] => k | _ :: _ => S k end).
Proof using Type.
  induction l as [|t l IH]; intros a pend lg.
  - exists 0%nat, pend, lg. simpl. rewrite ?Nat.add_0_r, ?app_nil_r. done.
  - simpl. destruct (conduct t) eqn:Ht.
    + destruct (IH (S a) pend (lg ++ [Started a; Finished a]))
        as (k & pend' & lg' & Hk & Hrun & Hst).
      exists (S k), pend', lg'.
      replace (a + S k)%nat with (S a + k)%nat by lia. simpl.
      split; [lia|]. split; [done|].
      rewrite Hst, started_app. simpl. rewrite <- app_assoc. simpl.
      by destruct (drop k l).
    + exists 0%nat, (a :: pend), (lg ++ [Started a]).
      rewrite Nat.add_0_r. simpl. split; [lia|]. split; [done|].
      by rewrite started_app.
    + exists 0%nat, pend, (lg ++ [Started a]).
      rewrite Nat.add_0_r. simpl. split; [lia|]. split; [done|].
      by rewrite started_app.
Qed.

(** One call keeps the order, whoever makes it. *)
Lemma call_fifo a (s : @State Task) e :
  Fifo a s → ∃ a', (a ≤ a')%nat ∧ Fifo a' (call conduct s e).
Proof using Type.
  intros [Hq Hb Hst]. destruct e as [func | i]; simpl.
  - destruct (queue_ s) as [|[i0 t0] q0] eqn:Hqueue.
    + rewrite add_idle by done.
      symmetry in Hq. apply ticketedFrom_nil in Hq.
      assert (a = length (added s)) as ->.
      { apply (f_equal length) in Hq. rewrite length_drop in Hq. simpl in Hq. lia. }
      destruct (wakeupFirst_started [func] (length (added s)) (pending s) (log s))
        as (k & pend' & lg' & Hk & Hrun & Hst').
      change (ticketedFrom (length (added s)) [func])
        with [(length (added s), func)] in Hrun.
      rewrite Hrun. exists (length (added s) + k)%nat. split; [lia|].
      constructor; simpl.
      * rewrite drop_app_ge by lia.
        by replace (length (added s) + k - length (added s))%nat with k by lia.
      * rewrite length_app. simpl in *. lia.
      * rewrite Hst', Hst, <- seq_app.
        f_equal. destruct (drop k [func]); simpl; lia.
    + rewrite add_busy by (by rewrite Hqueue). rewrite Hqueue.
      exists a. split; [lia|]. constructor; simpl; [| |done].
      * rewrite drop_app_le by done. rewrite ticketedFrom_app, <- Hq.
        rewrite length_drop.
        by replace (a + (length (added s) - a))%nat with (length (added s)) by lia.
      * rewrite length_app. lia.
  - unfold wakeupNext_.
    destruct (queue_ s) as [|[i0 t0] q0] eqn:Hqueue; simpl.
    + exists a. split; [lia|]. constructor; simpl; [done | done |].
      rewrite started_app. simpl. by rewrite app_nil_r.
    + destruct (drop a (added s)) as [|t1 l1] eqn:Hdrop; [done|].
      simpl in Hq. injection Hq as -> -> ->.
      assert (Hat : added s !! a = Some t1).
      { rewrite <- (Nat.add_0_r a), <- lookup_drop. by rewrite Hdrop. }
      assert (Hl1 : l1 = drop (S a) (added s)).
      { rewrite (drop_S _ _ _ Hat) in Hdrop. by injection Hdrop. }
      destruct (wakeupFirst_started l1 (S a)
                  (filter (fun j => j ≠ i) (pending s)) (log s ++ [Finished i]))
        as (k & pend' & lg' & Hk & Hrun & Hst').
      rewrite Hrun. exists (S a + k)%nat. split; [lia|].
      constructor; simpl.
      * by rewrite Hl1, drop_drop.
      * rewrite Hl1, length_drop in Hk. apply lookup_lt_Some in Hat. lia.
      * rewrite Hst', started_app, Hst.
        change (started [Finished i]) with (@nil nat).
        rewrite app_nil_r, <- seq_app. f_equal.
        destruct (drop k l1); simpl; lia.
Qed.

Lemma calls_fifo es : ∀ a (s : @State Task),
  Fifo a s → ∃ a', (a ≤ a')%nat ∧ Fifo a' (calls conduct s es).
Proof using Type.
  induction es as [|e es IH]; intros a s Hs; simpl.
  - exists a. split; [lia | done].
  - destruct (call_fifo a s e Hs) as (a1 & Ha1 & Hs1).
    destruct (IH a1 _ Hs1) as (a' & Ha' & Hs'). exists a'. split; [lia | done].
Qed.

Lemma empty_fifo : Fifo 0 (@empty Task).
Proof using Type. by constructor. Qed.

(** The operation that holds a [finished] calls it: the running closure
    has finished, the closures after it that call [finished] themselves
    run through, and the first one that does not is left running. *)
Lemma complete_pending a (s : @State Task) i :
  Shape conduct a s → i ∈ pending s →
  i = a
  ∧ queue_ s ≠ []
  ∧ ∃ k, Shape conduct (S a + k) (call conduct s (Complete i))
         ∧ added (call conduct s (Complete i)) = added s
         ∧ Forall (fun t => conduct t = CallsFinished)
                  (take k (drop (S a) (added s))).
Proof using Type.
  intros [Hq Hb Hlog Hpend Hhead] Hin. rewrite Hpend in Hin.
  destruct (queue_ s) as [|[i0 t0] q0] eqn:Hqueue;
    [by apply elem_of_nil in Hin|].
  simpl in Hin, Hhead.
  destruct (conduct t0) eqn:Ht0; simpl in Hin;
    [done | | apply elem_of_nil in Hin; done].
  apply list_elem_of_singleton in Hin as ->.
  destruct (drop a (added s)) as [|t1 l1] eqn:Hdrop; [done|].
  simpl in Hq. injection Hq as -> -> ->.
  split; [done|]. split; [done|].
  assert (Hat : added s !! a = Some t1).
  { rewrite <- (Nat.add_0_r a), <- lookup_drop. by rewrite Hdrop. }
  assert (Hl1 : l1 = drop (S a) (added s)).
  { rewrite (drop_S _ _ _ Hat) in Hdrop. by injection Hdrop. }
  simpl. unfold wakeupNext_. rewrite Hqueue, Hpend, Hlog. simpl. rewrite Ht0.
  rewrite filter_cons, decide_False, filter_nil by (intros H; by apply H).
  unfold runningLog. rewrite <- app_assoc. simpl.
  rewrite <- completed_S.
  destruct (wakeupFirst_shape conduct l1 (S a)) as (k & Hk & Hall & Hwaits & Hrun).
  rewrite Hrun. exists k. split; [|split; [done | by rewrite <- Hl1]].
  constructor; simpl; try done.
  - by rewrite Hl1, drop_drop.
  - rewrite Hl1, length_drop in Hk. apply lookup_lt_Some in Hat. lia.
Qed.

End QueueCalls.

Section QueueOrder.
Import WakeupQueue.
Context {Task : Type}.
Variable conduct : Task → Conduct.

Lemma isIdle_nil (s : @State Task) : isIdle s = true ↔ queue_ s = [].
Proof using Type.
  unfold isIdle. rewrite Nat.eqb_eq. by destruct (queue_ s).
Qed.

Lemma shape_log_idle a (s : @State Task) :
  Shape conduct a s →
  log s = completed a ++ (if isIdle s then [] else [Started a]).
Proof using Type.
  intros Hs. rewrite (shape_log _ _ _ Hs). unfold runningLog, isIdle.
  by destruct (queue_ s).
Qed.

(** What is seen of a queued closure that drops its [finished]. *)
Lemma stalled_view a (s : @State Task) ticket t0 :
  Shape conduct a s → (a ≤ ticket)%nat →
  added s !! ticket = Some t0 → conduct t0 = Drops →
  isIdle s = false
  ∧ (Finished ticket ∉ log s)
  ∧ (ticket ∉ pending s)
  ∧ ∀ j, (ticket < j)%nat → Started j ∉ log s.
Proof using Type.
  intros Hs Ha Ht0 Hdrops.
  assert (Hlen : (ticket < length (added s))%nat) by by eapply lookup_lt_Some.
  assert (Hhead : ∃ t rest, added s !! a = Some t
                            ∧ queue_ s = (a, t) :: rest).
  { destruct (lookup_lt_is_Some_2 (added s) a ltac:(lia)) as [t Ht].
    exists t, (ticketedFrom (S a) (drop (S a) (added s))). split; [done|].
    by rewrite (shape_queue _ _ _ Hs), (drop_S _ _ _ Ht). }
  destruct Hhead as (t & rest & Ht & Hqueue).
  assert (Hidle : isIdle s = false).
  { unfold isIdle. by rewrite Hqueue. }
  pose proof (shape_log_idle a s Hs) as Hlog. rewrite Hidle in Hlog.
  split; [done|]. split; [|split].
  - rewrite Hlog, elem_of_app. intros [Hin | Hin].
    + apply completed_tickets in Hin as (i & Hi & [? | [= ->]]); [done | lia].
    + apply list_elem_of_singleton in Hin. done.
  - rewrite (shape_pending _ _ _ Hs), Hqueue. simpl.
    destruct (conduct t) eqn:Hc; try by intros ?%elem_of_nil.
    intros ->%list_elem_of_singleton. congruence.
  - intros j Hj. rewrite Hlog, elem_of_app. intros [Hin | Hin].
    + apply completed_tickets in Hin as (i & Hi & [[= ->] | ?]); [lia | done].
    + apply list_elem_of_singleton in Hin. injection Hin as ->. lia.
Qed.

(** C5: whatever closures are added to a wakeup queue and whatever calls
    of [finished] are made, the closures are started in the order of their
    [add] calls (tickets 0, 1, 2, ...), the queue holding the waiting ones
    in that order; and a closure added to an idle queue is started within
    the [add] call and, if it calls [finished] before it returns, leaves
    the queue idle again.  When every [finished] is called at most once,
    by the operation that holds it, the log is a sequence of closures each
    started and then finished, followed by at most the one running
    closure, so that a closure starts only after the one before it has
    called [finished]; only the running closure's [finished] is held; and
    when it is called, that closure has finished, the closures queued
    behind it that call [finished] themselves run one after the other, and
    the first that does not is started and left running. *)
Theorem wakeupQueue_fifo (es : list (@Input Task)) :
  let s := calls conduct empty es in
  (added s = addedBy es
   ∧ ∃ a : nat,
       queue_ s = ticketedFrom a (drop a (added s))
       ∧ started (log s) = seq 0 (if isIdle s then a else S a))
  ∧ (∀ func, isIdle s = true →
       log (add conduct func s)
       = log s ++ Started (length (added s))
                  :: match conduct func with
                     | CallsFinished => [Finished (length (added s))]
                     | _ => []
                     end
       ∧ (conduct func = CallsFinished → isIdle (add conduct func s) = true))
  ∧ (contract conduct empty es = true →
     ∃ a : nat,
       queue_ s = ticketedFrom a (drop a (added s))
       ∧ log s = completed a ++ (if isIdle s then [] else [Started a])
       ∧ (∀ i, i ∈ pending s → i = a ∧ isIdle s = false)
       ∧ ∀ i, i ∈ pending s →
           let s' := call conduct s (Complete i) in
           ∃ k : nat,
             (S a + k ≤ length (added s))%nat
             ∧ added s' = added s
             ∧ log s'
               = completed (S a + k)
                 ++ (if isIdle s' then [] else [Started (S a + k)])
             ∧ queue_ s' = ticketedFrom (S a + k) (drop (S a + k) (added s))
             ∧ Forall (fun t => conduct t = CallsFinished)
                      (take k (drop (S a) (added s)))
             ∧ (∀ t, added s !! (S a + k)%nat = Some t →
                  conduct t ≠ CallsFinished)).
Proof using Type.
  intros s. split; [|split].
  - split; [subst s; by rewrite calls_added|].
    destruct (calls_fifo conduct es 0 empty (empty_fifo)) as (a & _ & Hs).
    fold s in Hs. exists a. split; [apply (fifo_queue _ _ Hs)|].
    rewrite (fifo_started _ _ Hs). unfold isIdle. by destruct (queue_ s).
  - intros func Hidle%isIdle_nil.
    rewrite (add_idle conduct func s Hidle). simpl.
    destruct (conduct func); simpl; by rewrite <- ?app_assoc.
  - intros Hcontract. subst s. rewrite (contract_run conduct es _ Hcontract).
    destruct (run_shape conduct es 0 empty (empty_shape conduct))
      as (a & _ & Hs).
    set (s := run conduct empty es) in *.
    exists a. split; [apply (shape_queue _ _ _ Hs)|].
    split; [apply (shape_log_idle a s Hs)|]. split.
    + intros i Hin.
      destruct (complete_pending conduct a s i Hs Hin) as (-> & Hbusy & _).
      split; [done|]. unfold isIdle. by destruct (queue_ s).
    + intros i Hin s'.
      destruct (complete_pending conduct a s i Hs Hin)
        as (-> & _ & k & Hs' & Hadded & Hall).
      fold s' in Hs', Hadded. exists k.
      split; [rewrite <- Hadded; apply (shape_bound _ _ _ Hs')|].
      split; [done|].
      split; [apply (shape_log_idle _ s' Hs')|].
      split; [rewrite <- Hadded; apply (shape_queue _ _ _ Hs')|].
      split; [done|].
      intros t Hat. pose proof (shape_head _ _ _ Hs') as Hhead.
      rewrite (shape_queue _ _ _ Hs'), Hadded, (drop_S _ _ _ Hat) in Hhead.
      exact Hhead.
Qed.

End QueueOrder.

(** The unit test of the wakeup queue: a closure that calls [finished] at
    once, then one that completes later, then a third. *)
Example wakeupQueue_test :
  let conduct := fun t : bool => if t then WakeupQueue.CallsFinished
                                 else WakeupQueue.HandsOver in
  WakeupQueue.log
    (WakeupQueue.run conduct WakeupQueue.empty
       [WakeupQueue.Add true; WakeupQueue.Add false; WakeupQueue.Add false;
        WakeupQueue.Complete 1; WakeupQueue.Complete 2])
  = [WakeupQueue.Started 0; WakeupQueue.Finished 0;
     WakeupQueue.Started 1; WakeupQueue.Finished 1;
     WakeupQueue.Started 2; WakeupQueue.Finished 2].
Proof. reflexivity. Qed.

(** A [finished] that is called twice: the second call takes the running
    closure out of the queue and starts the one behind it, so that two
    closures run at once.  With the contract kept the second call is not
    made. *)
Example finished_twice :
  WakeupQueue.contract testConduct WakeupQueue.empty
    [WakeupQueue.Add false; WakeupQueue.Add false; WakeupQueue.Add false;
     WakeupQueue.Complete 0; WakeupQueue.Complete 0] = false
  ∧ WakeupQueue.log
      (WakeupQueue.calls testConduct WakeupQueue.empty
         [WakeupQueue.Add false; WakeupQueue.Add false; WakeupQueue.Add false;
          WakeupQueue.Complete 0; WakeupQueue.Complete 0])
    = [WakeupQueue.Started 0; WakeupQueue.Finished 0; WakeupQueue.Started 1;
       WakeupQueue.Finished 0; WakeupQueue.Started 2]
  ∧ WakeupQueue.log
      (WakeupQueue.run testConduct WakeupQueue.empty
         [WakeupQueue.Add false; WakeupQueue.Add false; WakeupQueue.Add false;
          WakeupQueue.Complete 0; WakeupQueue.Complete 0])
    = [WakeupQueue.Started 0; WakeupQueue.Finished 0; WakeupQueue.Started 1].
Proof. by vm_compute. Qed.

(** ** The message handler *)

Section MessageHandler.
Import WakeupQueue WindowManagerService.

Lemma messageSwitch_unknown message :
  request message ∉ RequestType.all → messageSwitch message = None.
Proof using Type.
  intros Hnot. unfold messageSwitch.
  assert (Hneq : ∀ r, r ∈ RequestType.all → request message ≠ r).
  { intros r Hr Heq. apply Hnot. by rewrite Heq. }
  repeat (rewrite bool_decide_eq_false_2;
          [|apply Hneq; unfold RequestType.all;
            rewrite !elem_of_cons; tauto]).
  done.
Qed.

(** C10: when a message whose request is none of the six request types is
    handled, in whatever state the queue is and whatever happens to the
    queue afterwards: the closure hands its callback to no operation, the
    [finished] of the closure is never called and is held by nobody (so no
    response is sent), the queue is never idle again, and no closure added
    after it is ever started. *)
Theorem unknown_request_stalls (pre post : list (@Input Task))
    (message : Message) :
  request message ∉ RequestType.all →
  let s0 := run conduct empty pre in
  let ticket := length (added s0) in
  let s := run conduct (messageHandler_ message s0) post in
  messageSwitch message = None
  ∧ isIdle s = false
  ∧ (Finished ticket ∉ log s)
  ∧ (ticket ∉ pending s)
  ∧ ∀ j, (ticket < j)%nat → Started j ∉ log s.
Proof using Type.
  intros Hunknown s0 ticket s.
  pose proof (messageSwitch_unknown message Hunknown) as Hnone.
  split; [done|].
  assert (Hdrops : conduct (MessageTask message) = Drops).
  { simpl. by rewrite Hnone. }
  destruct (run_shape conduct pre 0 empty (empty_shape conduct))
    as (a0 & _ & Hs0).
  fold s0 in Hs0.
  destruct (step_shape conduct a0 s0 (Add (MessageTask message)) Hs0)
    as (a1 & Ha1 & Hs1 & Hleft).
  change (step conduct s0 (Add (MessageTask message)))
    with (messageHandler_ message s0) in Hs1, Hleft.
  assert (Hat : added (messageHandler_ message s0) !! ticket
                = Some (MessageTask message)).
  { unfold messageHandler_.
    change (add conduct (MessageTask message) s0)
      with (step conduct s0 (Add (MessageTask message))).
    rewrite step_added. rewrite lookup_app_r by done.
    by rewrite Nat.sub_diag. }
  assert (Hbound : (a1 ≤ ticket)%nat).
  { destruct (le_lt_dec a1 ticket) as [|Hpast]; [done|].
    pose proof (shape_bound _ _ _ Hs0).
    destruct (Hleft ticket ltac:(unfold ticket; lia)) as (t & Ht & Hnot).
    congruence. }
  destruct (run_stalls conduct ticket (MessageTask message) post a1
              (messageHandler_ message s0) Hs1 Hbound Hat Hdrops)
    as (a' & Hs' & Ha' & Hat').
  by apply (stalled_view conduct a' s ticket (MessageTask message)).
Qed.

End MessageHandler.

Lemma unknown_request_stalls_witness :
  (WindowManagerService.request unknownMessage ∉ RequestType.all)
  ∧ WakeupQueue.isIdle
      (WakeupQueue.run WindowManagerService.conduct
         (WindowManagerService.messageHandler_ unknownMessage
            (WakeupQueue.run WindowManagerService.conduct WakeupQueue.empty
               [WakeupQueue.Add (WindowManagerService.RemovedTask 5)]))
         [WakeupQueue.Add (WindowManagerService.RemovedTask 3);
          WakeupQueue.Complete 0])
    = false.
Proof.
  assert (Hunknown : WindowManagerService.request unknownMessage
                     ∉ RequestType.all).
  { intros H. unfold RequestType.all in H.
    repeat (apply elem_of_cons in H as [H | H]; [discriminate H|]).
    by apply elem_of_nil in H. }
  split; [exact Hunknown|].
  destruct (unknown_request_stalls
              [WakeupQueue.Add (WindowManagerService.RemovedTask 5)]
              [WakeupQueue.Add (WindowManagerService.RemovedTask 3);
               WakeupQueue.Complete 0]
              unknownMessage Hunknown) as (_ & Hidle & _).
  exact Hidle.
Defined.

(** ** BarrierClosure *)

Section Barrier.
Import BarrierClosure.

Lemma new_agrees : Agrees (mkView 0 [] false false) new.
Proof using Type.
  constructor; simpl; try done; [constructor | by intros i ?%elem_of_nil].
Qed.

Lemma distinct_below (l : list nat) n :
  NoDup l → (∀ i, i ∈ l → (i < n)%nat) → (length l ≤ n)%nat.
Proof using Type.
  intros Hnd Hlt. rewrite <- (length_seq n 0).
  apply submseteq_length, NoDup_submseteq; [done|].
  intros i Hi. apply elem_of_seq. specialize (Hlt i Hi). lia.
Qed.

Lemma fireIfReady_fields s :
  count_ (fireIfReady s) = count_ s
  ∧ finalized_ (fireIfReady s) = finalized_ s
  ∧ then_ (fireIfReady s) = then_ s
  ∧ fired (fireIfReady s)
    = if finalized_ s && (count_ s =? 0)%nat && then_ s
      then S (fired s) else fired s.
Proof using Type.
  unfold fireIfReady, ready. by destruct (_ && _ && _).
Qed.

(** One call keeps the state in agreement with what has happened. *)
Lemma step_agrees v s c rest :
  Agrees v s → contractFrom v (c :: rest) = true →
  ∃ s', step s c = Some s' ∧ Agrees (advance v c) s'
        ∧ contractFrom (advance v c) rest = true.
Proof using Type.
  intros [Hnd Hlt Hcount Hfin Hthen Hfired] Hc.
  pose proof (distinct_below _ _ Hnd Hlt) as Hbound.
  simpl in Hc. apply andb_true_iff in Hc as [Hc Hrest].
  destruct c as [|i| |].
  - (* get() *)
    apply negb_true_iff in Hc. cbn [step]. unfold get. rewrite Hfin, Hc.
    eexists. split; [done|]. split; [|done].
    constructor; simpl; try done.
    + intros i Hi. specialize (Hlt i Hi). lia.
    + lia.
    + by rewrite Hfired, Hc.
  - (* a signal *)
    apply andb_true_iff in Hc as [Hi Hfresh].
    apply Nat.ltb_lt in Hi. apply negb_true_iff, bool_decide_eq_false in Hfresh.
    assert (Hall : ∀ j, j ∈ i :: invoked v → (j < gets v)%nat).
    { intros j [-> | Hj]%elem_of_cons; [done | by apply Hlt]. }
    assert (Hroom : (S (length (invoked v)) ≤ gets v)%nat).
    { apply (distinct_below (i :: invoked v) (gets v)); [by constructor | done]. }
    cbn [step]. unfold signal. rewrite Hcount.
    destruct (gets v - length (invoked v))%nat as [|c] eqn:Hleft; [lia|].
    eexists. split; [done|]. split; [|done].
    destruct (fireIfReady_fields
                (mkState c (finalized_ s) (then_ s) (fired s)))
      as (Hc1 & Hc2 & Hc3 & Hc4).
    constructor; cbn -[Nat.eqb Nat.sub] in *;
      rewrite ?Hc1, ?Hc2, ?Hc3, ?Hc4; try done.
    + by constructor.
    + lia.
    + rewrite Hfin, Hthen, Hfired.
      destruct (Nat.eqb_spec c 0), (Nat.eqb_spec (length (invoked v)) (gets v)),
        (Nat.eqb_spec (S (length (invoked v))) (gets v));
        destruct (finalized v), (registered v); try done; lia.
  - (* finalize() *)
    apply negb_true_iff in Hc. cbn [step]. unfold finalize. rewrite Hfin, Hc.
    eexists. split; [done|]. split; [|done].
    destruct (fireIfReady_fields
                (mkState (count_ s) true (then_ s) (fired s)))
      as (Hc1 & Hc2 & Hc3 & Hc4).
    constructor; cbn -[Nat.eqb Nat.sub] in *;
      rewrite ?Hc1, ?Hc2, ?Hc3, ?Hc4; try done.
    rewrite Hthen, Hfired, Hc, Hcount.
    destruct (Nat.eqb_spec (gets v - length (invoked v)) 0),
      (Nat.eqb_spec (length (invoked v)) (gets v));
      destruct (registered v); try done; lia.
  - (* then() *)
    apply negb_true_iff in Hc. cbn [step]. unfold then'.
    eexists. split; [done|]. split; [|done].
    destruct (fireIfReady_fields
                (mkState (count_ s) (finalized_ s) true (fired s)))
      as (Hc1 & Hc2 & Hc3 & Hc4).
    constructor; cbn -[Nat.eqb Nat.sub] in *;
      rewrite ?Hc1, ?Hc2, ?Hc3, ?Hc4; try done.
    rewrite Hfin, Hfired, Hc, Hcount.
    destruct (Nat.eqb_spec (gets v - length (invoked v)) 0),
      (Nat.eqb_spec (length (invoked v)) (gets v));
      destruct (finalized v); try done; lia.
Qed.

Lemma run_agrees p : ∀ v s q,
  Agrees v s → contractFrom v (p ++ q) = true →
  ∃ s', run s p = Some s' ∧ Agrees (fold_left advance p v) s'
        ∧ contractFrom (fold_left advance p v) q = true.
Proof using Type.
  induction p as [|c p IH]; intros v s q Hagrees Hc.
  - by exists s.
  - destruct (step_agrees v s c (p ++ q) Hagrees Hc) as (s1 & Hstep & Hs1 & Hc1).
    destruct (IH _ s1 q Hs1 Hc1) as (s' & Hrun & Hs' & Hc').
    exists s'. simpl. rewrite Hstep. by split.
Qed.

Lemma countb_app f (l1 l2 : list Call) :
  countb f (l1 ++ l2) = (countb f l1 + countb f l2)%nat.
Proof using Type. unfold countb. by rewrite List.filter_app, length_app. Qed.

(** The view after some calls, in terms of how many calls of each kind
    were made. *)
Lemma view_counts p : ∀ v,
  gets (fold_left advance p v) = (gets v + countb isGet p)%nat
  ∧ length (invoked (fold_left advance p v))
    = (length (invoked v) + countb isSignal p)%nat
  ∧ finalized (fold_left advance p v)
    = finalized v || (0 <? countb isFinalize p)%nat
  ∧ registered (fold_left advance p v)
    = registered v || (0 <? countb isThen p)%nat.
Proof using Type.
  induction p as [|c p IH]; intros v.
  - unfold countb. simpl. rewrite !Nat.add_0_r, !orb_false_r. done.
  - destruct (IH (advance v c)) as (Hg & Hi & Hf & Ht).
    change (c :: p) with ([c] ++ p). rewrite !countb_app.
    simpl fold_left. rewrite Hg, Hi, Hf, Ht.
    destruct c; unfold countb; cbn -[Nat.ltb]; repeat split;
      try lia; try done; by rewrite ?orb_true_r.
Qed.

Lemma no_get_after_finalize q : ∀ v,
  contractFrom v q = true → finalized v = true → countb isGet q = 0%nat.
Proof using Type.
  induction q as [|c q IH]; intros v Hc Hfin; [done|].
  simpl in Hc. apply andb_true_iff in Hc as [Hc Hrest].
  change (c :: q) with ([c] ++ q). rewrite countb_app.
  destruct c; try (rewrite (IH _ Hrest); [done | done]).
  by rewrite Hfin in Hc.
Qed.

(** C4: in every use of a barrier that keeps to its contract, with any
    number of signals obtained by [get()] before [finalize()] and the
    invocations of the signals, [finalize()] and [then()] in any order,
    every call succeeds and the continuation has run exactly once in the
    end; after any initial part of the calls it has run once if
    [finalize()] and [then()] have been called and every obtained signal
    has been invoked, and not at all otherwise.  So it runs with the call
    that makes the condition true, which is [then()] itself if the
    condition already holds then. *)
Theorem barrier_fires_once (cs : list Call) :
  contract cs = true →
  let k := countb isGet cs in
  (∃ s, run new cs = Some s ∧ fired s = 1%nat)
  ∧ ∀ p q, cs = p ++ q →
      ∃ sp, run new p = Some sp
            ∧ fired sp = if conditionHolds k p then 1%nat else 0%nat.
Proof using Type.
  intros Hc k.
  assert (Hprefix : ∀ p q, cs = p ++ q →
            ∃ sp, run new p = Some sp
                  ∧ fired sp = (if conditionHolds k p then 1%nat else 0%nat)
                  ∧ (q = [] → conditionHolds k p = true)).
  { intros p q ->.
    destruct (run_agrees p _ new q new_agrees Hc) as (sp & Hrun & Hsp & Hq).
    exists sp. split; [done|].
    destruct (view_counts p (mkView 0 [] false false)) as (Hg & Hi & Hf & Ht).
    simpl in Hg, Hi, Hf, Ht.
    assert (Hcond : conditionHolds k p
              = finalized (fold_left advance p (mkView 0 [] false false))
                && registered (fold_left advance p (mkView 0 [] false false))
                && (length (invoked (fold_left advance p (mkView 0 [] false false)))
                    =? gets (fold_left advance p (mkView 0 [] false false)))%nat).
    { unfold conditionHolds. rewrite Hg, Hi, Hf, Ht.
      destruct (0 <? countb isFinalize p)%nat eqn:Hfin; [|done].
      subst k. rewrite countb_app, (no_get_after_finalize q _ Hq Hf).
      by rewrite Nat.add_0_r. }
    rewrite Hcond. split; [apply (agrees_fired _ _ Hsp)|].
    intros ->. exact Hq. }
  split; [|intros p q Hpq; destruct (Hprefix p q Hpq) as (sp & ? & ? & _); eauto].
  destruct (Hprefix cs [] ltac:(by rewrite app_nil_r)) as (s & Hrun & Hfired & Hend).
  exists s. split; [done|]. by rewrite Hfired, Hend.
Qed.

(** The synchronous unit test of the barrier: two signals, [finalize()],
    [then()], then the signals are invoked. *)
Example barrier_test :
  contract [Get; Get; Finalize; Then; Signal 0; Signal 1] = true
  ∧ fired <$> run new [Get; Get; Finalize; Then] = Some 0%nat
  ∧ fired <$> run new [Get; Get; Finalize; Then; Signal 0] = Some 0%nat
  ∧ fired <$> run new [Get; Get; Finalize; Then; Signal 0; Signal 1]
    = Some 1%nat.
Proof using Type. by vm_compute. Qed.

(** Without signals the continuation runs with the later of [finalize()]
    and [then()]. *)
Example barrier_empty :
  contract [Finalize; Then] = true ∧ contract [Then; Finalize] = true
  ∧ fired <$> run new [Finalize] = Some 0%nat
  ∧ fired <$> run new [Finalize; Then] = Some 1%nat
  ∧ fired <$> run new [Then] = Some 0%nat
  ∧ fired <$> run new [Then; Finalize] = Some 1%nat.
Proof using Type. by vm_compute. Qed.

End Barrier.

Lemma barrier_fires_once_witness :
  BarrierClosure.contract
    [BarrierClosure.Then; BarrierClosure.Get; BarrierClosure.Get;
     BarrierClosure.Signal 1; BarrierClosure.Finalize;
     BarrierClosure.Signal 0] = true
  ∧ ∃ s, BarrierClosure.run BarrierClosure.new
           [BarrierClosure.Then; BarrierClosure.Get; BarrierClosure.Get;
            BarrierClosure.Signal 1; BarrierClosure.Finalize;
            BarrierClosure.Signal 0] = Some s
         ∧ BarrierClosure.fired s = 1%nat.
Proof.
  split; [by vm_compute|].
  apply (barrier_fires_once
           [BarrierClosure.Then; BarrierClosure.Get; BarrierClosure.Get;
            BarrierClosure.Signal 1; BarrierClosure.Finalize;
            BarrierClosure.Signal 0]).
  by vm_compute.
Defined.

Lemma update_reconciles_witness :
  WindowProvider.reads_decorated 0
  = Some (mkChromeWindow 1 103 113 300 200 "normal" true)
  ∧ WindowProvider.update 1
      (mkUpdateInfo None None (Some 100) (Some 100) (Some 300) (Some 200))
      WindowProvider.reads_decorated
    = [WindowProvider.ChromeWindowsUpdate 1
         (mkUpdateInfo None None (Some 100) (Some 100) (Some 300) (Some 200));
       WindowProvider.SetTimeout; WindowProvider.ChromeWindowsGet 1;
       WindowProvider.ChromeWindowsUpdate 1
         (mkUpdateInfo None None None None (Some 297) (Some 187));
       WindowProvider.CallCallback].
Proof.
  split; [reflexivity|].
  destruct (update_reconciles 1
              (mkUpdateInfo None None (Some 100) (Some 100) (Some 300) (Some 200))
              WindowProvider.reads_decorated) as (_ & Hnear & _).
  destruct (Hnear 0%nat (mkChromeWindow 1 103 113 300 200 "normal" true))
    as [_ Hfix].
  - unfold WINDOW_MANAGER_ATTEMPTS. lia.
  - intros i Hi. lia.
  - reflexivity.
  - destruct Hfix as [Hrun _]; [by vm_compute|]. exact Hrun.
Defined.

Lemma wakeupQueue_fifo_witness :
  WakeupQueue.contract testConduct WakeupQueue.empty
    [WakeupQueue.Add true; WakeupQueue.Add false; WakeupQueue.Add false;
     WakeupQueue.Complete 1] = true
  ∧ WakeupQueue.log
      (WakeupQueue.calls testConduct WakeupQueue.empty
         [WakeupQueue.Add true; WakeupQueue.Add false; WakeupQueue.Add false;
          WakeupQueue.Complete 1])
    = [WakeupQueue.Started 0; WakeupQueue.Finished 0;
       WakeupQueue.Started 1; WakeupQueue.Finished 1; WakeupQueue.Started 2]
  ∧ WakeupQueue.log
      (WakeupQueue.call testConduct
         (WakeupQueue.calls testConduct WakeupQueue.empty
            [WakeupQueue.Add true; WakeupQueue.Add false; WakeupQueue.Add false;
             WakeupQueue.Complete 1])
         (WakeupQueue.Complete 2))
    = WakeupQueue.completed 3.
Proof.
  split; [reflexivity|].
  destruct (wakeupQueue_fifo testConduct
              [WakeupQueue.Add true; WakeupQueue.Add false;
               WakeupQueue.Add false; WakeupQueue.Complete 1])
    as (_ & _ & Hcontract).
  destruct (Hcontract eq_refl) as (a & _ & Hlog & Hheld & Hnext).
  assert (Hin : 2%nat ∈ WakeupQueue.pending
                  (WakeupQueue.calls testConduct WakeupQueue.empty
                     [WakeupQueue.Add true; WakeupQueue.Add false;
                      WakeupQueue.Add false; WakeupQueue.Complete 1])).
  { change (2%nat ∈ [2%nat]). by left. }
  destruct (Hheld 2%nat Hin) as [<- _].
  split; [exact Hlog|].
  destruct (Hnext 2%nat Hin) as (k & Hk & _ & Hlog' & _).
  change (3 + k ≤ 3)%nat in Hk. assert (k = 0%nat) as -> by lia.
  exact Hlog'.
Defined.

(** ** The current desktop stays a valid index *)

Lemma newVirtualDesktopManager_nonneg storedDesktop storedStates :
  0 ≤ currentDesktop_ (fst (newVirtualDesktopManager storedDesktop storedStates)).
Proof.
  unfold newVirtualDesktopManager. simpl.
  destruct storedDesktop as [d|]; [|done]. destruct (Z.ltb_spec d 0); lia.
Qed.

Lemma switchToDesktop_valid cfg this windows target focusedWinId sendToDesktop
    this' evs :
  1 ≤ desktops cfg → 0 ≤ currentDesktop_ this →
  switchToDesktop cfg this windows target focusedWinId sendToDesktop
  = Some (this', evs) →
  0 ≤ currentDesktop_ this' < desktops cfg.
Proof.
  intros Hn Hcur Hrun.
  destruct (switchToDesktop_unfold cfg this windows target focusedWinId
              sendToDesktop Hn Hcur) as (newDesktop & evs' & Hnew & Hrun' & _).
  rewrite Hrun in Hrun'. injection Hrun' as -> _. simpl.
  destruct (DISALLOW_EMPTY_DESKTOPS cfg).
  - by eapply numberToDesktopId_range.
  - rewrite numberToDesktopId_allowEmpty in Hnew. injection Hnew as <-.
    by apply wrapDesktop_range.
Qed.

(** The unit test "forget window switches desktop": window 1 is alone on
    desktop 1, window 2 waits minimized on desktop 0. *)
Example forgetWindow_test :
  fmap (fun r => currentDesktop_ (fst r))
    (forgetWindow (mkConfig 4 true) twoDesktopManager 1 None
       [liveWindow 2 "minimized"])
  = Some 0.
Proof. by vm_compute. Qed.

(** What [forgetWindow] passes as [focusedWinId] is the window that
    [getLastFocused] delivered, not its id, so the second round of
    [applyWindowStates_] never asks for the focus; a switch with the id does. *)
Example forgetWindow_focus_argument :
  (snd <$> forgetWindow (mkConfig 4 true) twoDesktopManager 1
             (Some (liveWindow 2 "minimized")) [liveWindow 2 "minimized"])
  = Some [SaveState 1 (<[2 := normalOn 0]> ∅); GetLastFocused; GetAll;
          OnChange 0; SaveState 0 (<[2 := normalOn 0]> ∅);
          Update 2 (mkUpdateInfo (Some "normal") (Some true) None None None None);
          Update 2 (mkUpdateInfo None None (Some 0) (Some 0) (Some 800) (Some 600));
          Callback]
  ∧ (snd <$> switchToDesktop (mkConfig 4 true)
               (mkManager 1 (<[2 := normalOn 0]> ∅))
               [liveWindow 2 "minimized"] 1 (JsNumber 2) false)
    = Some [GetAll; OnChange 0; SaveState 0 (<[2 := normalOn 0]> ∅);
            Update 2 (mkUpdateInfo (Some "normal") (Some true) None None None None);
            Update 2 (mkUpdateInfo None (Some true) (Some 0) (Some 0) (Some 800)
                        (Some 600));
            Callback].
Proof. split; by vm_compute. Qed.

(** * Further properties of the code *)

(** ** numberToDesktopId_: the idioms of its callers *)

Lemma clampAndShift_in_range n cur r :
  0 ≤ r < n → snd (clampAndShift n cur r) = r.
Proof.
  intros Hr. unfold clampAndShift.
  destruct (Z.gtb_spec cur (n - 1)); [|done]. simpl.
  destruct (Z.gtb_spec r cur); [lia|].
  destruct (Z.gtb_spec r (n - 1)); [lia | done].
Qed.

(** X1: a request that is a valid desktop index already is returned as it
    is, whatever the current desktop; so normalizing a second time, as
    [switchToDesktop] does, changes nothing. *)
Theorem numberToDesktopId_fixes_valid (n : Z) (this : VirtualDesktopManager)
    (req r : Z) :
  1 ≤ n →
  (0 ≤ req < n → numberToDesktopId_ n this req false = Some req)
  ∧ (numberToDesktopId_ n this req false = Some r →
     numberToDesktopId_ n this r false = Some r).
Proof.
  intros Hn.
  assert (Hfix : ∀ q, 0 ≤ q < n → numberToDesktopId_ n this q false = Some q).
  { intros q Hq. rewrite numberToDesktopId_allowEmpty.
    rewrite clampAndShift_in_range by done. by rewrite wrapDesktop_id. }
  split; [apply Hfix|].
  rewrite numberToDesktopId_allowEmpty. intros [= <-].
  apply Hfix. by apply wrapDesktop_range.
Qed.

Lemma numberToDesktopId_fixes_valid_witness :
  1 ≤ 4 ∧ numberToDesktopId_ 4 (mkManager 9 ∅) 2 false = Some 2.
Proof.
  split; [lia|].
  destruct (numberToDesktopId_fixes_valid 4 (mkManager 9 ∅) 2 2 ltac:(lia))
    as [Hvalid _].
  apply Hvalid. lia.
Defined.

(** X2: the "current desktop plus or minus one" requests of the message
    handler.  While the current desktop is a valid index they go to the next
    and to the previous desktop, cyclically.  When the desktop count has
    dropped below the current desktop, "next" goes to desktop 0 and
    "previous", like asking for the current desktop itself, goes to the last
    desktop. *)
Theorem numberToDesktopId_neighbours (n : Z) (this : VirtualDesktopManager) :
  1 ≤ n →
  let cur := currentDesktop_ this in
  (cur ≤ n - 1 →
   numberToDesktopId_ n this (cur + 1) false = Some ((cur + 1) mod n)
   ∧ numberToDesktopId_ n this (cur - 1) false = Some ((cur - 1) mod n))
  ∧ (n - 1 < cur →
     numberToDesktopId_ n this (cur + 1) false = Some 0
     ∧ numberToDesktopId_ n this (cur - 1) false = Some (n - 1)
     ∧ numberToDesktopId_ n this cur false = Some (n - 1)).
Proof.
  intros Hn cur. split.
  - intros Hvalid. rewrite !numberToDesktopId_allowEmpty. fold cur.
    unfold clampAndShift. destruct (Z.gtb_spec cur (n - 1)); [lia|]. simpl.
    by rewrite !wrapDesktop_mod.
  - intros Hgone. rewrite !numberToDesktopId_allowEmpty. fold cur.
    unfold clampAndShift. destruct (Z.gtb_spec cur (n - 1)); [|lia]. simpl.
    destruct (Z.gtb_spec (cur + 1) cur); [|lia].
    destruct (Z.gtb_spec (cur - 1) cur); [lia|].
    destruct (Z.gtb_spec cur cur); [lia|].
    split; [|split].
    + rewrite wrapDesktop_mod by done.
      replace (cur + 1 - (cur - (n - 1))) with n by lia.
      by rewrite Z.mod_same by lia.
    + destruct (Z.gtb_spec (cur - 1) (n - 1)).
      * rewrite wrapDesktop_id; [done | done | lia].
      * replace (cur - 1) with (n - 1) by lia.
        rewrite wrapDesktop_id; [done | done | lia].
    + rewrite wrapDesktop_id; [done | done | lia].
Qed.

Lemma numberToDesktopId_neighbours_witness :
  1 ≤ 2
  ∧ numberToDesktopId_ 2 (mkManager 3 ∅) (3 + 1) false = Some 0
  ∧ numberToDesktopId_ 2 (mkManager 3 ∅) (3 - 1) false = Some (2 - 1).
Proof.
  split; [lia|].
  destruct (numberToDesktopId_neighbours 2 (mkManager 3 ∅) ltac:(lia))
    as [_ Hgone].
  destruct (Hgone ltac:(simpl; lia)) as (Hnext & Hprev & _).
  split; [exact Hnext | exact Hprev].
Defined.

(** ** numberToDesktopId_ with the empty-desktop rule *)

Lemma adjustLoop_here fuel n clamped direction counts r :
  hasWindows counts r = true →
  adjustLoop fuel n clamped direction counts r = Some r.
Proof. intros Hr. destruct fuel; simpl; by rewrite Hr. Qed.

Lemma numberToDesktopId_keeps_nonEmpty n this req r :
  numberToDesktopId_ n this req false = Some r →
  nonEmptyDesktop (windowStates_ this) r →
  numberToDesktopId_ n this req true = Some r.
Proof.
  rewrite numberToDesktopId_allowEmpty. intros [= <-] Hfull.
  rewrite numberToDesktopId_loop. apply adjustLoop_here.
  by apply hasWindows_nonEmpty.
Qed.

(** X3: the empty-desktop rule leaves a request alone whose desktop holds a
    remembered window that is not minimized: the call returns what it
    returns without the rule. *)
Theorem numberToDesktopId_no_detour (n : Z) (this : VirtualDesktopManager)
    (req r : Z) :
  numberToDesktopId_ n this req false = Some r →
  nonEmptyDesktop (windowStates_ this) r →
  numberToDesktopId_ n this req true = Some r.
Proof. apply numberToDesktopId_keeps_nonEmpty. Qed.

Lemma numberToDesktopId_no_detour_witness :
  numberToDesktopId_ 4 gapManager 6 false = Some 2
  ∧ nonEmptyDesktop (windowStates_ gapManager) 2
  ∧ numberToDesktopId_ 4 gapManager 6 true = Some 2.
Proof.
  assert (Hfull : nonEmptyDesktop (windowStates_ gapManager) 2).
  { exists 9, (normalOn 2). by vm_compute. }
  split; [reflexivity|]. split; [exact Hfull|].
  apply (numberToDesktopId_no_detour 4 gapManager 6 2); [reflexivity | exact Hfull].
Defined.

(** X4: when no desktop in range holds a remembered window that is not
    minimized, every request ends on the clamped current desktop: with no
    window left the desktop cannot be changed. *)
Theorem numberToDesktopId_all_empty (n : Z) (this : VirtualDesktopManager)
    (req : Z) :
  1 ≤ n → 0 ≤ currentDesktop_ this →
  (∀ d, 0 ≤ d < n → ¬ nonEmptyDesktop (windowStates_ this) d) →
  numberToDesktopId_ n this req true
  = Some (Z.min (currentDesktop_ this) (n - 1)).
Proof.
  intros Hn Hcur Hempty.
  destruct (numberToDesktopId_total n Hn this Hcur req) as [r Hr].
  rewrite Hr. f_equal.
  pose proof (numberToDesktopId_range n Hn this req r Hr) as Hrange.
  destruct (numberToDesktopId_walk n Hn this req r Hr)
    as (k & _ & _ & _ & _ & [Hfull | [_ Hback]]); [|done].
  by destruct (Hempty r Hrange).
Qed.

Lemma numberToDesktopId_all_empty_witness :
  1 ≤ 4 ∧ 0 ≤ currentDesktop_ (mkManager 2 ∅)
  ∧ numberToDesktopId_ 4 (mkManager 2 ∅) 3 true = Some (Z.min 2 (4 - 1)).
Proof.
  split; [lia|]. split; [simpl; lia|].
  apply (numberToDesktopId_all_empty 4 (mkManager 2 ∅) 3); [lia | simpl; lia |].
  intros d _ (id & s & Hs & _). simpl in Hs. by rewrite lookup_empty in Hs.
Defined.

(** ** What updateWindowStates_ remembers *)

Lemma refreshWindow_value cur old acc win :
  refreshWindow cur old acc win
  = <[cw_id win := refreshedState cur old win]> acc.
Proof.
  unfold refreshWindow, refreshedState.
  destruct (old !! cw_id win) as [s|]; [|done]. by destruct (_ || _).
Qed.

(** The state remembered for an id is the one written for the last window
    of the list that has the id. *)
Lemma refreshWindows_some cur old windows (id : Z) :
  id ∈ cw_id <$> windows →
  ∃ win, win ∈ windows ∧ cw_id win = id
         ∧ fold_left (refreshWindow cur old) windows ∅ !! id
           = Some (refreshedState cur old win).
Proof.
  induction windows as [|win windows IH] using rev_ind.
  - by intros ?%elem_of_nil.
  - rewrite fmap_app, fold_left_app. simpl. rewrite refreshWindow_value.
    intros Hin. destruct (decide (cw_id win = id)) as [<- | Hne].
    + exists win. rewrite lookup_insert_eq.
      split; [apply elem_of_app; right; by left | done].
    + rewrite lookup_insert_ne by done.
      apply elem_of_app in Hin as [Hin | Hin].
      * destruct (IH Hin) as (w0 & Hw0 & Hid & Hlook).
        exists w0. split; [apply elem_of_app; by left | done].
      * apply list_elem_of_singleton in Hin. congruence.
Qed.

Lemma refreshWindows_nodup cur old windows win :
  NoDup (cw_id <$> windows) → win ∈ windows →
  fold_left (refreshWindow cur old) windows ∅ !! cw_id win
  = Some (refreshedState cur old win).
Proof.
  intros Hnd Hin. rewrite (refreshWindows_last cur old windows ∅ win Hnd Hin).
  by rewrite refreshWindow_value, lookup_insert_eq.
Qed.

(** X5: what the refresh remembers for a window of a list without repeated
    ids.  A window that is not minimized is remembered on the current
    desktop with its live state and bounds, and so is a window that was
    unknown or was remembered on the current desktop; a minimized window
    that was remembered on another desktop keeps what was remembered. *)
Theorem updateWindowStates_remembers (this : VirtualDesktopManager)
    (windows : list ChromeWindow) (win : ChromeWindow) :
  NoDup (cw_id <$> windows) → win ∈ windows →
  let cur := currentDesktop_ this in
  let remembered := windowStates_ (updateWindowStates_ this windows) in
  (cw_state win ≠ MINIMIZED_STATE_ →
   remembered !! cw_id win = Some (freshState cur win))
  ∧ (windowStates_ this !! cw_id win = None →
     remembered !! cw_id win = Some (freshState cur win))
  ∧ (∀ s, windowStates_ this !! cw_id win = Some s →
       (desktop s = cur →
        remembered !! cw_id win = Some (freshState cur win))
       ∧ (desktop s ≠ cur → cw_state win = MINIMIZED_STATE_ →
          remembered !! cw_id win = Some s)).
Proof.
  intros Hnd Hin cur remembered.
  assert (Hlook : remembered !! cw_id win
                  = Some (refreshedState cur (windowStates_ this) win)).
  { by apply refreshWindows_nodup. }
  rewrite Hlook. unfold refreshedState. split; [|split].
  - intros Hvisible%string_neqb_true.
    destruct (windowStates_ this !! cw_id win); [|done].
    by rewrite Hvisible, orb_true_r.
  - by intros ->.
  - intros s ->. split.
    + intros ->. by rewrite Z.eqb_refl.
    + intros Hother Hmin.
      destruct (Z.eqb_spec (desktop s) cur); [done|]. simpl.
      unfold string_neqb. by rewrite bool_decide_eq_true_2.
Qed.

Lemma updateWindowStates_remembers_witness :
  NoDup (cw_id <$> [liveWindow 7 "normal"; liveWindow 9 "minimized"])
  ∧ liveWindow 9 "minimized" ∈ [liveWindow 7 "normal"; liveWindow 9 "minimized"]
  ∧ windowStates_
      (updateWindowStates_ gapManager
         [liveWindow 7 "normal"; liveWindow 9 "minimized"]) !! 9
    = Some (normalOn 2).
Proof.
  assert (Hnd : NoDup (cw_id <$> [liveWindow 7 "normal";
                                  liveWindow 9 "minimized"])).
  { simpl. apply NoDup_cons. split; [|apply NoDup_singleton].
    intros H%list_elem_of_singleton. discriminate H. }
  assert (Hin : liveWindow 9 "minimized"
                ∈ [liveWindow 7 "normal"; liveWindow 9 "minimized"]).
  { right. left. }
  split; [exact Hnd|]. split; [exact Hin|].
  destruct (updateWindowStates_remembers gapManager _ _ Hnd Hin)
    as (_ & _ & Hknown).
  destruct (Hknown (normalOn 2) ltac:(by vm_compute)) as [_ Hkept].
  apply Hkept; [simpl; lia | reflexivity].
Defined.

Lemma refreshedState_again cur old win v :
  v = refreshedState cur old win →
  ∀ again, again !! cw_id win = Some v → refreshedState cur again win = v.
Proof.
  intros Hv again Hagain. unfold refreshedState at 1. rewrite Hagain.
  subst v. unfold refreshedState.
  destruct (old !! cw_id win) as [s|].
  - destruct ((desktop s =? cur) || string_neqb (cw_state win) MINIMIZED_STATE_)
      eqn:Hcond.
    + simpl. by rewrite Z.eqb_refl.
    + by rewrite Hcond.
  - simpl. by rewrite Z.eqb_refl.
Qed.

(** X6: refreshing a second time from the same list of windows (without
    repeated ids) changes nothing. *)
Theorem updateWindowStates_idempotent (this : VirtualDesktopManager)
    (windows : list ChromeWindow) :
  NoDup (cw_id <$> windows) →
  updateWindowStates_ (updateWindowStates_ this windows) windows
  = updateWindowStates_ this windows.
Proof.
  intros Hnd. unfold updateWindowStates_ at 1 3. f_equal.
  cbn [currentDesktop_ windowStates_ updateWindowStates_].
  apply map_eq. intros id.
  destruct (decide (id ∈ cw_id <$> windows)) as [Hin | Hout].
  - apply list_elem_of_fmap in Hin as (win & -> & Hwin).
    rewrite !refreshWindows_nodup by done. f_equal.
    eapply refreshedState_again; [done|]. by apply refreshWindows_nodup.
  - assert (Hnone : ∀ old,
              fold_left (refreshWindow (currentDesktop_ this) old) windows ∅
                !! id = None).
    { intros old. apply eq_None_not_Some.
      rewrite refreshWindows_lookup, lookup_empty.
      intros [[? [=]] | ?]; done. }
    by rewrite !Hnone.
Qed.

Lemma updateWindowStates_idempotent_witness :
  NoDup (cw_id <$> [liveWindow 7 "normal"; liveWindow 9 "minimized"])
  ∧ updateWindowStates_
      (updateWindowStates_ gapManager
         [liveWindow 7 "normal"; liveWindow 9 "minimized"])
      [liveWindow 7 "normal"; liveWindow 9 "minimized"]
    = updateWindowStates_ gapManager
        [liveWindow 7 "normal"; liveWindow 9 "minimized"].
Proof.
  assert (Hnd : NoDup (cw_id <$> [liveWindow 7 "normal";
                                  liveWindow 9 "minimized"])).
  { simpl. apply NoDup_cons. split; [|apply NoDup_singleton].
    intros H%list_elem_of_singleton. discriminate H. }
  split; [exact Hnd|].
  apply (updateWindowStates_idempotent gapManager _ Hnd).
Defined.

(** ** What one call of the manager does to the windows *)

Lemma forEachWindow_events body windows evs e :
  forEachWindow body windows = Some evs → e ∈ evs →
  ∃ win evs', win ∈ windows ∧ body win = Some evs' ∧ e ∈ evs'.
Proof.
  revert evs. induction windows as [|win windows IH]; intros evs; simpl.
  - intros [= <-] ?%elem_of_nil. done.
  - destruct (body win) as [evs1|] eqn:Hbody; [|discriminate]. simpl.
    destruct (forEachWindow body windows) as [more|]; [|discriminate]. simpl.
    intros [= <-] [Hin | Hin]%elem_of_app.
    + exists win, evs1. split; [by left | done].
    + destruct (IH more eq_refl Hin) as (w0 & evs' & Hw0 & Hb & He).
      exists w0, evs'. split; [by right | done].
Qed.

Lemma forEachWindow_total_inv body windows evs :
  forEachWindow body windows = Some evs →
  ∀ win, win ∈ windows → is_Some (body win).
Proof.
  revert evs. induction windows as [|w0 windows IH]; intros evs; simpl.
  - intros _ win ?%elem_of_nil. done.
  - destruct (body w0) as [evs1|] eqn:Hbody; [|discriminate]. simpl.
    destruct (forEachWindow body windows) as [more|]; [|discriminate].
    intros _ win [-> | Hin]%elem_of_cons; [by rewrite Hbody | by eapply IH].
Qed.

Lemma restoreState_events this win evs e :
  restoreState this win = Some evs → e ∈ evs →
  ∃ s, windowStates_ this !! cw_id win = Some s
       ∧ ((desktop s = currentDesktop_ this
           ∧ e = Update (cw_id win) (restoreStateInfo s))
          ∨ (desktop s ≠ currentDesktop_ this
             ∧ cw_state win ≠ MINIMIZED_STATE_
             ∧ e = Update (cw_id win) minimizeInfo)).
Proof.
  unfold restoreState. destruct (windowStates_ this !! cw_id win) as [s|];
    [|discriminate]. simpl.
  destruct (Z.eqb_spec (desktop s) (currentDesktop_ this)) as [Hon | Hoff].
  - intros [= <-] ->%list_elem_of_singleton. exists s. split; [done|]. by left.
  - case_bool_decide as Hmin.
    + intros [= <-] ?%elem_of_nil. done.
    + intros [= <-] ->%list_elem_of_singleton. exists s. split; [done|].
      by right.
Qed.

Lemma restoreBounds_events this focusedWinId win evs e :
  restoreBounds this focusedWinId win = Some evs → e ∈ evs →
  ∃ s, windowStates_ this !! cw_id win = Some s
       ∧ desktop s = currentDesktop_ this
       ∧ state s ≠ MINIMIZED_STATE_
       ∧ e = Update (cw_id win)
               (restoreBoundsInfo s (looseEq (cw_id win) focusedWinId)).
Proof.
  unfold restoreBounds. destruct (windowStates_ this !! cw_id win) as [s|];
    [|discriminate]. simpl.
  destruct (Z.eqb_spec (desktop s) (currentDesktop_ this)) as [Hon | Hoff];
    simpl; [|by intros [= <-] ?%elem_of_nil].
  destruct (string_neqb (state s) MINIMIZED_STATE_) eqn:Hvis;
    [|by intros [= <-] ?%elem_of_nil].
  apply string_neqb_true in Hvis.
  intros [= <-] ->%list_elem_of_singleton. by exists s.
Qed.

(** The calls of [applyWindowStates_]: updates, then the callback. *)
Lemma applyWindowStates_shape this windows focusedWinId applied :
  applyWindowStates_ this windows focusedWinId = Some applied →
  ∃ phase1 phase2,
    forEachWindow (restoreState this) windows = Some phase1
    ∧ forEachWindow (restoreBounds this focusedWinId) windows = Some phase2
    ∧ applied = phase1 ++ phase2 ++ [Callback].
Proof.
  unfold applyWindowStates_.
  destruct (forEachWindow (restoreState this) windows) as [p1|]; [|discriminate].
  simpl.
  destruct (forEachWindow (restoreBounds this focusedWinId) windows) as [p2|];
    [|discriminate].
  simpl. intros [= <-]. by exists p1, p2.
Qed.

(** The calls of [switchToDesktop]: notify and save, then either the
    callback alone or the calls of [applyWindowStates_]. *)
Lemma switchToDesktop_shape cfg this windows target focusedWinId sendToDesktop
    this' evs :
  switchToDesktop cfg this windows target focusedWinId sendToDesktop
  = Some (this', evs) →
  ∃ applied,
    evs = [GetAll; OnChange (currentDesktop_ this');
           SaveState (currentDesktop_ this') (windowStates_ this')] ++ applied
    ∧ (applied = [Callback]
       ∨ applyWindowStates_ this' windows focusedWinId = Some applied).
Proof.
  unfold switchToDesktop. rewrite numberToDesktopId_allowEmpty. simpl.
  destruct (numberToDesktopId_ _ _ _ (DISALLOW_EMPTY_DESKTOPS cfg))
    as [newDesktop|]; [|discriminate].
  simpl. destruct (negb _).
  - destruct (applyWindowStates_ _ windows focusedWinId) as [applied|] eqn:Happ;
      [|discriminate].
    simpl. intros [= <- <-]. exists applied. split; [done | by right].
  - intros [= <- <-]. exists [Callback]. split; [done | by left].
Qed.

Lemma forEachWindow_gets body windows evs win evs' e :
  forEachWindow body windows = Some evs → win ∈ windows →
  body win = Some evs' → e ∈ evs' → e ∈ evs.
Proof.
  revert evs. induction windows as [|w0 windows IH]; intros evs; simpl.
  - intros _ ?%elem_of_nil. done.
  - destruct (body w0) as [evs1|] eqn:Hbody; [|discriminate]. simpl.
    destruct (forEachWindow body windows) as [more|]; [|discriminate]. simpl.
    intros [= <-] [-> | Hin]%elem_of_cons Hb He; apply elem_of_app.
    + left. by simplify_eq.
    + right. by apply (IH more).
Qed.

Lemma forEachWindow_Forall (P : Event → Prop) body windows evs :
  (∀ win evs', body win = Some evs' → Forall P evs') →
  forEachWindow body windows = Some evs → Forall P evs.
Proof.
  intros Hbody Hrun. apply Forall_forall. intros e He.
  destruct (forEachWindow_events _ _ _ _ Hrun He) as (win & evs' & _ & Hb & Hin).
  specialize (Hbody win evs' Hb). rewrite Forall_forall in Hbody. by apply Hbody.
Qed.

(** The two ways [switchToDesktop] ends, told apart by whether the current
    desktop changed. *)
Lemma switchToDesktop_branches cfg this windows target focusedWinId
    sendToDesktop this' evs :
  switchToDesktop cfg this windows target focusedWinId sendToDesktop
  = Some (this', evs) →
  let notify := [GetAll; OnChange (currentDesktop_ this');
                 SaveState (currentDesktop_ this') (windowStates_ this')] in
  (currentDesktop_ this' = currentDesktop_ this ∧ evs = notify ++ [Callback])
  ∨ (currentDesktop_ this' ≠ currentDesktop_ this
     ∧ ∃ applied,
         applyWindowStates_ this' windows focusedWinId = Some applied
         ∧ evs = notify ++ applied).
Proof.
  unfold switchToDesktop. rewrite numberToDesktopId_allowEmpty. simpl.
  destruct (numberToDesktopId_ _ _ _ (DISALLOW_EMPTY_DESKTOPS cfg))
    as [newDesktop|]; [|discriminate].
  simpl.
  match goal with
  | |- context [negb (newDesktop =? currentDesktop_ ?m)] =>
      replace (currentDesktop_ m) with (currentDesktop_ this)
        by (by destruct sendToDesktop)
  end.
  destruct (Z.eqb_spec newDesktop (currentDesktop_ this)) as [Heq | Hne]; simpl.
  - intros [= <- <-]. left. done.
  - destruct (applyWindowStates_ _ windows focusedWinId) as [applied|] eqn:Happ;
      [|discriminate].
    simpl. intros [= <- <-]. right. split; [done|]. by exists applied.
Qed.

(** X7: the updates of a switch.  When the current desktop stays what it
    was, no window is updated.  When it changes, the calls are the
    notification and the saving, a first round of updates that set states
    only, a second round that sets positions and sizes only, and the
    callback; every window of the list just queried that is remembered on
    the new current desktop gets its remembered state in the first round
    (with the focus unless that state is minimized) and, if that state is
    not minimized, its remembered bounds in the second (with the focus if
    it is the focused window); every window of the list that is remembered
    on another desktop and is not minimized yet gets minimized in the first
    round.  No other update is issued: every update goes to a window of the
    list, and a window remembered on another desktop is at most minimized,
    neither its bounds nor its focus being touched. *)
Theorem switchToDesktop_updates (cfg : Config) (this : VirtualDesktopManager)
    (windows : list ChromeWindow) (target : Z) (focusedWinId : JsValue)
    (sendToDesktop : bool) (this' : VirtualDesktopManager)
    (evs : list Event) :
  switchToDesktop cfg this windows target focusedWinId sendToDesktop
  = Some (this', evs) →
  (currentDesktop_ this' = currentDesktop_ this →
   List.filter isUpdate evs = [])
  ∧ (currentDesktop_ this' ≠ currentDesktop_ this →
     ∃ phase1 phase2,
       evs = [GetAll; OnChange (currentDesktop_ this');
              SaveState (currentDesktop_ this') (windowStates_ this')]
             ++ phase1 ++ phase2 ++ [Callback]
       ∧ Forall (fun e => ∃ id info,
                   e = Update id info ∧ is_Some (ui_state info)
                   ∧ ui_left info = None ∧ ui_top info = None
                   ∧ ui_width info = None ∧ ui_height info = None) phase1
       ∧ Forall (fun e => ∃ id info,
                   e = Update id info ∧ ui_state info = None
                   ∧ is_Some (ui_left info) ∧ is_Some (ui_top info)
                   ∧ is_Some (ui_width info) ∧ is_Some (ui_height info)) phase2
       ∧ ∀ win, win ∈ windows →
           ∃ s, windowStates_ this' !! cw_id win = Some s
                ∧ (desktop s = currentDesktop_ this' →
                   Update (cw_id win) (restoreStateInfo s) ∈ phase1
                   ∧ (state s ≠ MINIMIZED_STATE_ →
                      Update (cw_id win)
                        (restoreBoundsInfo s (looseEq (cw_id win) focusedWinId))
                      ∈ phase2))
                ∧ (desktop s ≠ currentDesktop_ this' →
                   cw_state win ≠ MINIMIZED_STATE_ →
                   Update (cw_id win) minimizeInfo ∈ phase1))
  ∧ (∀ id info, Update id info ∈ evs →
     ∃ win s,
       win ∈ windows ∧ cw_id win = id ∧ windowStates_ this' !! id = Some s
       ∧ ((desktop s = currentDesktop_ this'
           ∧ (info = restoreStateInfo s
              ∨ (state s ≠ MINIMIZED_STATE_
                 ∧ info = restoreBoundsInfo s (looseEq id focusedWinId))))
          ∨ (desktop s ≠ currentDesktop_ this'
             ∧ cw_state win ≠ MINIMIZED_STATE_
             ∧ info = minimizeInfo))).
Proof.
  intros Hrun.
  destruct (switchToDesktop_branches _ _ _ _ _ _ _ _ Hrun)
    as [[Hsame ->] | (Hchanged & applied & Happlied & ->)].
  { split; [done|]. split; [done|]. intros id info Hin.
    repeat (apply elem_of_cons in Hin as [[=] | Hin]). by apply elem_of_nil in Hin. }
  apply applyWindowStates_shape in Happlied as (p1 & p2 & Hp1 & Hp2 & ->).
  split; [done|]. split.
  - intros _. exists p1, p2. split; [done|]. split; [|split].
    + eapply forEachWindow_Forall; [|exact Hp1].
      intros win evs' H. apply Forall_forall. intros e He.
      destruct (restoreState_events _ _ _ _ H He)
        as (s & _ & [[_ ->] | (_ & _ & ->)]);
        eexists _, _; (split; [done|]); simpl; eauto.
    + eapply forEachWindow_Forall; [|exact Hp2].
      intros win evs' H. apply Forall_forall. intros e He.
      destruct (restoreBounds_events _ _ _ _ _ H He) as (s & _ & _ & _ & ->).
      eexists _, _. split; [done|]. simpl. eauto 10.
    + intros win Hwin.
      destruct (forEachWindow_total_inv _ _ _ Hp1 win Hwin) as [evs1 Hb1].
      destruct (forEachWindow_total_inv _ _ _ Hp2 win Hwin) as [evs2 Hb2].
      pose proof Hb1 as Hb1'. pose proof Hb2 as Hb2'.
      unfold restoreState in Hb1'. unfold restoreBounds in Hb2'.
      destruct (windowStates_ this' !! cw_id win) as [s|] eqn:Hs;
        [|discriminate]. simpl in Hb1', Hb2'.
      exists s. split; [done|]. split.
      * intros Hon. apply Z.eqb_eq in Hon as Hon'. rewrite Hon' in Hb1', Hb2'.
        simpl in Hb2'. split.
        -- eapply forEachWindow_gets; [exact Hp1 | exact Hwin | exact Hb1 |].
           injection Hb1' as <-. by left.
        -- intros Hvis. apply string_neqb_true in Hvis. rewrite Hvis in Hb2'.
           eapply forEachWindow_gets; [exact Hp2 | exact Hwin | exact Hb2 |].
           injection Hb2' as <-. by left.
      * intros Hoff Hlive. apply Z.eqb_neq in Hoff. rewrite Hoff in Hb1'.
        rewrite bool_decide_eq_false_2 in Hb1' by done.
        eapply forEachWindow_gets; [exact Hp1 | exact Hwin | exact Hb1 |].
        injection Hb1' as <-. by left.
  - intros id info Hin.
    apply elem_of_app in Hin as [Hin | Hin].
    { repeat (apply elem_of_cons in Hin as [[=] | Hin]).
      by apply elem_of_nil in Hin. }
    apply elem_of_app in Hin as [Hin | Hin];
      [|apply elem_of_app in Hin as [Hin | Hin]].
    + destruct (forEachWindow_events _ _ _ _ Hp1 Hin)
        as (win & evs' & Hwin & Hb & He).
      destruct (restoreState_events _ _ _ _ Hb He)
        as (s & Hs & [[Hon [= -> ->]] | (Hoff & Hlive & [= -> ->])]).
      * exists win, s. repeat split; try done. left. split; [done | by left].
      * exists win, s. repeat split; try done. by right.
    + destruct (forEachWindow_events _ _ _ _ Hp2 Hin)
        as (win & evs' & Hwin & Hb & He).
      destruct (restoreBounds_events _ _ _ _ _ Hb He)
        as (s & Hs & Hon & Hvis & [= -> ->]).
      exists win, s. repeat split; try done. left. split; [done | by right].
    + apply list_elem_of_singleton in Hin. discriminate Hin.
Qed.

Lemma switchToDesktop_updates_witness :
  ∃ phase1 phase2,
    [GetAll; OnChange 2; SaveState 2 (windowStates_ gapManager);
     Update 7 minimizeInfo; Update 9 (restoreStateInfo (normalOn 2));
     Update 9 (restoreBoundsInfo (normalOn 2) true); Callback]
    = [GetAll; OnChange 2; SaveState 2 (windowStates_ gapManager)]
      ++ phase1 ++ phase2 ++ [Callback]
    ∧ Update 7 minimizeInfo ∈ phase1
    ∧ Update 9 (restoreStateInfo (normalOn 2)) ∈ phase1
    ∧ Update 9 (restoreBoundsInfo (normalOn 2) true) ∈ phase2.
Proof.
  destruct (switchToDesktop_updates (mkConfig 4 true) gapManager
              [liveWindow 7 "normal"; liveWindow 9 "minimized"] 2 (JsNumber 9)
              false (mkManager 2 (windowStates_ gapManager))
              [GetAll; OnChange 2; SaveState 2 (windowStates_ gapManager);
               Update 7 minimizeInfo; Update 9 (restoreStateInfo (normalOn 2));
               Update 9 (restoreBoundsInfo (normalOn 2) true); Callback])
    as (_ & Hchanged & _).
  { by vm_compute. }
  destruct Hchanged as (p1 & p2 & Hevs & _ & _ & Hgets); [simpl; lia|].
  exists p1, p2. split; [exact Hevs|].
  destruct (Hgets (liveWindow 7 "normal") ltac:(by left))
    as (s7 & Hs7 & _ & Hoff).
  destruct (Hgets (liveWindow 9 "minimized") ltac:(by right; left))
    as (s9 & Hs9 & Hon & _).
  vm_compute in Hs7. injection Hs7 as <-.
  vm_compute in Hs9. injection Hs9 as <-.
  destruct (Hon eq_refl) as [Hstate Hbounds].
  split; [by apply Hoff|]. split; [exact Hstate|].
  by apply Hbounds.
Defined.

(** ** Forgetting and sending a window *)

(** X8: after [forgetWindow(winId)] the desktop of [winId] is unknown,
    unless the empty-desktop policy is on and the window provider still
    lists the window: then the switch that follows learns it anew, on the
    desktop that was current. *)
Theorem forgetWindow_forgets (cfg : Config) (this : VirtualDesktopManager)
    (winId : Z) (lastFocused : option ChromeWindow)
    (windows : list ChromeWindow) :
  1 ≤ desktops cfg → 0 ≤ currentDesktop_ this →
  ∃ this' evs,
    forgetWindow cfg this winId lastFocused windows = Some (this', evs)
    ∧ (DISALLOW_EMPTY_DESKTOPS cfg = false ∨ winId ∉ cw_id <$> windows →
       getDesktopOfWindow this' winId = None)
    ∧ (DISALLOW_EMPTY_DESKTOPS cfg = true → winId ∈ cw_id <$> windows →
       getDesktopOfWindow this' winId = Some (currentDesktop_ this)).
Proof.
  intros Hn Hcur. unfold forgetWindow, getDesktopOfWindow.
  destruct (DISALLOW_EMPTY_DESKTOPS cfg) eqn:Hpolicy.
  - cbn [currentDesktop_ windowStates_].
    set (forgotten := mkManager _ _).
    set (win := match lastFocused with Some cw => JsWindow cw | None => JsNull end).
    destruct (switchToDesktop_unfold cfg forgotten windows
                (currentDesktop_ this) win false Hn Hcur)
      as (newDesktop & evs & _ & Hrun & _).
    rewrite Hrun. simpl. eexists _, _. split; [done|]. simpl.
    split.
    + intros [[=] | Hgone].
      assert (Hnone : fold_left
                (refreshWindow (currentDesktop_ this)
                   (delete winId (windowStates_ this))) windows ∅ !! winId
                = None).
      { apply eq_None_not_Some. rewrite refreshWindows_lookup, lookup_empty.
        intros [[? [=]] | ?]; done. }
      by rewrite Hnone.
    + intros _ Hlisted.
      destruct (refreshWindows_some (currentDesktop_ this)
                  (delete winId (windowStates_ this)) windows winId Hlisted)
        as (w0 & _ & Hid & ->).
      unfold refreshedState. rewrite Hid, lookup_delete_eq. done.
  - eexists _, _. split; [done|]. simpl. split; [|discriminate].
    intros _. by rewrite lookup_delete_eq.
Qed.

Lemma forgetWindow_forgets_witness :
  1 ≤ desktops (mkConfig 4 true) ∧ 0 ≤ currentDesktop_ twoDesktopManager
  ∧ ∃ this' evs,
      forgetWindow (mkConfig 4 true) twoDesktopManager 1 None
        [liveWindow 2 "minimized"] = Some (this', evs)
      ∧ getDesktopOfWindow this' 1 = None.
Proof.
  split; [simpl; lia|]. split; [simpl; lia|].
  destruct (forgetWindow_forgets (mkConfig 4 true) twoDesktopManager 1 None
              [liveWindow 2 "minimized"] ltac:(simpl; lia) ltac:(simpl; lia))
    as (this' & evs & Hrun & Hgone & _).
  exists this', evs. split; [exact Hrun|]. apply Hgone. right.
  simpl. intros H%list_elem_of_singleton. discriminate H.
Defined.

(** X9: sending a window that is on the screen.  When [switchToDesktop] is
    asked to send the focused window along, and that window is in the list
    just queried (without repeated ids) and is not minimized, the switch
    ends on the normalized target desktop itself, with or without the
    empty-desktop policy, and the window is remembered there. *)
Theorem switchToDesktop_sends (cfg : Config) (this : VirtualDesktopManager)
    (windows : list ChromeWindow) (target : Z) (win : ChromeWindow) :
  1 ≤ desktops cfg → 0 ≤ currentDesktop_ this →
  NoDup (cw_id <$> windows) → win ∈ windows →
  cw_state win ≠ MINIMIZED_STATE_ →
  ∃ this' evs,
    switchToDesktop cfg this windows target (JsNumber (cw_id win)) true
    = Some (this', evs)
    ∧ numberToDesktopId_ (desktops cfg) this target false
      = Some (currentDesktop_ this')
    ∧ getDesktopOfWindow this' (cw_id win) = Some (currentDesktop_ this')
    ∧ nonEmptyDesktop (windowStates_ this') (currentDesktop_ this').
Proof.
  intros Hn Hcur Hnd Hin Hvisible.
  destruct (switchToDesktop_unfold cfg this windows target
              (JsNumber (cw_id win)) true Hn Hcur)
    as (newDesktop & evs & Hnew & Hrun & _).
  set (wrapped := wrapDesktop (desktops cfg)
                    (snd (clampAndShift (desktops cfg) (currentDesktop_ this)
                            target))) in *.
  set (ws := switchedStates cfg this windows target (JsNumber (cw_id win)) true)
    in *.
  assert (Hrange : 0 ≤ wrapped < desktops cfg) by by apply wrapDesktop_range.
  assert (Hsent : ws !! cw_id win
                  = Some (mkWindowState wrapped (cw_state win) (cw_left win)
                            (cw_top win) (cw_width win) (cw_height win))).
  { subst ws. unfold switchedStates, sendWindow. simpl.
    rewrite (refreshWindows_nodup _ _ _ _ Hnd Hin).
    rewrite lookup_insert_eq. f_equal.
    unfold refreshedState.
    apply string_neqb_true in Hvisible.
    destruct (windowStates_ this !! cw_id win); [|done].
    by rewrite Hvisible, orb_true_r. }
  assert (Hfull : nonEmptyDesktop ws wrapped).
  { eexists _, _. split; [exact Hsent|]. done. }
  assert (Hlands : newDesktop = wrapped).
  { assert (Hplain : numberToDesktopId_ (desktops cfg)
                       (mkManager (currentDesktop_ this) ws) wrapped false
                     = Some wrapped).
    { rewrite numberToDesktopId_allowEmpty. simpl.
      rewrite clampAndShift_in_range by done. by rewrite wrapDesktop_id. }
    destruct (DISALLOW_EMPTY_DESKTOPS cfg).
    - rewrite (numberToDesktopId_keeps_nonEmpty _ _ _ _ Hplain Hfull) in Hnew.
      by injection Hnew.
    - rewrite Hplain in Hnew. by injection Hnew. }
  subst newDesktop. eexists _, _. split; [exact Hrun|]. simpl.
  split; [by rewrite numberToDesktopId_allowEmpty|].
  split; [|done]. unfold getDesktopOfWindow. simpl. by rewrite Hsent.
Qed.

Lemma switchToDesktop_sends_witness :
  1 ≤ desktops (mkConfig 4 true) ∧ 0 ≤ currentDesktop_ gapManager
  ∧ NoDup (cw_id <$> [liveWindow 7 "normal"; liveWindow 9 "minimized"])
  ∧ liveWindow 7 "normal" ∈ [liveWindow 7 "normal"; liveWindow 9 "minimized"]
  ∧ cw_state (liveWindow 7 "normal") ≠ MINIMIZED_STATE_
  ∧ ∃ this' evs,
      switchToDesktop (mkConfig 4 true) gapManager
        [liveWindow 7 "normal"; liveWindow 9 "minimized"] 1 (JsNumber 7) true
      = Some (this', evs)
      ∧ getDesktopOfWindow this' 7 = Some (currentDesktop_ this').
Proof.
  assert (Hnd : NoDup (cw_id <$> [liveWindow 7 "normal";
                                  liveWindow 9 "minimized"])).
  { simpl. apply NoDup_cons. split; [|apply NoDup_singleton].
    intros H%list_elem_of_singleton. discriminate H. }
  assert (Hin : liveWindow 7 "normal"
                ∈ [liveWindow 7 "normal"; liveWindow 9 "minimized"]) by left.
  assert (Hvis : cw_state (liveWindow 7 "normal") ≠ MINIMIZED_STATE_) by done.
  split; [simpl; lia|]. split; [simpl; lia|].
  split; [exact Hnd|]. split; [exact Hin|]. split; [exact Hvis|].
  destruct (switchToDesktop_sends (mkConfig 4 true) gapManager _ 1 _
              ltac:(simpl; lia) ltac:(simpl; lia) Hnd Hin Hvis)
    as (this' & evs & Hrun & _ & Hthere & _).
  exists this', evs. split; [exact Hrun | exact Hthere].
Defined.

(** ** The manager over a series of calls *)

Lemma forEachWindow_updates body windows evs :
  (∀ win evs', body win = Some evs' → Forall (fun e => isUpdate e = true) evs') →
  forEachWindow body windows = Some evs →
  Forall (fun e => isUpdate e = true) evs.
Proof.
  intros Hbody Hrun. apply Forall_forall. intros e He.
  destruct (forEachWindow_events _ _ _ _ Hrun He) as (win & evs' & _ & Hb & Hin).
  specialize (Hbody win evs' Hb). rewrite Forall_forall in Hbody. by apply Hbody.
Qed.

Lemma applyWindowStates_updates this windows focusedWinId applied :
  applyWindowStates_ this windows focusedWinId = Some applied →
  ∃ updates, applied = updates ++ [Callback]
             ∧ Forall (fun e => isUpdate e = true) updates.
Proof.
  intros (p1 & p2 & Hp1 & Hp2 & ->)%applyWindowStates_shape.
  exists (p1 ++ p2). split; [by rewrite <- app_assoc|].
  apply Forall_app. split.
  - eapply forEachWindow_updates; [|exact Hp1].
    intros win evs' H. apply Forall_forall. intros e He.
    by destruct (restoreState_events _ _ _ _ H He)
      as (s & _ & [[_ ->] | (_ & _ & ->)]).
  - eapply forEachWindow_updates; [|exact Hp2].
    intros win evs' H. apply Forall_forall. intros e He.
    by destruct (restoreBounds_events _ _ _ _ _ H He) as (s & _ & _ & _ & ->).
Qed.

Lemma updates_no_callback updates :
  Forall (fun e => isUpdate e = true) updates →
  List.filter isCallback updates = []
  ∧ fold_left (fun acc e => match e with
                            | SaveState cur ws => Some (cur, ws)
                            | _ => acc
                            end) updates
    = fun acc => acc.
Proof.
  induction 1 as [|e updates He _ [IH1 IH2]]; [done|].
  destruct e; try discriminate He. simpl. by rewrite IH1, IH2.
Qed.

(** One call: it returns, leaves a current desktop that is not negative,
    calls back once, and what it saved last is the state it leaves. *)
Lemma callManager_spec this c :
  1 ≤ desktops (callConfig c) → 0 ≤ currentDesktop_ this →
  ∃ this' evs,
    callManager this c = Some (this', evs)
    ∧ 0 ≤ currentDesktop_ this'
    ∧ length (List.filter isCallback evs) = 1%nat
    ∧ lastSaved evs = Some (currentDesktop_ this', windowStates_ this').
Proof.
  assert (Hswitch : ∀ cfg this0 windows target focusedWinId sendToDesktop,
            1 ≤ desktops cfg → 0 ≤ currentDesktop_ this0 →
            ∃ this' evs,
              switchToDesktop cfg this0 windows target focusedWinId sendToDesktop
              = Some (this', evs)
              ∧ 0 ≤ currentDesktop_ this'
              ∧ length (List.filter isCallback evs) = 1%nat
              ∧ ∀ before,
                  lastSaved (before ++ evs)
                  = Some (currentDesktop_ this', windowStates_ this')).
  { intros cfg this0 windows target focusedWinId sendToDesktop Hn Hcur.
    destruct (switchToDesktop_unfold cfg this0 windows target focusedWinId
                sendToDesktop Hn Hcur) as (newDesktop & evs & _ & Hrun & _).
    exists (mkManager newDesktop
              (switchedStates cfg this0 windows target focusedWinId sendToDesktop)),
           evs.
    split; [exact Hrun|].
    pose proof (switchToDesktop_valid _ _ _ _ _ _ _ _ Hn Hcur Hrun) as Hvalid.
    split; [lia|].
    destruct (switchToDesktop_shape _ _ _ _ _ _ _ _ Hrun)
      as (applied & -> & Happlied).
    assert (Htail : ∃ updates, applied = updates ++ [Callback]
                      ∧ Forall (fun e => isUpdate e = true) updates).
    { destruct Happlied as [-> | Happlied]; [by exists [] |].
      by eapply applyWindowStates_updates. }
    destruct Htail as (updates & -> & Hupdates).
    destruct (updates_no_callback updates Hupdates) as [Hnone Hkeep].
    split.
    - simpl. by rewrite List.filter_app, Hnone.
    - intros before. unfold lastSaved.
      rewrite !fold_left_app. simpl. by rewrite Hkeep. }
  intros Hn Hcur. destruct c as [cfg windows target focusedWinId sendToDesktop
                                | cfg winId lastFocused windows]; simpl in *.
  - destruct (Hswitch cfg this windows target focusedWinId sendToDesktop Hn Hcur)
      as (this' & evs & Hrun & Hpos & Hcalls & Hsaved).
    exists this', evs. repeat split; try done. apply (Hsaved []).
  - unfold forgetWindow. destruct (DISALLOW_EMPTY_DESKTOPS cfg).
    + cbn [currentDesktop_ windowStates_].
      destruct (Hswitch cfg
                  (mkManager (currentDesktop_ this)
                     (delete winId (windowStates_ this)))
                  windows (currentDesktop_ this)
                  (match lastFocused with
                   | Some cw => JsWindow cw
                   | None => JsNull
                   end) false Hn Hcur)
        as (this' & evs & Hrun & Hpos & Hcalls & Hsaved).
      rewrite Hrun. simpl. eexists _, _. split; [done|].
      split; [done|]. split; [done|].
      apply (Hsaved [SaveState (currentDesktop_ this)
                       (delete winId (windowStates_ this)); GetLastFocused]).
    + eexists _, _. split; [done|]. by repeat split.
Qed.

Lemma lastSaved_from evs : ∀ acc,
  fold_left (fun acc e => match e with
                          | SaveState cur ws => Some (cur, ws)
                          | _ => acc
                          end) evs acc
  = match lastSaved evs with Some saved => Some saved | None => acc end.
Proof.
  unfold lastSaved. induction evs as [|e evs IH]; intros acc; [done|].
  destruct e; simpl; try apply IH.
  rewrite (IH (Some (cur, ws))).
  by destruct (fold_left _ evs None).
Qed.

Lemma lastSaved_app evs1 evs2 saved :
  lastSaved evs2 = Some saved → lastSaved (evs1 ++ evs2) = Some saved.
Proof.
  intros Hsaved. unfold lastSaved at 1. rewrite fold_left_app, lastSaved_from.
  by rewrite Hsaved.
Qed.

Lemma callsManager_spec cs : ∀ this,
  Forall (fun c => 1 ≤ desktops (callConfig c)) cs →
  0 ≤ currentDesktop_ this →
  ∃ this' evs,
    callsManager this cs = Some (this', evs)
    ∧ 0 ≤ currentDesktop_ this'
    ∧ length (List.filter isCallback evs) = length cs
    ∧ (cs ≠ [] →
       lastSaved evs = Some (currentDesktop_ this', windowStates_ this')).
Proof.
  induction cs as [|c cs IH]; intros this Hcfg Hcur.
  - exists this, []. by repeat split.
  - apply Forall_cons in Hcfg as [Hc Hcfg].
    destruct (callManager_spec this c Hc Hcur)
      as (this1 & evs1 & Hrun1 & Hpos1 & Hcalls1 & Hsaved1).
    destruct (IH this1 Hcfg Hpos1) as (this2 & evs2 & Hrun2 & Hpos2 & Hcalls2 & Hsaved2).
    exists this2, (evs1 ++ evs2). simpl. rewrite Hrun1. simpl. rewrite Hrun2.
    split; [done|]. split; [done|]. split.
    + rewrite List.filter_app, length_app. lia.
    + intros _. destruct cs as [|c' cs'].
      * simpl in Hrun2. injection Hrun2 as <- <-. by rewrite app_nil_r.
      * by apply lastSaved_app, Hsaved2.
Qed.

(** X10: a manager in use.  From its construction on, whatever was stored
    and whatever calls of [switchToDesktop] and [forgetWindow] follow (each
    with at least one desktop configured, each made when the one before has
    called back, every window update being acknowledged), every call returns,
    the current desktop never is negative, and every call invokes its
    callback exactly once. *)
Theorem manager_calls (storedDesktop : option Z)
    (storedStates : gmap Z WindowState) (cs : list ManagerCall) :
  Forall (fun c => 1 ≤ desktops (callConfig c)) cs →
  ∃ this' evs,
    callsManager (fst (newVirtualDesktopManager storedDesktop storedStates)) cs
    = Some (this', evs)
    ∧ 0 ≤ currentDesktop this'
    ∧ length (List.filter isCallback evs) = length cs.
Proof.
  intros Hcfg.
  destruct (callsManager_spec cs _ Hcfg
              (newVirtualDesktopManager_nonneg storedDesktop storedStates))
    as (this' & evs & Hrun & Hpos & Hcalls & _).
  by exists this', evs.
Qed.

Lemma manager_calls_witness :
  Forall (fun c => 1 ≤ desktops (callConfig c))
    [CallSwitchToDesktop (mkConfig 4 true) [liveWindow 1 "normal"] 1
       (JsNumber 1) true;
     CallForgetWindow (mkConfig 2 true) 1 None []]
  ∧ ∃ this' evs,
      callsManager (fst (newVirtualDesktopManager (Some (-3)) ∅))
        [CallSwitchToDesktop (mkConfig 4 true) [liveWindow 1 "normal"] 1
           (JsNumber 1) true;
         CallForgetWindow (mkConfig 2 true) 1 None []]
      = Some (this', evs)
      ∧ 0 ≤ currentDesktop this'
      ∧ length (List.filter isCallback evs) = 2%nat.
Proof.
  assert (Hcfg : Forall (fun c => 1 ≤ desktops (callConfig c))
            [CallSwitchToDesktop (mkConfig 4 true) [liveWindow 1 "normal"] 1
               (JsNumber 1) true;
             CallForgetWindow (mkConfig 2 true) 1 None []]).
  { repeat constructor; simpl; lia. }
  split; [exact Hcfg|].
  apply (manager_calls (Some (-3)) ∅ _ Hcfg).
Defined.

(** X11: what is saved survives a reload.  After at least one call, the
    manager that the constructor builds from what [saveState_] wrote last
    is the manager as the calls left it. *)
Theorem manager_reload (storedDesktop : option Z)
    (storedStates : gmap Z WindowState) (cs : list ManagerCall) :
  Forall (fun c => 1 ≤ desktops (callConfig c)) cs → cs ≠ [] →
  ∃ this' evs saved,
    callsManager (fst (newVirtualDesktopManager storedDesktop storedStates)) cs
    = Some (this', evs)
    ∧ lastSaved evs = Some saved
    ∧ reloaded saved = this'.
Proof.
  intros Hcfg Hsome.
  destruct (callsManager_spec cs _ Hcfg
              (newVirtualDesktopManager_nonneg storedDesktop storedStates))
    as (this' & evs & Hrun & Hpos & _ & Hsaved).
  exists this', evs, (currentDesktop_ this', windowStates_ this').
  split; [done|]. split; [by apply Hsaved|].
  unfold reloaded, newVirtualDesktopManager. simpl.
  destruct (Z.ltb_spec (currentDesktop_ this') 0); [lia|]. by destruct this'.
Qed.

Lemma manager_reload_witness :
  Forall (fun c => 1 ≤ desktops (callConfig c))
    [CallForgetWindow (mkConfig 4 false) 1 None []]
  ∧ [CallForgetWindow (mkConfig 4 false) 1 None []] ≠ []
  ∧ ∃ this' evs saved,
      callsManager (fst (newVirtualDesktopManager (Some 2) ∅))
        [CallForgetWindow (mkConfig 4 false) 1 None []]
      = Some (this', evs)
      ∧ lastSaved evs = Some saved
      ∧ reloaded saved = this'.
Proof.
  assert (Hcfg : Forall (fun c => 1 ≤ desktops (callConfig c))
            [CallForgetWindow (mkConfig 4 false) 1 None []]).
  { repeat constructor; simpl; lia. }
  split; [exact Hcfg|]. split; [done|].
  apply (manager_reload (Some 2) ∅ _ Hcfg). done.
Defined.

(** ** The window provider *)

Section Decoration.
Import WindowProvider WindowProviderCreate.

(** X12: the correction compensates a decoration.  Against a window manager
    that honours the requested size but moves the window by a border and a
    title bar of any size, the update that [fixUpdateInfo] computes is off
    by the border horizontally and by border plus title bar vertically, and
    applying it puts the bottom right corner where it was requested, after
    which [fixUpdateInfo] finds the distance 0. *)
Theorem fixUpdateInfo_compensates (win : ChromeWindow)
    (titleBarSize borderSize : Z) (l t wd ht : Z) :
  let updateInfo := mkUpdateInfo None None (Some l) (Some t) (Some wd) (Some ht) in
  let intermediate :=
    simulateX11UpdateInfo win titleBarSize borderSize updateInfo in
  let fix_ := fixUpdateInfo intermediate updateInfo in
  let final :=
    simulateX11UpdateInfo intermediate titleBarSize borderSize
      (newUpdateInfo fix_) in
  distance fix_ = Z.abs borderSize + Z.abs (borderSize + titleBarSize)
  ∧ cw_left final + cw_width final = l + wd
  ∧ cw_top final + cw_height final = t + ht
  ∧ cw_left final = cw_left intermediate
  ∧ cw_top final = cw_top intermediate
  ∧ distance (fixUpdateInfo final updateInfo) = 0.
Proof using Type.
  intros updateInfo intermediate fix_ final.
  unfold final, fix_, intermediate, updateInfo, fixUpdateInfo,
    simulateX11UpdateInfo, farEdgeOffset.
  simpl. repeat split; lia.
Qed.

(** X13: [fixUpdateInfo] finds the distance 0 exactly when, in every
    dimension in which both position and size were requested, the far edge
    of the window is where it was requested; the distance is never
    negative; and the update it proposes changes neither position, state
    nor focus. *)
Theorem fixUpdateInfo_exact (win : ChromeWindow)
    (updateInfo : ChromeWindowUpdateInfo) :
  let fixes := fixUpdateInfo win updateInfo in
  0 ≤ distance fixes
  ∧ (distance fixes = 0 ↔
     (∀ lft wd, ui_left updateInfo = Some lft → ui_width updateInfo = Some wd →
        cw_left win + cw_width win = lft + wd)
     ∧ (∀ tp ht, ui_top updateInfo = Some tp → ui_height updateInfo = Some ht →
          cw_top win + cw_height win = tp + ht))
  ∧ ui_left (newUpdateInfo fixes) = None
  ∧ ui_top (newUpdateInfo fixes) = None
  ∧ ui_state (newUpdateInfo fixes) = None
  ∧ ui_focused (newUpdateInfo fixes) = None.
Proof using Type.
  intros fixes. subst fixes. unfold fixUpdateInfo, farEdgeOffset.
  destruct (ui_width updateInfo) as [wd|], (ui_left updateInfo) as [lft|],
    (ui_height updateInfo) as [ht|], (ui_top updateInfo) as [tp|]; simpl;
    (split; [lia|]); (split; [|done]);
    (split;
     [intros Hzero; split; intros a b Ha Hb; simplify_eq; lia
     |intros [Hx Hy];
      try (specialize (Hx _ _ eq_refl eq_refl));
      try (specialize (Hy _ _ eq_refl eq_refl)); lia]).
Qed.

Lemma checkLoop_ends remaining winId updateInfo reads : ∀ i,
  ∃ body,
    checkLoop remaining winId updateInfo reads i = body ++ [CallCallback]
    ∧ List.filter isCall body = []
    ∧ (length (List.filter isRead body) ≤ remaining)%nat
    ∧ (length (List.filter isWrite body) ≤ 1)%nat
    ∧ ∀ id info, ChromeWindowsUpdate id info ∈ body → id = winId.
Proof using Type.
  induction remaining as [|remaining IH]; intros i; simpl.
  - exists []. simpl. split; [done|]. split; [done|]. split; [lia|].
    split; [lia|]. by intros id info ?%elem_of_nil.
  - assert (Hdirect : ∀ writes,
              (length writes ≤ 1)%nat →
              List.filter isCall writes = [] →
              List.filter isRead writes = [] →
              List.filter isWrite writes = writes →
              (∀ id info, ChromeWindowsUpdate id info ∈ writes → id = winId) →
              ∃ body,
                SetTimeout :: ChromeWindowsGet winId :: writes ++ [CallCallback]
                = body ++ [CallCallback]
                ∧ List.filter isCall body = []
                ∧ (length (List.filter isRead body) ≤ S remaining)%nat
                ∧ (length (List.filter isWrite body) ≤ 1)%nat
                ∧ ∀ id info, ChromeWindowsUpdate id info ∈ body → id = winId).
    { intros writes Hlen Hc Hr Hw Hid.
      exists (SetTimeout :: ChromeWindowsGet winId :: writes). simpl.
      rewrite Hc, Hr, Hw. simpl.
      split; [done|]. split; [done|]. split; [lia|]. split; [lia|].
      intros id info [[=] | [[=] | Hin]%elem_of_cons]%elem_of_cons.
      by eapply Hid. }
    destruct (reads i) as [win|].
    + destruct (_ =? 0).
      { apply (Hdirect []); simpl; try done; try lia.
        by intros id info ?%elem_of_nil. }
      destruct (_ >? _).
      * destruct (IH (S i)) as (body & -> & Hc & Hr & Hw & Hid).
        exists (SetTimeout :: ChromeWindowsGet winId :: body). simpl.
        rewrite Hc.
        split; [done|]. split; [done|]. split; [lia|]. split; [lia|].
        intros id info [[=] | [[=] | Hin]%elem_of_cons]%elem_of_cons.
        by eapply Hid.
      * apply (Hdirect [ChromeWindowsUpdate winId
                          (newUpdateInfo (fixUpdateInfo win updateInfo))]);
          simpl; try done; try lia.
        by intros id info [= -> _]%list_elem_of_singleton.
    + apply (Hdirect []); simpl; try done; try lia.
      by intros id info ?%elem_of_nil.
Qed.

Lemma update_ends winId updateInfo reads :
  ∃ body,
    update winId updateInfo reads = body ++ [CallCallback]
    ∧ List.filter isCall body = []
    ∧ (length (List.filter isRead body) ≤ WINDOW_MANAGER_ATTEMPTS)%nat
    ∧ (1 ≤ length (List.filter isWrite body) ≤ 2)%nat
    ∧ ∀ id info, ChromeWindowsUpdate id info ∈ body → id = winId.
Proof using Type.
  unfold update, checkWindowUpdated_.
  destruct (checkLoop_ends (WINDOW_MANAGER_ATTEMPTS - 0) winId updateInfo reads 0)
    as (body & -> & Hc & Hr & Hw & Hid).
  exists (ChromeWindowsUpdate winId updateInfo :: body). simpl.
  rewrite Hc. rewrite Nat.sub_0_r in Hr.
  split; [done|]. split; [done|]. split; [done|]. split; [lia|].
  intros id info [[= -> _] | Hin]%elem_of_cons; [done | by eapply Hid].
Qed.

(** X14: whatever the window manager answers, also when the window
    disappears or never settles, [update] ends with one call of the
    callback, which is its last call and its only one; before that it
    writes to the window once or twice and to no other window, and reads
    the window back at most five times. *)
Theorem update_calls_back_once (winId : Z)
    (updateInfo : ChromeWindowUpdateInfo) (reads : nat → option ChromeWindow) :
  ∃ body,
    update winId updateInfo reads = body ++ [CallCallback]
    ∧ List.filter isCall body = []
    ∧ (length (List.filter isRead body) ≤ WINDOW_MANAGER_ATTEMPTS)%nat
    ∧ (1 ≤ length (List.filter isWrite body) ≤ 2)%nat
    ∧ ∀ id info, ChromeWindowsUpdate id info ∈ body → id = winId.
Proof using Type. apply update_ends. Qed.

(** X15: [create] creates the window with the caller's [createInfo] as it
    is, waits, and then reconciles the new window towards the position and
    size of that [createInfo]; it ends with one call of the callback, its
    last and only one, after at most two updates, and the updates go to the
    window just created. *)
Theorem create_calls_back_once (createInfo : ChromeWindowCreateInfo)
    (win : ChromeWindow) (reads : nat → option ChromeWindow) :
  ∃ body,
    create createInfo win reads
    = ChromeWindowsCreate createInfo :: SetTimeoutCreate
        :: (Updating <$> body) ++ [Updating CallCallback]
    ∧ List.filter isCall body = []
    ∧ (1 ≤ length (List.filter isWrite body) ≤ 2)%nat
    ∧ head body
      = Some (ChromeWindowsUpdate (cw_id win)
                (mkUpdateInfo None None (ci_left createInfo) (ci_top createInfo)
                   (ci_width createInfo) (ci_height createInfo)))
    ∧ ∀ id info, ChromeWindowsUpdate id info ∈ body → id = cw_id win.
Proof using Type.
  unfold create.
  destruct (update_ends (cw_id win)
              (mkUpdateInfo None None (ci_left createInfo) (ci_top createInfo)
                 (ci_width createInfo) (ci_height createInfo)) reads)
    as (body & Hrun & Hc & _ & Hw & Hid).
  exists body. rewrite Hrun, fmap_app. simpl.
  split; [done|]. split; [done|]. split; [done|]. split; [|done].
  unfold update in Hrun. destruct body as [|c body]; [simpl in Hw; lia|].
  simpl in Hrun. by injection Hrun as <- _.
Qed.

End Decoration.

(** ** The wakeup queue: idleness and progress *)

Section QueueProgress.
Import WakeupQueue.
Context {Task : Type}.
Variable conduct : Task → Conduct.

Lemma finishedTickets_app l1 l2 :
  finishedTickets (l1 ++ l2) = finishedTickets l1 ++ finishedTickets l2.
Proof using Type. unfold finishedTickets. apply omap_app. Qed.

Lemma finishedTickets_completed a : finishedTickets (completed a) = seq 0 a.
Proof using Type.
  induction a as [|a IH]; [done|].
  by rewrite completed_S, finishedTickets_app, IH, seq_S.
Qed.

Lemma shape_finished a (s : @State Task) :
  Shape conduct a s → finishedTickets (log s) = seq 0 a.
Proof using Type.
  intros Hs. rewrite (shape_log _ _ _ Hs). unfold runningLog.
  rewrite finishedTickets_app, finishedTickets_completed.
  destruct (queue_ s); simpl; by rewrite app_nil_r.
Qed.

Lemma shape_idle a (s : @State Task) :
  Shape conduct a s → isIdle s = true ↔ a = length (added s).
Proof using Type.
  intros Hs. rewrite isIdle_nil, (shape_queue _ _ _ Hs).
  pose proof (shape_bound _ _ _ Hs) as Hb.
  split.
  - intros Hnil%ticketedFrom_nil. apply (f_equal length) in Hnil.
    rewrite length_drop in Hnil. simpl in Hnil. lia.
  - intros ->. by rewrite drop_all.
Qed.

(** X16: when every [finished] is called at most once, by the operation
    that holds it, a queue is idle exactly when every closure that was
    added to it has called [finished]; never have more closures called
    [finished] than were added, and they have called it in the order in
    which they were added, each once. *)
Theorem wakeupQueue_idle_iff (es : list (@Input Task)) :
  contract conduct empty es = true →
  let s := calls conduct empty es in
  (isIdle s = true
   ↔ length (finishedTickets (log s)) = length (added s))
  ∧ (length (finishedTickets (log s)) ≤ length (added s))%nat
  ∧ finishedTickets (log s) = seq 0 (length (finishedTickets (log s)))
  ∧ NoDup (finishedTickets (log s)).
Proof using Type.
  intros Hcontract s. subst s. rewrite (contract_run conduct es _ Hcontract).
  destruct (run_shape conduct es 0 empty (empty_shape conduct)) as (a & _ & Hs).
  set (s := run conduct empty es) in *.
  rewrite (shape_finished a s Hs), length_seq.
  split; [by apply shape_idle|].
  split; [apply (shape_bound _ _ _ Hs)|]. split; [done | apply NoDup_seq].
Qed.

(** Completing the running closure, when it has handed its [finished] on. *)
Lemma complete_running a (s : @State Task) t :
  Shape conduct a s → added s !! a = Some t → conduct t ≠ Drops →
  ∃ k, Shape conduct (S a + k) (step conduct s (Complete a))
       ∧ added (step conduct s (Complete a)) = added s.
Proof using Type.
  intros Hs Hat Hnot.
  pose proof (shape_queue _ _ _ Hs) as Hq.
  pose proof (shape_head _ _ _ Hs) as Hhead.
  pose proof (shape_pending _ _ _ Hs) as Hpend.
  pose proof (shape_log _ _ _ Hs) as Hlog.
  rewrite (drop_S _ _ _ Hat) in Hq. simpl in Hq.
  rewrite Hq in Hhead, Hpend, Hlog. simpl in Hhead, Hpend.
  destruct (conduct t) eqn:Ht; [done | | done].
  simpl. rewrite Hpend. rewrite bool_decide_eq_true_2 by left.
  unfold wakeupNext_. rewrite Hq, Hpend, Hlog. simpl.
  rewrite filter_cons, decide_False, filter_nil by (intros H; by apply H).
  unfold runningLog. rewrite <- app_assoc. simpl. rewrite <- completed_S.
  destruct (wakeupFirst_shape conduct (drop (S a) (added s)) (S a))
    as (k & Hk & _ & Hwaits & Hrun).
  rewrite Hrun. exists k. split; [|done].
  constructor; simpl; try done.
  - by rewrite drop_drop.
  - rewrite length_drop in Hk. apply lookup_lt_Some in Hat. lia.
Qed.

Lemma drain_from (m : nat) : ∀ a (s : @State Task),
  Shape conduct a s → (length (added s) - a ≤ m)%nat →
  (∀ i t, (a ≤ i)%nat → added s !! i = Some t → conduct t ≠ Drops) →
  ∃ tickets,
    Shape conduct (length (added s)) (run conduct s (Complete <$> tickets))
    ∧ added (run conduct s (Complete <$> tickets)) = added s.
Proof using Type.
  induction m as [|m IH]; intros a s Hs Hm Hnot;
    pose proof (shape_bound _ _ _ Hs) as Hb.
  - exists []. simpl. by replace (length (added s)) with a by lia.
  - destruct (decide (a = length (added s))) as [-> | Hmore].
    { by exists []. }
    destruct (lookup_lt_is_Some_2 (added s) a ltac:(lia)) as [t Hat].
    destruct (complete_running a s t Hs Hat (Hnot a t ltac:(lia) Hat))
      as (k & Hs1 & Hadded).
    destruct (IH (S a + k)%nat _ Hs1) as (tickets & Hdone & Hsame).
    + rewrite Hadded. lia.
    + intros i t' Hi. rewrite Hadded. apply Hnot. lia.
    + exists (a :: tickets).
      change (run conduct s (Complete <$> a :: tickets))
        with (run conduct (step conduct s (Complete a)) (Complete <$> tickets)).
      rewrite Hadded in Hdone, Hsame. done.
Qed.

(** X17: a queue whose closures all either call [finished] themselves or
    hand it to an operation can always be worked off: there are completions
    of operations after which the queue is idle, and then every closure
    that was added has been started and has finished, in the order of the
    [add] calls. *)
Theorem wakeupQueue_drains (es : list (@Input Task)) :
  let s := run conduct empty es in
  (∀ i t, (i, t) ∈ queue_ s → conduct t ≠ Drops) →
  ∃ tickets,
    let s' := run conduct s (Complete <$> tickets) in
    isIdle s' = true
    ∧ added s' = added s
    ∧ log s' = completed (length (added s)).
Proof using Type.
  intros s Hnot.
  destruct (run_shape conduct es 0 empty (empty_shape conduct)) as (a & _ & Hs).
  fold s in Hs.
  destruct (drain_from (length (added s) - a) a s Hs ltac:(lia))
    as (tickets & Hdone & Hsame).
  { intros i t Hi Hat. apply (Hnot i).
    rewrite (shape_queue _ _ _ Hs).
    assert (Hin : ∀ l j, l !! j = Some t →
              ((a + j)%nat, t) ∈ ticketedFrom a l).
    { clear. intros l. generalize a. induction l as [|t0 l IH]; intros b j Hj.
      - by rewrite lookup_nil in Hj.
      - destruct j as [|j]; simpl in *.
        + injection Hj as ->. rewrite Nat.add_0_r. by left.
        + right. replace (b + S j)%nat with (S b + j)%nat by lia. by apply IH. }
    replace i with (a + (i - a))%nat by lia. apply Hin.
    rewrite lookup_drop. by replace (a + (i - a))%nat with i by lia. }
  exists tickets. simpl.
  assert (Hidle : isIdle (run conduct s (Complete <$> tickets)) = true).
  { apply (shape_idle _ _ Hdone). by rewrite Hsame. }
  split; [done|]. split; [done|].
  rewrite (shape_log_idle conduct _ _ Hdone), Hidle, app_nil_r. done.
Qed.

End QueueProgress.

Lemma wakeupQueue_idle_iff_witness :
  WakeupQueue.contract testConduct WakeupQueue.empty
    [WakeupQueue.Add true; WakeupQueue.Add false; WakeupQueue.Add false;
     WakeupQueue.Complete 1] = true
  ∧ finishedTickets
      (WakeupQueue.log
         (WakeupQueue.calls testConduct WakeupQueue.empty
            [WakeupQueue.Add true; WakeupQueue.Add false; WakeupQueue.Add false;
             WakeupQueue.Complete 1]))
    = seq 0 2.
Proof.
  split; [reflexivity|].
  destruct (wakeupQueue_idle_iff testConduct
              [WakeupQueue.Add true; WakeupQueue.Add false;
               WakeupQueue.Add false; WakeupQueue.Complete 1] eq_refl)
    as (_ & _ & Hfinished & _).
  exact Hfinished.
Defined.

Lemma wakeupQueue_drains_witness :
  (∀ i t,
     (i, t) ∈ WakeupQueue.queue_
                (WakeupQueue.run WindowManagerService.conduct WakeupQueue.empty
                   [WakeupQueue.Add (WindowManagerService.RemovedTask 5);
                    WakeupQueue.Add (WindowManagerService.RemovedTask 6)]) →
     WindowManagerService.conduct t ≠ WakeupQueue.Drops)
  ∧ ∃ tickets,
      WakeupQueue.isIdle
        (WakeupQueue.run WindowManagerService.conduct
           (WakeupQueue.run WindowManagerService.conduct WakeupQueue.empty
              [WakeupQueue.Add (WindowManagerService.RemovedTask 5);
               WakeupQueue.Add (WindowManagerService.RemovedTask 6)])
           (WakeupQueue.Complete <$> tickets))
      = true.
Proof.
  assert (Hnot : ∀ i t,
            (i, t) ∈ WakeupQueue.queue_
                       (WakeupQueue.run WindowManagerService.conduct
                          WakeupQueue.empty
                          [WakeupQueue.Add (WindowManagerService.RemovedTask 5);
                           WakeupQueue.Add (WindowManagerService.RemovedTask 6)]) →
            WindowManagerService.conduct t ≠ WakeupQueue.Drops).
  { intros i t Hin. simpl in Hin.
    repeat (apply elem_of_cons in Hin as [[= -> ->] | Hin]; [done|]).
    by apply elem_of_nil in Hin. }
  split; [exact Hnot|].
  destruct (wakeupQueue_drains WindowManagerService.conduct _ Hnot)
    as (tickets & Hidle & _).
  exists tickets. exact Hidle.
Defined.

(** ** The settings *)

Lemma settings_range (st : storedSettings.Stored) :
  1 ≤ storedSettings.getRows st ≤ 2
  ∧ 1 ≤ storedSettings.getColumns st ≤ 4
  ∧ 1 ≤ storedSettings.getDesktops st ≤ 10.
Proof.
  unfold storedSettings.getRows, storedSettings.getColumns,
    storedSettings.getDesktops, settings.getDesktops, settings.clampDefault_.
  destruct (storedSettings.rows st), (storedSettings.columns st),
    (storedSettings.desktopCount st); lia.
Qed.

Lemma string_neqb_false (a b : string) : string_neqb a b = false ↔ a = b.
Proof.
  unfold string_neqb. rewrite negb_false_iff. apply bool_decide_eq_true.
Qed.

(** ** The client: grid cells and messages *)

Section Grid.
Import client.
Variables (base avail count : Z).
Hypothesis count_pos : 1 ≤ count.

Lemma gridLine_first : gridLine base avail count 0 = base.
Proof using count_pos.
  unfold gridLine.
  replace (2 * (base * count + 0 * avail) + count)
    with (count + base * (2 * count)) by lia.
  rewrite Z.div_add by lia. rewrite Z.div_small by lia. lia.
Qed.

Lemma gridLine_last : gridLine base avail count count = base + avail.
Proof using count_pos.
  unfold gridLine.
  replace (2 * (base * count + count * avail) + count)
    with (count + (base + avail) * (2 * count)) by lia.
  rewrite Z.div_add by lia. rewrite Z.div_small by lia. lia.
Qed.

Lemma gridLine_step i j :
  0 ≤ avail → i ≤ j →
  gridLine base avail count i + (j - i) * (avail / count)
  ≤ gridLine base avail count j.
Proof using count_pos.
  intros Havail Hij. unfold gridLine.
  rewrite <- Z.div_add by lia.
  apply Z.div_le_mono; [lia|].
  pose proof (Z.mul_div_le avail count ltac:(lia)) as Hfloor.
  pose proof (Z.div_pos avail count Havail ltac:(lia)) as Hnonneg.
  nia.
Qed.

Lemma gridLine_mono i j :
  0 ≤ avail → i ≤ j →
  gridLine base avail count i ≤ gridLine base avail count j.
Proof using count_pos.
  intros Havail Hij. pose proof (gridLine_step i j Havail Hij) as Hstep.
  pose proof (Z.div_pos avail count Havail ltac:(lia)) as Hnonneg. nia.
Qed.

End Grid.

(** X18: the pixel rectangle of a grid cell.  With the numbers of columns
    and rows the settings deliver, whatever is stored, for a cell range
    inside the grid on a screen whose available area is not negative, what
    [writePositionToMessage_] writes is "fullscreen" exactly for the whole
    grid, and otherwise a rectangle inside the available area whose width
    and height are not negative (positive if there is at least a pixel per
    column and row), which starts at the left or top edge of the area for
    the first column or row, ends at its right or bottom edge for the last,
    and ends horizontally exactly where the rectangle of the cell to its
    right begins. *)
Theorem writePositionToMessage_tiles (st : storedSettings.Stored)
    (scr : client.Screen) (x y w h : Z) :
  0 ≤ client.availWidth scr → 0 ≤ client.availHeight scr →
  0 ≤ x → 0 < w → x + w ≤ storedSettings.getColumns st →
  0 ≤ y → 0 < h → y + h ≤ storedSettings.getRows st →
  match client.writePositionToMessage_ scr (storedSettings.getColumns st)
          (storedSettings.getRows st) x y w h with
  | client.Fullscreen =>
      x = 0 ∧ y = 0 ∧ w = storedSettings.getColumns st
      ∧ h = storedSettings.getRows st
  | client.Pixels px py pw ph =>
      ¬ (x = 0 ∧ y = 0 ∧ w = storedSettings.getColumns st
         ∧ h = storedSettings.getRows st)
      ∧ client.availLeft scr ≤ px ∧ 0 ≤ pw
      ∧ px + pw ≤ client.availLeft scr + client.availWidth scr
      ∧ client.availTop scr ≤ py ∧ 0 ≤ ph
      ∧ py + ph ≤ client.availTop scr + client.availHeight scr
      ∧ (storedSettings.getColumns st ≤ client.availWidth scr → 0 < pw)
      ∧ (storedSettings.getRows st ≤ client.availHeight scr → 0 < ph)
      ∧ (x = 0 → px = client.availLeft scr)
      ∧ (y = 0 → py = client.availTop scr)
      ∧ (x + w = storedSettings.getColumns st →
         px + pw = client.availLeft scr + client.availWidth scr)
      ∧ (y + h = storedSettings.getRows st →
         py + ph = client.availTop scr + client.availHeight scr)
      ∧ ∀ w2 h2,
          match client.writePositionToMessage_ scr
                  (storedSettings.getColumns st) (storedSettings.getRows st)
                  (x + w) y w2 h2
          with
          | client.Pixels px2 _ _ _ => px2 = px + pw
          | client.Fullscreen => True
          end
  end.
Proof.
  pose proof (settings_range st) as (Hr & Hc & _).
  generalize dependent (storedSettings.getColumns st).
  generalize dependent (storedSettings.getRows st).
  intros rows Hr columns Hc Haw Hah Hx Hw Hxw Hy Hh Hyh.
  unfold client.writePositionToMessage_.
  destruct ((x =? 0) && (y =? 0) && (w =? columns) && (h =? rows)) eqn:Hfull.
  { repeat (apply andb_true_iff in Hfull as [Hfull ?]). lia. }
  set (left_ := client.availLeft scr). set (top_ := client.availTop scr).
  set (aw := client.availWidth scr) in *. set (ah := client.availHeight scr) in *.
  assert (Hc1 : 1 ≤ columns) by lia. assert (Hr1 : 1 ≤ rows) by lia.
  pose proof (gridLine_first left_ aw columns Hc1) as Hx0.
  pose proof (gridLine_last left_ aw columns Hc1) as Hx1.
  pose proof (gridLine_first top_ ah rows Hr1) as Hy0.
  pose proof (gridLine_last top_ ah rows Hr1) as Hy1.
  pose proof (gridLine_mono left_ aw columns Hc1 0 x Haw ltac:(lia)) as Hxa.
  pose proof (gridLine_mono left_ aw columns Hc1 x (x + w) Haw ltac:(lia)) as Hxb.
  pose proof (gridLine_mono left_ aw columns Hc1 (x + w) columns Haw ltac:(lia))
    as Hxc.
  pose proof (gridLine_mono top_ ah rows Hr1 0 y Hah ltac:(lia)) as Hya.
  pose proof (gridLine_mono top_ ah rows Hr1 y (y + h) Hah ltac:(lia)) as Hyb.
  pose proof (gridLine_mono top_ ah rows Hr1 (y + h) rows Hah ltac:(lia)) as Hyc.
  pose proof (gridLine_step left_ aw columns Hc1 x (x + w) Haw ltac:(lia)) as Hxs.
  pose proof (gridLine_step top_ ah rows Hr1 y (y + h) Hah ltac:(lia)) as Hys.
  split.
  { intros (-> & -> & -> & ->). by rewrite !Z.eqb_refl in Hfull. }
  split; [lia|]. split; [lia|]. split; [lia|].
  split; [lia|]. split; [lia|]. split; [lia|].
  split.
  { intros Hroom. pose proof (Z.div_le_lower_bound aw columns 1 ltac:(lia)
                                ltac:(lia)). nia. }
  split.
  { intros Hroom. pose proof (Z.div_le_lower_bound ah rows 1 ltac:(lia)
                                ltac:(lia)). nia. }
  split; [intros ->; lia|]. split; [intros ->; lia|].
  split; [intros Hend; rewrite Hend in *; lia|].
  split; [intros Hend; rewrite Hend in *; lia|].
  intros w2 h2.
  destruct ((x + w =? 0) && (y =? 0) && (w2 =? columns) && (h2 =? rows)); [done|].
  lia.
Qed.

Lemma writePositionToMessage_tiles_witness :
  client.writePositionToMessage_ (client.mkScreen 0 24 1280 776) 3 2 1 0 1 2
  = client.Pixels 427 24 426 776.
Proof.
  pose proof (writePositionToMessage_tiles
                (storedSettings.mkStored None None None None)
                (client.mkScreen 0 24 1280 776)
                1 0 1 2 ltac:(simpl; lia) ltac:(simpl; lia) ltac:(lia)
                ltac:(lia) ltac:(vm_compute; discriminate) ltac:(lia)
                ltac:(lia) ltac:(vm_compute; discriminate)) as _.
  reflexivity.
Defined.

(** X19: every message the client sends is one the message handler knows.
    Whatever the client function and its arguments, if it sends a message,
    the handler's switch starts an operation with it and hands the callback
    on, so that the closure does not stall the wakeup queue: moving to the
    whole grid maximizes the window, moving to a part of it positions the
    window at the pixel rectangle, and likewise for a tab; the four desktop
    functions switch by plus or minus one, sending the window along for the
    "current to" ones. *)
Theorem client_messages_dispatched (c : client.ClientCall)
    (message : WindowManagerService.Message) :
  client.sends c = Some message →
  WindowManagerService.conduct (WindowManagerService.MessageTask message)
  = WakeupQueue.HandsOver
  ∧ WindowManagerService.messageSwitch message
    = Some
        match c with
        | client.MoveCurrentWindowToGrid scr columns rows x y w h _ =>
            match client.writePositionToMessage_ scr columns rows x y w h with
            | client.Fullscreen =>
                WindowManagerService.MaximizeWindow
                  (WindowManagerService.winId message)
            | client.Pixels px py pw ph =>
                WindowManagerService.PositionWindow
                  (WindowManagerService.winId message) px py pw ph
            end
        | client.ExtractCurrentTabToGrid scr columns rows x y w h _ =>
            match client.writePositionToMessage_ scr columns rows x y w h with
            | client.Fullscreen =>
                WindowManagerService.MaximizeTab
                  (WindowManagerService.tabId message) ""
                  (WindowManagerService.incognito message)
            | client.Pixels px py pw ph =>
                WindowManagerService.PositionTab
                  (WindowManagerService.tabId message) ""
                  (WindowManagerService.incognito message) px py pw ph
            end
        | client.SwitchToNextDesktop _ =>
            WindowManagerService.SwitchBy 1
              (WindowManagerService.winId message) false
        | client.SwitchToPreviousDesktop _ =>
            WindowManagerService.SwitchBy (-1)
              (WindowManagerService.winId message) false
        | client.CurrentToNextDesktop _ =>
            WindowManagerService.SwitchBy 1
              (WindowManagerService.winId message) true
        | client.CurrentToPreviousDesktop _ =>
            WindowManagerService.SwitchBy (-1)
              (WindowManagerService.winId message) true
        end.
Proof.
  intros Hsends.
  assert (Hswitch : WindowManagerService.messageSwitch message = Some
            match c with
            | client.MoveCurrentWindowToGrid scr columns rows x y w h _ =>
                match client.writePositionToMessage_ scr columns rows x y w h with
                | client.Fullscreen =>
                    WindowManagerService.MaximizeWindow
                      (WindowManagerService.winId message)
                | client.Pixels px py pw ph =>
                    WindowManagerService.PositionWindow
                      (WindowManagerService.winId message) px py pw ph
                end
            | client.ExtractCurrentTabToGrid scr columns rows x y w h _ =>
                match client.writePositionToMessage_ scr columns rows x y w h with
                | client.Fullscreen =>
                    WindowManagerService.MaximizeTab
                      (WindowManagerService.tabId message) ""
                      (WindowManagerService.incognito message)
                | client.Pixels px py pw ph =>
                    WindowManagerService.PositionTab
                      (WindowManagerService.tabId message) ""
                      (WindowManagerService.incognito message) px py pw ph
                end
            | client.SwitchToNextDesktop _ =>
                WindowManagerService.SwitchBy 1
                  (WindowManagerService.winId message) false
            | client.SwitchToPreviousDesktop _ =>
                WindowManagerService.SwitchBy (-1)
                  (WindowManagerService.winId message) false
            | client.CurrentToNextDesktop _ =>
                WindowManagerService.SwitchBy 1
                  (WindowManagerService.winId message) true
            | client.CurrentToPreviousDesktop _ =>
                WindowManagerService.SwitchBy (-1)
                  (WindowManagerService.winId message) true
            end).
  { destruct c as [scr columns rows x y w h [win|]
                  | scr columns rows x y w h [[|[tabId incognito] [|]]|]
                  | [win|] | [win|] | [win|] | [win|]];
      simpl in Hsends; try discriminate Hsends;
      injection Hsends as <-;
      try (by destruct (client.writePositionToMessage_ _ _ _ _ _ _ _));
      done. }
  split; [|exact Hswitch].
  simpl. by rewrite Hswitch.
Qed.

Lemma client_messages_dispatched_witness :
  client.sends (client.CurrentToNextDesktop (Some (liveWindow 3 "normal")))
  = Some (client.messageWith RequestType.CURRENT_TO_NEXT_DESKTOP 3 0 false None)
  ∧ WindowManagerService.messageSwitch
      (client.messageWith RequestType.CURRENT_TO_NEXT_DESKTOP 3 0 false None)
    = Some (WindowManagerService.SwitchBy 1 3 true).
Proof.
  split; [reflexivity|].
  apply (client_messages_dispatched
           (client.CurrentToNextDesktop (Some (liveWindow 3 "normal")))).
  reflexivity.
Defined.

Lemma digitsFrom_bound fuel : ∀ s m,
  1 ≤ m → s < 10 ^ m → storedSettings.digitsFrom fuel s ≤ m.
Proof.
  induction fuel as [|fuel IH]; intros s m Hm Hs; simpl; [lia|].
  destruct (Z.ltb_spec s 10) as [|Hbig]; [lia|].
  assert (Hm2 : 2 ≤ m).
  { destruct (decide (m = 1)) as [-> | ?]; [|lia]. simpl in Hs. lia. }
  assert (s / 10 < 10 ^ (m - 1)).
  { apply Z.div_lt_upper_bound; [lia|].
    rewrite <- Z.pow_succ_r by lia. by replace (Z.succ (m - 1)) with m by lia. }
  specialize (IH (s / 10) (m - 1) ltac:(lia) ltac:(done)). lia.
Qed.

Lemma digitsFrom_spec fuel : ∀ s,
  0 < s < 2 ^ Z.of_nat fuel →
  1 ≤ storedSettings.digitsFrom fuel s
  ∧ 10 ^ (storedSettings.digitsFrom fuel s - 1) ≤ s < 10 ^ storedSettings.digitsFrom fuel s.
Proof.
  induction fuel as [|fuel IH]; intros s Hs.
  { simpl in Hs. lia. }
  cbn [storedSettings.digitsFrom]. destruct (Z.ltb_spec s 10) as [|Hbig].
  { simpl. lia. }
  assert (Hsmall : 0 < s / 10 < 2 ^ Z.of_nat fuel).
  { split; [apply Z.div_str_pos; lia|].
    apply Z.div_lt_upper_bound; [lia|].
    rewrite Nat2Z.inj_succ, Z.pow_succ_r in Hs by lia. lia. }
  destruct (IH (s / 10) Hsmall) as (Hd & Hlo & Hhi).
  set (d := storedSettings.digitsFrom fuel (s / 10)) in *.
  replace (1 + d - 1) with (Z.succ (d - 1)) by lia.
  replace (1 + d) with (Z.succ d) by lia.
  rewrite !Z.pow_succ_r by lia.
  pose proof (Z.mul_div_le s 10 ltac:(lia)).
  pose proof (Z.mul_succ_div_gt s 10 ltac:(lia)).
  lia.
Qed.

Lemma size_nat_bound s : Z.pos s < 2 ^ Z.of_nat (Pos.size_nat s).
Proof.
  induction s as [s IH | s IH |]; cbn [Pos.size_nat];
    rewrite ?Nat2Z.inj_succ, ?Z.pow_succ_r by lia; lia.
Qed.

Lemma digitCount_spec s :
  1 ≤ storedSettings.digitCount s
  ∧ 10 ^ (storedSettings.digitCount s - 1) ≤ Z.pos s
    < 10 ^ storedSettings.digitCount s.
Proof.
  apply digitsFrom_spec. split; [lia | apply size_nat_bound].
Qed.

Lemma leadingDigit_range s : 1 ≤ storedSettings.leadingDigit s ≤ 9.
Proof.
  unfold storedSettings.leadingDigit.
  destruct (digitCount_spec s) as (Hk & Hlo & Hhi).
  set (k := storedSettings.digitCount s) in *.
  replace k with (Z.succ (k - 1)) in Hhi by lia.
  rewrite Z.pow_succ_r in Hhi by lia.
  assert (0 < 10 ^ (k - 1)) by (apply Z.pow_pos_nonneg; lia).
  split.
  - apply Z.div_le_lower_bound; lia.
  - assert (Z.pos s / 10 ^ (k - 1) < 10); [|lia].
    apply Z.div_lt_upper_bound; lia.
Qed.

Lemma digitCount_unique s k :
  10 ^ (k - 1) ≤ Z.pos s < 10 ^ k → 1 ≤ k → storedSettings.digitCount s = k.
Proof.
  intros [Hlo Hhi] Hk.
  destruct (digitCount_spec s) as (Hd & Hlo' & Hhi').
  set (d := storedSettings.digitCount s) in *.
  assert (Hup : d - 1 < k).
  { apply (Z.pow_lt_mono_r_iff 10); lia. }
  assert (Hdown : k - 1 < d).
  { apply (Z.pow_lt_mono_r_iff 10); lia. }
  lia.
Qed.

Lemma digitCount_times_ten s :
  storedSettings.digitCount (s * 10) = storedSettings.digitCount s + 1.
Proof.
  destruct (digitCount_spec s) as (Hd & Hlo & Hhi).
  apply digitCount_unique; [|lia].
  replace (storedSettings.digitCount s + 1 - 1)
    with (Z.succ (storedSettings.digitCount s - 1)) by lia.
  replace (storedSettings.digitCount s + 1)
    with (Z.succ (storedSettings.digitCount s)) by lia.
  rewrite !Z.pow_succ_r by lia. lia.
Qed.

(** [String] drops the zeros at the end of the digits; what is read back
    does not depend on them. *)
Lemma parsedString_trailing_zero negative s n :
  storedSettings.parsedString (storedSettings.Finite negative (s * 10) n)
  = storedSettings.parsedString (storedSettings.Finite negative s n).
Proof.
  unfold storedSettings.parsedString, storedSettings.leadingDigit.
  rewrite digitCount_times_ten.
  destruct (digitCount_spec s) as (Hd & _).
  set (k := storedSettings.digitCount s) in *.
  assert (Hshift : ∀ m, 0 ≤ m →
            Z.pos (s * 10) / 10 ^ (m + 1) = Z.pos s / 10 ^ m).
  { intros m Hm. rewrite Z.pow_add_r, Z.pow_1_r by lia.
    rewrite Pos2Z.inj_mul.
    apply Z.div_mul_cancel_r; [|lia].
    apply Z.pow_nonzero; lia. }
  f_equal.
  match goal with
  | |- (if _ then - ?A else _) = (if _ then - ?B else _) =>
      assert (Hmag : A = B); [|by rewrite Hmag]
  end.
  destruct (Z.leb_spec (k + 1) n), (Z.leb_spec k n), (Z.leb_spec n 21),
    (Z.ltb_spec 0 n), (Z.ltb_spec (-6) n), (Z.leb_spec n 0); simpl;
    try lia; try done.
  - replace (n - k) with (Z.succ (n - (k + 1))) by lia.
    rewrite Z.pow_succ_r by lia. rewrite Pos2Z.inj_mul.
    by rewrite Z.mul_assoc.
  - replace (k + 1 - 1) with (k - 1 + 1) by lia. apply Hshift. lia.
  - assert (n = k) as -> by lia.
    replace (k + 1 - k) with (0 + 1) by lia.
    rewrite (Hshift 0) by lia. rewrite Z.sub_diag. simpl.
    rewrite Z.div_1_r. lia.
  - replace (k + 1 - 1) with (k - 1 + 1) by lia. apply Hshift. lia.
  - replace (k + 1 - n) with (k - n + 1) by lia. apply Hshift. lia.
  - replace (k + 1 - 1) with (k - 1 + 1) by lia. apply Hshift. lia.
  - replace (k + 1 - 1) with (k - 1 + 1) by lia. apply Hshift. lia.
Qed.

(** An integer of fewer than 22 digits is read back as itself. *)
Lemma parsedString_integer z :
  Z.abs z < 10 ^ 21 →
  storedSettings.parsedString (storedSettings.ofInteger z) = Some z.
Proof.
  intros Hz. destruct z as [|s|s]; [done | |];
    simpl;
    pose proof (digitsFrom_bound (Pos.size_nat s) (Z.pos s) 21 ltac:(lia)
                  ltac:(lia)) as Hk;
    fold (storedSettings.digitCount s) in Hk;
    rewrite Z.leb_refl; simpl;
    (destruct (Z.leb_spec (storedSettings.digitCount s) 21); [|lia]);
    rewrite Z.sub_diag; simpl; f_equal; lia.
Qed.

(** A number of 22 digits or more is read back as its first digit. *)
Lemma parsedString_huge negative s n :
  21 < n →
  storedSettings.parsedString (storedSettings.Finite negative s n)
  = Some (if negative then - storedSettings.leadingDigit s
          else storedSettings.leadingDigit s).
Proof.
  intros Hn. unfold storedSettings.parsedString.
  destruct (Z.leb_spec n 21); [lia|]. rewrite !andb_false_r.
  destruct (Z.leb_spec n 0); [lia|]. by rewrite andb_false_r.
Qed.

(** X20: the settings are clamped when they are read, not when they are
    written.  Whatever is stored, the numbers of rows, columns and desktops
    read are within 1..2, 1..4 and 1..10, and the grouping mode read is
    "size" or "origin".  An integer of fewer than 22 digits that is written
    is read back as itself if it is in that range and as the nearest bound
    if it is not; NaN and the infinities are read back as the default (2,
    3, 4); a number of 22 digits or more is stored in exponent form and
    read back as its first digit, clamped, so that ten to the power 21 is
    read back as 1.  A grouping mode written is read back as itself if it
    is one of the two, and as "size" otherwise.  Writing one setting does
    not change what is read of another. *)
Theorem settings_clamped_on_read (st : storedSettings.Stored)
    (x : storedSettings.Number) (g : string) :
  (1 ≤ storedSettings.getRows st ≤ 2
   ∧ 1 ≤ storedSettings.getColumns st ≤ 4
   ∧ 1 ≤ storedSettings.getDesktops st ≤ 10
   ∧ storedSettings.getGroupBy st ∈ ["size"; "origin"])
  ∧ (∀ z, Z.abs z < 10 ^ 21 →
       storedSettings.getRows
         (storedSettings.setRows (storedSettings.ofInteger z) st)
       = Z.min (Z.max z 1) 2
       ∧ storedSettings.getColumns
           (storedSettings.setColumns (storedSettings.ofInteger z) st)
         = Z.min (Z.max z 1) 4
       ∧ storedSettings.getDesktops
           (storedSettings.setDesktops (storedSettings.ofInteger z) st)
         = Z.min (Z.max z 1) 10)
  ∧ (x = storedSettings.NaN ∨ (∃ negative : bool, x = storedSettings.Infinity negative) →
       storedSettings.getRows (storedSettings.setRows x st) = 2
       ∧ storedSettings.getColumns (storedSettings.setColumns x st) = 3
       ∧ storedSettings.getDesktops (storedSettings.setDesktops x st) = 4)
  ∧ (∀ (negative : bool) (s : positive) (n : Z), 21 < n →
       let d := if negative then - storedSettings.leadingDigit s
                else storedSettings.leadingDigit s in
       1 ≤ storedSettings.leadingDigit s ≤ 9
       ∧ storedSettings.getRows
           (storedSettings.setRows (storedSettings.Finite negative s n) st)
         = Z.min (Z.max d 1) 2
       ∧ storedSettings.getColumns
           (storedSettings.setColumns (storedSettings.Finite negative s n) st)
         = Z.min (Z.max d 1) 4
       ∧ storedSettings.getDesktops
           (storedSettings.setDesktops (storedSettings.Finite negative s n) st)
         = Z.min (Z.max d 1) 10)
  ∧ storedSettings.getGroupBy (storedSettings.setGroupBy g st)
    = (if bool_decide (g ∈ ["size"; "origin"]) then g else "size")
  ∧ (storedSettings.getRows (storedSettings.setColumns x st)
     = storedSettings.getRows st
     ∧ storedSettings.getRows (storedSettings.setDesktops x st)
       = storedSettings.getRows st
     ∧ storedSettings.getRows (storedSettings.setGroupBy g st)
       = storedSettings.getRows st
     ∧ storedSettings.getColumns (storedSettings.setRows x st)
       = storedSettings.getColumns st
     ∧ storedSettings.getColumns (storedSettings.setDesktops x st)
       = storedSettings.getColumns st
     ∧ storedSettings.getColumns (storedSettings.setGroupBy g st)
       = storedSettings.getColumns st
     ∧ storedSettings.getDesktops (storedSettings.setRows x st)
       = storedSettings.getDesktops st
     ∧ storedSettings.getDesktops (storedSettings.setColumns x st)
       = storedSettings.getDesktops st
     ∧ storedSettings.getDesktops (storedSettings.setGroupBy g st)
       = storedSettings.getDesktops st
     ∧ storedSettings.getGroupBy (storedSettings.setRows x st)
       = storedSettings.getGroupBy st
     ∧ storedSettings.getGroupBy (storedSettings.setColumns x st)
       = storedSettings.getGroupBy st
     ∧ storedSettings.getGroupBy (storedSettings.setDesktops x st)
       = storedSettings.getGroupBy st).
Proof.
  assert (Hmode : ∀ m : string,
            (if string_neqb m "size" && string_neqb m "origin"
             then "size" else m)
            = if bool_decide (m ∈ ["size"; "origin"]) then m else "size").
  { intros m.
    destruct (string_neqb m "size") eqn:Hsize.
    - destruct (string_neqb m "origin") eqn:Horigin; simpl.
      + rewrite bool_decide_eq_false_2; [done|].
        rewrite !elem_of_cons, elem_of_nil. intros [->| [->|[]]]; done.
      + apply string_neqb_false in Horigin as ->. done.
    - apply string_neqb_false in Hsize as ->. done. }
  split; [|split; [|split; [|split; [|split]]]].
  - pose proof (settings_range st) as (Hrows & Hcolumns & Hdesktops).
    repeat (split; [lia|]). clear Hrows Hcolumns Hdesktops.
    unfold storedSettings.getGroupBy.
    destruct (storedSettings.groupBy st) as [m|].
    + rewrite Hmode. case_bool_decide; [done|]. apply elem_of_cons. by left.
    + apply elem_of_cons. by left.
  - intros z Hz.
    unfold storedSettings.getRows, storedSettings.getColumns,
      storedSettings.getDesktops, settings.getDesktops,
      storedSettings.setRows, storedSettings.setColumns,
      storedSettings.setDesktops.
    cbn [storedSettings.rows storedSettings.columns
         storedSettings.desktopCount].
    by rewrite (parsedString_integer z Hz).
  - by intros [-> | [negative ->]].
  - intros negative s n Hn d. split; [apply leadingDigit_range|].
    unfold storedSettings.getRows, storedSettings.getColumns,
      storedSettings.getDesktops, settings.getDesktops,
      storedSettings.setRows, storedSettings.setColumns,
      storedSettings.setDesktops.
    cbn [storedSettings.rows storedSettings.columns
         storedSettings.desktopCount].
    by rewrite (parsedString_huge negative s n Hn).
  - unfold storedSettings.getGroupBy. simpl. apply Hmode.
  - done.
Qed.

(** The numbers the options page can pass on: 3 is read back as 3 columns,
    ten to the power 21, stored as "1e+21", as 1, and what [parseInt]
    makes of an empty field as the default. *)
Example setColumns_examples (st : storedSettings.Stored) :
  storedSettings.getColumns
    (storedSettings.setColumns (storedSettings.Finite false 3 1) st) = 3
  ∧ storedSettings.getColumns
      (storedSettings.setColumns (storedSettings.Finite false 1 22) st) = 1
  ∧ storedSettings.getColumns
      (storedSettings.setColumns (storedSettings.ofInteger (10 ^ 21 - 1)) st) = 4
  ∧ storedSettings.getColumns
      (storedSettings.setColumns storedSettings.NaN st) = 3.
Proof. by vm_compute. Qed.
